(** * Mask reconciliation and scoring engine of mrcnn/analyze.py

    A shallow embedding of [ModelTester] and [Analyzer] (mrcnn/analyze.py):
    raster masks, the connected-component labelling the analyzer asks
    skimage for, mask merging, the "touching" test, the region splitting
    and merging of ground truth and detections, the IoU matching and the
    aggregation over a dataset. *)

From Stdlib Require Import ZArith QArith Lia Bool Relations Permutation String.
From stdpp Require Import base decidable option list.

Unset Default Proof Using.
Local Open Scope Z_scope.

(** ** Label propagation over an edge list

    The component structure of a raster (and of the instance graph) is
    computed by merging classes edge by edge: every node starts as its own
    representative, and an edge between two classes relabels the class with
    the larger representative to the smaller one. *)

Section Propagation.
Context {A : Type} `{EqDecision A}.
Variable before : A -> A -> bool.

Definition join (f : A -> A) (e : A * A) : A -> A :=
  let a := f (fst e) in
  let b := f (snd e) in
  if decide (a = b) then f
  else
    let lo := if before a b then a else b in
    let hi := if before a b then b else a in
    fun x => if decide (f x = hi) then lo else f x.

Definition propagate (E : list (A * A)) : A -> A :=
  fold_left join E (fun x => x).

(** Reachability through the edges of [E], in either direction. *)
Definition econn (E : list (A * A)) : relation A :=
  clos_refl_sym_trans A (fun x y => In (x, y) E).

(** The invariant of the propagation: labels are fixed points, and two
    nodes share a label exactly when the processed edges link them. *)
Definition tracks (E : list (A * A)) (f : A -> A) : Prop :=
  (forall x, f (f x) = f x) /\ (forall x y, f x = f y <-> econn E x y).
End Propagation.

(** ** Rasters *)

(** A mask is a 2-D numpy array, kept row by row.  Cells are integers:
    boolean masks hold 0/1, the non-binary ground truth holds the class of
    the object in each pixel.  The cells are small, the wrap-around of the
    array type is not modelled. *)
Abbreviation mask := (list (list Z)).

(** A pixel is a (row, column) pair. *)
Abbreviation pixel := (nat * nat)%type.

(** [mask.shape[0]] and [mask.shape[1]]. *)
Definition height (m : mask) : nat := length m.
Definition width (m : mask) : nat :=
  match m with [] => 0%nat | r :: _ => length r end.

(** Rectangular arrays: every row has the width of the array. *)
Definition is_rect (m : mask) : bool :=
  forallb (fun r => (length r =? width m)%nat) m.

Definition same_shape (a b : mask) : bool :=
  (height a =? height b)%nat && (width a =? width b)%nat.

(** Masks of 0/1 cells (boolean masks). *)
Definition bit (z : Z) : Prop := z = 0 \/ z = 1.

Definition is_binary (m : mask) : bool :=
  forallb (forallb (fun z => (z =? 0) || (z =? 1))) m.

Definition all_binary (l : list mask) : Prop :=
  Forall (fun m => is_binary m = true) l.

(** Masks without negative cells: the boolean masks and the ground truth
    masks whose cells hold class ids. *)
Definition is_nonneg (m : mask) : bool :=
  forallb (forallb (fun z => 0 <=? z)) m.

(** The cell at a pixel; background outside the array. *)
Definition pix (m : mask) (p : pixel) : Z :=
  nth (snd p) (nth (fst p) m []) 0.

Definition fg (m : mask) (p : pixel) : bool := negb (pix m p =? 0).

(** All pixels of the array in raster order (row by row). *)
Definition pixels (m : mask) : list pixel :=
  list_prod (seq 0 (height m)) (seq 0 (width m)).

(** Raster order on pixels. *)
Definition raster_le (p q : pixel) : bool :=
  (fst p <? fst q)%nat || ((fst p =? fst q)%nat && (snd p <=? snd q)%nat).

(** [skimage.measure.label(mask, background=0, return_num=True,
    connectivity=1)]: two pixels belong to one region when they are
    orthogonal neighbours and hold the same non-background value. *)
Definition joined (m : mask) (p q : pixel) : bool :=
  fg m p && (pix m p =? pix m q).

Definition neighbours (p q : pixel) : Prop :=
  (fst p = fst q /\ (snd q = S (snd p) \/ snd p = S (snd q))) \/
  (snd p = snd q /\ (fst q = S (fst p) \/ fst p = S (fst q))).

Definition adj (m : mask) : relation pixel :=
  fun p q => neighbours p q /\ joined m p q = true.

(** Two pixels are in one region when a chain of joined neighbours links
    them. *)
Definition region (m : mask) : relation pixel :=
  clos_refl_sym_trans pixel (adj m).

(** The joined neighbour pairs of the raster, each listed once (right and
    down neighbour of every pixel). *)
Definition edges_at (m : mask) (p : pixel) : list (pixel * pixel) :=
  let right := (fst p, S (snd p)) in
  let down := (S (fst p), snd p) in
  (if joined m p right then [(p, right)] else []) ++
  (if joined m p down then [(p, down)] else []).

Definition edges (m : mask) : list (pixel * pixel) :=
  flat_map (edges_at m) (pixels m).

(** The representative of the region of a pixel: its first pixel in raster
    order. *)
Definition rep (m : mask) : pixel -> pixel :=
  propagate raster_le (edges m).

(** The first pixels of the regions, in raster order. *)
Definition reps (m : mask) : list pixel :=
  filter (fun p => fg m p = true /\ rep m p = p) (pixels m).

Fixpoint index_of (p : pixel) (l : list pixel) : nat :=
  match l with
  | [] => 0%nat
  | q :: l' => if decide (p = q) then 0%nat else S (index_of p l')
  end.

(** The label of a pixel: 0 on background, otherwise the rank (from 1) of
    its region among the regions met in raster order. *)
Definition label_at (m : mask) (p : pixel) : nat :=
  if fg m p then S (index_of (rep m p) (reps m)) else 0%nat.

Definition label_grid (m : mask) : list (list nat) :=
  map (fun r => map (fun c => label_at m (r, c)) (seq 0 (width m)))
      (seq 0 (height m)).

(** [extract_mask_connected_components]: the labelled array and the number
    of regions. *)
Definition extract_mask_connected_components (m : mask)
  : list (list nat) * nat :=
  (label_grid m, length (reps m)).

Definition ncomponents (m : mask) : nat :=
  snd (extract_mask_connected_components m).

(** ** Mask methods of [Analyzer] *)

Definition clip (z : Z) : Z := if z >? 1 then 1 else z.

(** [merge_masks]: [mask= mask1 + mask2; mask[mask>1]= 1].  The operands
    are slices of arrays of one image and have the same shape.  The cells
    are integers without a width: the sum agrees with the sum of the
    source, which is taken in the dtype of the arrays, on 0/1 cells
    (boolean masks, where [+] is the disjunction, and 0/1 integers) and on
    cells small enough not to wrap around. *)
Definition merge_masks (mask1 mask2 : mask) : mask :=
  zip_with (zip_with (fun x y => clip (x + y))) mask1 mask2.

(** [are_mask_connected]: the masks are not connected exactly when the
    merged mask has as many regions as the two masks together. *)
Definition are_mask_connected (mask1 mask2 : mask) : bool :=
  let '(labels1, ncomponents1) := extract_mask_connected_components mask1 in
  let '(labels2, ncomponents2) := extract_mask_connected_components mask2 in
  let m := merge_masks mask1 mask2 in
  let '(labels, ncomponents) := extract_mask_connected_components m in
  if (ncomponents =? ncomponents1 + ncomponents2)%nat then false else true.

(** The merging loop over the member masks of a component:
    [merged_mask= mask] for the first member ([j==0]) and
    [merged_mask= self.merge_masks(merged_mask,mask)] for the others.  A
    component without members leaves nothing to merge. *)
Definition merge_all (members : list mask) : option mask :=
  match members with
  | [] => None
  | m :: rest => Some (fold_left merge_masks rest m)
  end.

(** The orthogonal neighbours of a pixel. *)
Definition neighbourhood (p : pixel) : list pixel :=
  [(fst p, S (snd p)); (S (fst p), snd p)] ++
  match snd p with O => [] | S c => [(fst p, c)] end ++
  match fst p with O => [] | S r => [(r, snd p)] end.

(** No pixel is foreground in both masks. *)
Definition disjoint_masks (a b : mask) : bool :=
  forallb (fun p => negb (fg a p && fg b p)) (pixels a).

(** No foreground pixel of [a] has a foreground pixel of [b] as orthogonal
    neighbour. *)
Definition apart_masks (a b : mask) : bool :=
  forallb (fun p => negb (fg a p) ||
                    forallb (fun q => negb (fg b q)) (neighbourhood p))
          (pixels a).

(** ** Python values *)

(** [l[i]] on a Python list or a numpy array: a negative index counts from
    the end; an index out of range raises IndexError, which is [None]
    here, as every exception is. *)
Definition py_index (len : nat) (i : Z) : option nat :=
  if (0 <=? i) && (i <? Z.of_nat len) then Some (Z.to_nat i)
  else if (i <? 0) && (- Z.of_nat len <=? i) then Some (Z.to_nat (Z.of_nat len + i))
  else None.

Definition py_get {X} (l : list X) (i : Z) : option X :=
  k ← py_index (length l) i; l !! k.

(** Comparisons of scores and IoUs ([>], [<], [>=]). *)
Definition Qgtb (x y : Q) : bool := negb (Qle_bool x y).
Definition Qltb (x y : Q) : bool := negb (Qle_bool y x).
Definition Qgeb (x y : Q) : bool := Qle_bool y x.

(** [v[i] += 1] and [M[i][j] += 1] on numpy arrays. *)
Definition incr (v : list Z) (i : Z) : option (list Z) :=
  k ← py_index (length v) i; x ← v !! k; Some (<[k := x + 1]> v).

Definition incr2 (M : list (list Z)) (i j : Z) : option (list (list Z)) :=
  k ← py_index (length M) i; row ← M !! k; row' ← incr row j;
  Some (<[k := row']> M).

(** ** The instance graph *)

(** Modelled from the spec: mrcnn/graph.py (class [Graph]) is not among
    the sources.  Section 4.2: the graph has the nodes 0..N-1; [addEdge]
    inserts an undirected edge (nothing changes when both ends are the
    same node, and duplicates are harmless); [connectedComponents] returns
    the partition of all N nodes by reachability, isolated nodes as
    singleton groups, the groups in the order in which they are discovered
    from node 0 upwards. *)
Record Graph := mkGraph { gV : nat; gEdges : list (nat * nat) }.

Definition new_Graph (N : nat) : Graph := mkGraph N [].

Definition addEdge (g : Graph) (i j : nat) : Graph :=
  mkGraph (gV g) (gEdges g ++ [(i, j)]).

Definition connectedComponents (g : Graph) : list (list nat) :=
  let root := propagate Nat.leb (gEdges g) in
  let nodes := seq 0 (gV g) in
  map (fun r => filter (fun v => root v = r) nodes)
      (filter (fun v => root v = v) nodes).

(** [for i in range(N): for j in range(i+1,N)]. *)
Definition index_pairs (N : nat) : list (nat * nat) :=
  flat_map (fun i => map (fun j => (i, j)) (seq (S i) (N - S i))) (seq 0 N).

(** [g= Graph(N)] followed by the double loop that adds an edge for every
    mergeable pair. *)
Definition link_graph {X} (items : list X) (mergeable : X -> X -> bool) : Graph :=
  fold_left (fun g '(i, j) =>
               match items !! i, items !! j with
               | Some x, Some y => if mergeable x y then addEdge g i j else g
               | _, _ => g
               end)
            (index_pairs (length items)) (new_Graph (length items)).

(** ** The closing loops of both [compute_performances]

    The arrays are allocated with [n_classes] rows and columns
    ([np.zeros((n_classes,n_classes))], [np.zeros((1,n_classes))]), so the
    reads and writes at [i], [j] in [range(n_classes)] are in range.
    Counters hold whole numbers; a quotient of two of them is a
    rational. *)

(** One round of a loop that writes the cell [i] of an array unless the
    round is skipped. *)
Definition update_step {X} (d : X) (skip : nat -> bool) (value : nat -> X -> X)
    (acc : list X) (i : nat) : list X :=
  if skip i then acc else <[i := value i (nth i acc d)]> acc.

(** [for j in range(n_classes): row_norm[j]= row[j]/norm]. *)
Definition normalize_row (n_classes : nat) (row : list Z) (norm : Z)
    (row_norm : list Q) : list Q :=
  fold_left (fun acc j => <[j := (inject_Z (nth j row 0%Z) / inject_Z norm)%Q]> acc)
            (seq 0 n_classes) row_norm.

(** The normalisation of the rows of the matrix by the number of true
    objects; a row with [norm<=0] is skipped. *)
Definition normalize (n_classes : nat) (matrix : list (list Z))
    (nobjs_true : list Z) (matrix_norm : list (list Q)) : list (list Q) :=
  fold_left (fun acc i =>
               let norm := nth i nobjs_true 0 in
               if norm <=? 0 then acc
               else <[i := normalize_row n_classes (nth i matrix []) norm
                                         (nth i acc [])]> acc)
            (seq 0 n_classes) matrix_norm.

(** [purity[0][j]= nobjs_det_right[0][j]/nobjs_det[0][j]], skipped when
    [nobjs_det[0][j]<=0]. *)
Definition purities (n_classes : nat) (nobjs_det nobjs_det_right : list Z)
    (purity : list Q) : list Q :=
  fold_left (fun acc j =>
               if nth j nobjs_det 0 <=? 0 then acc
               else <[j := (inject_Z (nth j nobjs_det_right 0%Z) /
                            inject_Z (nth j nobjs_det 0%Z))%Q]> acc)
            (seq 0 n_classes) purity.

(** ** Analyzer *)

(** A bounding box [y1, x1, y2, x2]. *)
Abbreviation bbox := (Z * Z * Z * Z)%type.

Module Analyzer.

(** A region or an instance of the detector: the parallel lists
    [masks_*], [class_ids_*] and [scores_*] of the source always grow
    together and are kept as one list of triples. *)
Record region := mkRegion { r_mask : mask; r_class_id : Z; r_score : Q }.

(** The detector result [r]: [r['masks']] (one mask per object),
    [r['rois'].shape[0]], [r['class_ids']], [r['scores']]. *)
Record det_raw := mkRaw {
  masks : list mask; boxes_n : nat; class_ids : list Z; scores : list Q }.

Record gt_data := mkGt {
  masks_gt_merged : list mask; class_ids_gt_merged : list Z;
  bboxes_gt : list bbox; captions_gt : list string }.

(** A caption ["{} {:.3f}".format(label, score)] is kept as its two
    operands. *)
Record det_data := mkDet {
  masks_final : list mask; class_ids_final : list Z;
  scores_final : list Q; bboxes : list bbox;
  captions : list (string * Q) }.

Record perf := mkPerf {
  confusion_matrix : list (list Z);
  confusion_matrix_norm : list (list Q);
  purity : list Q;
  nobjs_true : list Z; nobjs_det : list Z; nobjs_det_right : list Z }.

Definition is_galaxy (label : string) : bool :=
  (label =? "galaxy_C2")%string || (label =? "galaxy_C3")%string.

(** [np.where(labels==k)]: the pixels that hold [k], in raster order. *)
Definition np_where_eq (labels : list (list nat)) (k : nat) : list pixel :=
  concat (imap (fun r row =>
                  omap (fun x => x)
                       (imap (fun c l => if decide (l = k) then Some (r, c) else None)
                             row))
               labels).

(** [np.where(labels==k, [1], [0])]. *)
Definition np_where_01 (labels : list (list nat)) (k : nat) : mask :=
  map (map (fun l => if decide (l = k) then 1 else 0)) labels.

(** [np.zeros(mask.shape)]. *)
Definition zeros_like (m : mask) : mask :=
  replicate (height m) (replicate (width m) 0).

(** [extracted_mask[mask_indices]= 1]. *)
Definition set_ones (m : mask) (indices : list pixel) : mask :=
  fold_left (fun m p =>
               match m !! fst p with
               | Some row => <[fst p := <[snd p := 1]> row]> m
               | None => m
               end) indices m.

(** The copy of a mask into the boolean array [mask_expanded]. *)
Definition as_bool (m : mask) : mask :=
  map (map (fun z => if z =? 0 then 0 else 1)) m.

(** [np.argsort(scores)]: the indices in ascending order of score; equal
    scores keep their order here, where numpy promises no order among
    them. *)
Fixpoint insert_index (s : list Q) (i : nat) (sorted : list nat) : list nat :=
  match sorted with
  | [] => [i]
  | j :: rest =>
      if Qltb (nth i s 0%Q) (nth j s 0%Q) then i :: sorted
      else j :: insert_index s i rest
  end.

Definition argsort (s : list Q) : list nat :=
  fold_left (fun sorted i => insert_index s i sorted) (seq 0 (length s)) [].

Section Methods.
(** [utils.extract_bboxes] on the one-mask stack [mask_expanded]
    (its row 0) and [utils.get_iou]: mrcnn/utils.py is not among the
    sources, the two helpers are parameters. *)
Variable extract_bboxes : mask -> bbox.
Variable get_iou : bbox -> bbox -> Q.
Variable class_names : list string.

(** *** extract_gt_masks *)

(** The loop over the sub components of one ground truth mask. *)
Definition split_gt_mask (mask_gt : mask) : option (list (mask * Z)) :=
  let '(component_labels_gt, ncomponents_gt) :=
    extract_mask_connected_components mask_gt in
  mapM (fun i : nat =>
          let mask_indices := np_where_eq component_labels_gt 1 in
          let extracted_mask := set_ones (zeros_like mask_gt) mask_indices in
          p ← head mask_indices;
          let object_classid := pix mask_gt p in
          Some (extracted_mask, object_classid))
       (seq 0 ncomponents_gt).

Definition gt_regions (masks_gt : list mask) (label_gt : string)
    (class_id_gt : Z) : option (list (mask * Z)) :=
  (fun parts => concat parts) <$>
    mapM (fun mask_gt =>
            if is_galaxy label_gt then Some [(mask_gt, class_id_gt)]
            else split_gt_mask mask_gt)
         masks_gt.

(** The merge of the members of one group; [class_id] is the one of
    the last member. *)
Definition merge_gt_component (regions : list (mask * Z))
    (component : list nat) : option (mask * Z) :=
  members ← mapM (fun index => regions !! index) component;
  merged_mask ← merge_all (fst <$> members);
  class_id ← last (snd <$> members);
  Some (merged_mask, class_id).

Definition extract_gt_masks (masks_gt : list mask) (label_gt : string)
    (class_id_gt : Z) : option gt_data :=
  regions ← gt_regions masks_gt label_gt class_id_gt;
  let g := link_graph regions
             (fun x y => are_mask_connected (fst x) (fst y) &&
                         bool_decide (snd x = snd y)) in
  let cc := connectedComponents g in
  merged ← mapM (merge_gt_component regions)
                (filter (fun component => component <> []) cc);
  captions ← mapM (fun x => py_get class_names (snd x)) merged;
  Some (mkGt (fst <$> merged) (snd <$> merged)
             ((fun x => extract_bboxes (as_bool (fst x))) <$> merged)
             captions).

(** *** extract_det_masks *)

(** The objects with a score not below the threshold. *)
Definition select_objects (r : det_raw) (score_thr : Q)
  : option (list region) :=
  (fun parts => concat parts) <$>
    mapM (fun i : nat =>
            mask ← masks r !! i;
            class_id ← class_ids r !! i;
            score ← scores r !! i;
            label ← py_get class_names class_id;
            if Qltb score score_thr then Some []
            else Some [mkRegion mask class_id score])
         (seq 0 (boxes_n r)).

(** The loop over the selected objects in descending order of
    score: galaxies are kept whole, the other objects are split into
    their sub components. *)
Definition split_object (sel : list region) (index : nat)
  : option (list region) :=
  x ← sel !! index;
  label ← py_get class_names (r_class_id x);
  if is_galaxy label then Some [x]
  else
    let '(component_labels, ncomponents) :=
      extract_mask_connected_components (r_mask x) in
    Some (map (fun i : nat =>
                 mkRegion (np_where_01 component_labels (S i))
                          (r_class_id x) (r_score x))
              (seq 0 ncomponents)).

(** The merge of the members of one group of connected masks of one
    class.  The scores are rationals, so [score_avg] is the exact mean;
    the source adds and scales floats, whose result can differ from the
    mean in the last digits. *)
Definition merge_component (regions : list region)
    (component : list nat) : option region :=
  members ← mapM (fun index => regions !! index) component;
  merged_mask ← merge_all (r_mask <$> members);
  class_id ← last (r_class_id <$> members);
  let score_avg :=
    (fold_left Qplus (r_score <$> members) 0 *
     (1 / inject_Z (Z.of_nat (length component))))%Q in
  Some (mkRegion merged_mask class_id score_avg).

(** The graph of the second pass: an edge needs connected masks
    only. *)
Definition overlap_graph (merged : list region) : Graph :=
  link_graph merged (fun x y => are_mask_connected (r_mask x) (r_mask y)).

(** The scan of one group of overlapping masks for the largest
    score; the state is [(score_best, index_best, class_id_best)]. *)
Fixpoint scan_group (merged : list region) (group : list nat)
    (st : Q * Z * Z) : option (Q * Z * Z) :=
  match group with
  | [] => Some st
  | index :: rest =>
      x ← merged !! index;
      let '(score_best, index_best, class_id_best) := st in
      if Qgtb (r_score x) score_best
      then scan_group merged rest (r_score x, Z.of_nat index, r_class_id x)
      else scan_group merged rest st
  end.

Definition index_best_of (merged : list region) (group : list nat)
  : option Z :=
  '(score_best, index_best, class_id_best) ←
    scan_group merged group (0%Q, -1, 0);
  Some index_best.

(** The instance kept for one group. *)
Definition select_best (merged : list region) (group : list nat)
  : option region :=
  index_best ← index_best_of merged group;
  py_get merged index_best.

Definition resolve_overlaps (merged : list region) : option (list region) :=
  let cc_final := connectedComponents (overlap_graph merged) in
  mapM (select_best merged) (filter (fun group => group <> []) cc_final).

(** The last loop: a bounding box and a caption for every selected
    mask. *)
Definition boxes_and_captions (final : list region) : option det_data :=
  captions ← mapM (fun x => label ← py_get class_names (r_class_id x);
                            Some (label, r_score x)) final;
  Some (mkDet (r_mask <$> final) (r_class_id <$> final) (r_score <$> final)
              ((fun x => extract_bboxes (as_bool (r_mask x))) <$> final)
              captions).

Definition merge_regions (regions : list region) : option (list region) :=
  let g := link_graph regions
             (fun x y => are_mask_connected (r_mask x) (r_mask y) &&
                         bool_decide (r_class_id x = r_class_id y)) in
  let cc := connectedComponents g in
  mapM (merge_component regions)
       (filter (fun component => component <> []) cc).

(** The first part of [extract_det_masks]: the selection by score, the
    split of the selected objects in descending order of score, and the
    merge of the connected masks of one class. *)
Definition merged_instances (r : det_raw) (score_thr : Q)
  : option (list region) :=
  sel ← select_objects r score_thr;
  let sort_indices := rev (argsort (r_score <$> sel)) in
  regions ← (fun parts => concat parts) <$> mapM (split_object sel) sort_indices;
  merge_regions regions.

Definition extract_det_masks (r : det_raw) (score_thr : Q)
  : option det_data :=
  merged ← merged_instances r score_thr;
  final ← resolve_overlaps merged;
  boxes_and_captions final.

(** *** compute_performances *)

(** A loop whose rounds may raise. *)
Fixpoint loop {S X} (body : S -> X -> option S) (l : list X) (st : S)
  : option S :=
  match l with
  | [] => Some st
  | x :: rest => st' ← body st x; loop body rest st'
  end.

(** The scan for the best association: candidate [j] replaces the
    current best when [iou>self.iou_thr and iou>=iou_best]; the state
    is [(index_best, iou_best)]. *)
Fixpoint scan_iou (iou_thr : Q) (ious : list Q) (j : nat) (st : Z * Q)
  : Z * Q :=
  match ious with
  | [] => st
  | iou :: rest =>
      if Qgtb iou iou_thr && Qgeb iou (snd st)
      then scan_iou iou_thr rest (S j) (Z.of_nat j, iou)
      else scan_iou iou_thr rest (S j) st
  end.

Definition best_match (iou_thr : Q) (ious : list Q) : Z :=
  fst (scan_iou iou_thr ious 0 (-1, 0%Q)).

(** One round of the loop over the ground truth boxes; the state is
    [(nobjs_true, confusion_matrix)]. *)
Definition match_true_object (iou_thr : Q) (gt : gt_data) (det : det_data)
    (st : list Z * list (list Z)) (i : nat)
  : option (list Z * list (list Z)) :=
  bbox_gt ← bboxes_gt gt !! i;
  class_id_gt ← class_ids_gt_merged gt !! i;
  nobjs_true' ← incr (fst st) class_id_gt;
  _ ← mapM (fun j : nat => class_ids_final det !! j)
           (seq 0 (length (bboxes det)));
  let index_best :=
    best_match iou_thr ((fun bbox => get_iou bbox bbox_gt) <$> bboxes det) in
  if index_best =? -1 then Some (nobjs_true', snd st)
  else
    class_id_det ← py_get (class_ids_final det) index_best;
    confusion_matrix' ← incr2 (snd st) class_id_gt class_id_det;
    Some (nobjs_true', confusion_matrix').

(** One round of the loop over the detected boxes; the state is
    [(nobjs_det, nobjs_det_right)]. *)
Definition match_det_object (iou_thr : Q) (gt : gt_data) (det : det_data)
    (st : list Z * list Z) (j : nat) : option (list Z * list Z) :=
  bbox ← bboxes det !! j;
  class_id ← class_ids_final det !! j;
  nobjs_det' ← incr (fst st) class_id;
  _ ← mapM (fun i : nat => class_ids_gt_merged gt !! i)
           (seq 0 (length (bboxes_gt gt)));
  let index_best :=
    best_match iou_thr ((fun bbox_gt => get_iou bbox bbox_gt) <$> bboxes_gt gt) in
  if index_best =? -1 then Some (nobjs_det', snd st)
  else
    class_id_det ← py_get (class_ids_gt_merged gt) index_best;
    if decide (class_id = class_id_det)
    then nobjs_det_right' ← incr (snd st) class_id;
         Some (nobjs_det', nobjs_det_right')
    else Some (nobjs_det', snd st).

Definition compute_performances (n_classes : nat) (iou_thr : Q)
    (gt : gt_data) (det : det_data) : option perf :=
  '(nobjs_true, confusion_matrix) ←
    loop (match_true_object iou_thr gt det)
         (seq 0 (length (bboxes_gt gt)))
         (replicate n_classes 0, replicate n_classes (replicate n_classes 0));
  let confusion_matrix_norm :=
    normalize n_classes confusion_matrix nobjs_true
              (replicate n_classes (replicate n_classes 0%Q)) in
  '(nobjs_det, nobjs_det_right) ←
    loop (match_det_object iou_thr gt det)
         (seq 0 (length (bboxes det)))
         (replicate n_classes 0, replicate n_classes 0);
  let purity :=
    purities n_classes nobjs_det nobjs_det_right (replicate n_classes 0%Q) in
  Some (mkPerf confusion_matrix confusion_matrix_norm purity
               nobjs_true nobjs_det nobjs_det_right).
End Methods.

(** The dataset, as far as the analyzer reads it: [image_ids],
    [class_names], [load_gt_mask_nonbinary(image_id)] (one mask per
    object) and [image_info[image_id]["class_id"]]. *)
Record Dataset := mkDataset {
  image_ids : list Z;
  ds_class_names : list string;
  load_gt_mask_nonbinary : Z -> list mask;
  image_class_id : Z -> option Z }.

(** The analyzer as [__init__] leaves it; [detect] is
    [self.model.detect] on the image that the dataset loads for an
    image id. *)
Record t := mkAnalyzer {
  n_classes : nat;
  dataset : option Dataset;
  detect : Z -> det_raw;
  score_thr : Q;
  iou_thr : Q }.

(** The keys of [class_color_map]. *)
Definition class_colors : list string :=
  ["bkg"; "sidelobe"; "source"; "galaxy_C2"; "galaxy_C3"]%string.

(** The results of a new analyzer. *)
Definition no_perf (n : nat) : perf :=
  mkPerf (replicate n (replicate n 0)) (replicate n (replicate n 0%Q))
         (replicate n 0%Q) (replicate n 0) (replicate n 0) (replicate n 0).

(** [draw_results], as far as it can raise: the colour of every true box
    and of every detected object is looked up in [class_color_map], which
    raises KeyError for a label that is no key of it.  The figure itself
    does not change the results and is left out. *)
Definition draw_results (class_names : list string) (gt : gt_data)
    (det : det_data) : option unit :=
  _ ← mapM (fun i : nat =>
              label ← match class_ids_gt_merged gt with
                      | [] => Some "bkg"%string
                      | _ => class_id ← class_ids_gt_merged gt !! i;
                             py_get class_names class_id
                      end;
              if existsb (String.eqb label) class_colors
              then bbox_gt ← bboxes_gt gt !! i; Some tt
              else None)
           (seq 0 (length (bboxes_gt gt)));
  _ ← mapM (fun i : nat =>
              class_id ← class_ids_final det !! i;
              label ← py_get class_names class_id;
              if existsb (String.eqb label) class_colors
              then bbox ← bboxes det !! i; caption ← captions det !! i; Some tt
              else None)
           (seq 0 (length (masks_final det)));
  Some tt.

Section Inspect.
Variable extract_bboxes : mask -> bbox.
Variable get_iou : bbox -> bbox -> Q.

(** [inspect_results]: the status and the performance results of the
    analyzer afterwards.  [get_data] answers -1 without a dataset;
    [self.draw] is True, as [__init__] sets it, so the results are drawn
    at the end. *)
Definition inspect_results (a : t) (image_id : Z) : option (Z * perf) :=
  match dataset a with
  | None => Some (-1, no_perf (n_classes a))
  | Some ds =>
      let r := detect a image_id in
      let class_names := ds_class_names ds in
      let nobjects := length (masks r) in
      let masks_gt := load_gt_mask_nonbinary ds image_id in
      class_id_gt ← image_class_id ds image_id;
      label_gt ← py_get class_names class_id_gt;
      if negb (existsb (String.eqb label_gt) class_colors) then None
      else
        gt ← extract_gt_masks extract_bboxes class_names masks_gt
                              label_gt class_id_gt;
        det ← (if (0 <? nobjects)%nat
               then extract_det_masks extract_bboxes class_names r (score_thr a)
               else Some (mkDet [] [] [] [] []));
        p ← compute_performances get_iou (n_classes a) (iou_thr a) gt det;
        _ ← draw_results class_names gt det;
        Some (0, p)
  end.
End Inspect.
End Analyzer.


(** ** The helpers of mrcnn/utils.py *)

(** Modelled from the spec: [utils.extract_bboxes] (mrcnn/utils.py is not
    among the sources).  Section 3: the box (y1, x1, y2, x2) is the tight
    box around the foreground pixels of the mask, degenerate (empty) when
    the mask has no foreground pixel.  The box spans the rows y1..y2-1 and
    the columns x1..x2-1; the empty box is (0, 0, 0, 0). *)
Definition tight_bbox (m : mask) : bbox :=
  let rows := filter (fun r => existsb (fun c => fg m (r, c)) (seq 0 (width m)) = true)
                     (seq 0 (height m)) in
  let cols := filter (fun c => existsb (fun r => fg m (r, c)) (seq 0 (height m)) = true)
                     (seq 0 (width m)) in
  match head rows, last rows, head cols, last cols with
  | Some y1, Some y2, Some x1, Some x2 =>
      (Z.of_nat y1, Z.of_nat x1, Z.of_nat y2 + 1, Z.of_nat x2 + 1)
  | _, _, _, _ => (0, 0, 0, 0)
  end.

(** Modelled from the spec: [utils.get_iou] (mrcnn/utils.py is not among
    the sources).  Section 4.8: the intersection over union of two boxes,
    0 when the boxes do not intersect or one of them has zero area. *)
Definition box_iou (a b : bbox) : Q :=
  let '(ay1, ax1, ay2, ax2) := a in
  let '(by1, bx1, by2, bx2) := b in
  let ih := Z.min ay2 by2 - Z.max ay1 by1 in
  let iw := Z.min ax2 bx2 - Z.max ax1 bx1 in
  let area_a := (ay2 - ay1) * (ax2 - ax1) in
  let area_b := (by2 - by1) * (bx2 - bx1) in
  if (ih <=? 0) || (iw <=? 0) || (area_a <=? 0) || (area_b <=? 0) then 0%Q
  else (inject_Z (ih * iw) / inject_Z (area_a + area_b - ih * iw))%Q.

(** ** ModelTester *)

Module ModelTester.

Record t := mkTester {
  n_classes : nat;
  n_max_img : Z;
  score_thr : Q;
  iou_thr : Q;
  classification_matrix : list (list Z);
  classification_matrix_norm : list (list Q);
  purity : list Q;
  nobjs_true : list Z;
  nobjs_det : list Z;
  nobjs_det_right : list Z }.

(** [__init__]. *)
Definition init (n : nat) : t :=
  mkTester n (-1) (7 # 10) (6 # 10)
           (replicate n (replicate n 0)) (replicate n (replicate n 0%Q))
           (replicate n 0%Q) (replicate n 0) (replicate n 0) (replicate n 0).

(** [tester.n_max_img= m], set by the caller before [test]. *)
Definition with_n_max_img (tester : t) (m : Z) : t :=
  mkTester (n_classes tester) m (score_thr tester) (iou_thr tester)
           (classification_matrix tester) (classification_matrix_norm tester)
           (purity tester) (nobjs_true tester) (nobjs_det tester)
           (nobjs_det_right tester).

(** [+=] on arrays of one shape. *)
Definition add_vec (u v : list Z) : list Z := zip_with Z.add u v.
Definition add_mat (M N : list (list Z)) : list (list Z) := zip_with add_vec M N.

Definition update_performances (tester : t) (sample : Analyzer.perf) : t :=
  mkTester (n_classes tester) (n_max_img tester) (score_thr tester) (iou_thr tester)
           (add_mat (classification_matrix tester) (Analyzer.confusion_matrix sample))
           (classification_matrix_norm tester)
           (purity tester)
           (add_vec (nobjs_true tester) (Analyzer.nobjs_true sample))
           (add_vec (nobjs_det tester) (Analyzer.nobjs_det sample))
           (add_vec (nobjs_det_right tester) (Analyzer.nobjs_det_right sample)).

Definition compute_performances (tester : t) : t :=
  mkTester (n_classes tester) (n_max_img tester) (score_thr tester) (iou_thr tester)
           (classification_matrix tester)
           (normalize (n_classes tester) (classification_matrix tester)
                      (nobjs_true tester) (classification_matrix_norm tester))
           (purities (n_classes tester) (nobjs_det tester)
                     (nobjs_det_right tester) (purity tester))
           (nobjs_true tester) (nobjs_det tester) (nobjs_det_right tester).

Section Test.
(** [analyzer.inspect_results(image_id,image_path)] on the analyzer
    made for the image at [index]: the status and the results of the
    analyzer, [None] when it raises. *)
Variable inspect : nat -> Z -> option (Z * Analyzer.perf).

(** The loop of [test] over [enumerate(self.dataset.image_ids)]; [nimg]
    counts the rounds.  The path of the image only names the log lines
    and the drawing and is left out. *)
Fixpoint test_loop (tester : t) (nimg : Z) (ids : list (nat * Z))
  : option t :=
  match ids with
  | [] => Some tester
  | (index, image_id) :: rest =>
      let nimg := nimg + 1 in
      if (n_max_img tester >? 0) && (nimg >=? n_max_img tester)
      then Some tester
      else
        '(status, analyzer) ← inspect index image_id;
        if status <? 0 then test_loop tester nimg rest
        else test_loop (update_performances tester analyzer) nimg rest
  end.

(** The pass over the dataset in the words of the specification: the
    images are analyzed one after the other, an image whose analysis
    fails is skipped, the results of the others are added up. *)
Fixpoint accumulate (tester : t) (ids : list (nat * Z)) : option t :=
  match ids with
  | [] => Some tester
  | (index, image_id) :: rest =>
      '(status, analyzer) ← inspect index image_id;
      if status <? 0 then accumulate tester rest
      else accumulate (update_performances tester analyzer) rest
  end.

(** The images that the loop analyzes when it starts with the counter
    at [nimg]. *)
Definition visited (tester : t) (nimg : Z) (ids : list (nat * Z))
  : list (nat * Z) :=
  if n_max_img tester >? 0
  then firstn (Z.to_nat (n_max_img tester - 1 - nimg)) ids
  else ids.

Definition test_with (tester : t) (image_ids : list Z) : option t :=
  tester' ← test_loop tester 0 (imap (fun index image_id => (index, image_id)) image_ids);
  Some (compute_performances tester').
End Test.

(** [test] on a tester made with a model and a dataset; every image
    gets a new analyzer with the thresholds of the tester. *)
Definition test (extract_bboxes : mask -> bbox) (get_iou : bbox -> bbox -> Q)
    (detect : Z -> Analyzer.det_raw) (dataset : option Analyzer.Dataset)
    (tester : t) : option t :=
  ds ← dataset;
  test_with
    (fun index image_id =>
       Analyzer.inspect_results extract_bboxes get_iou
         (Analyzer.mkAnalyzer (n_classes tester) (Some ds) detect
                              (score_thr tester) (iou_thr tester))
         image_id)
    tester (Analyzer.image_ids ds).
End ModelTester.

(** ** scripts/train.py: the detected masks in [test]

    [r['masks']] is a boolean array of the shape [height, width,
    nobjects]; it is kept as the list of its layers [mask[:,:,i]], with
    the cells 0 and 1. *)

Module Train.

(** [np.count_nonzero(mask_data)]. *)
Definition count_nonzero (mask_data : mask) : Z :=
  Z.of_nat (length (List.filter (fun z => negb (z =? 0)) (concat mask_data))).

(** The loop over the layers that adds up the numbers of set pixels; a
    layer with [counts<=0] is skipped. *)
Definition n_mask_true (masks : list mask) : Z :=
  fold_left (fun n_mask_true mask_data =>
               let counts := count_nonzero mask_data in
               if counts <=? 0 then n_mask_true else n_mask_true + counts)
            masks 0.

(** [np.sum(mask, -1, keepdims=True) >= 1] on an array with a first layer:
    the sum over the layers, cell by cell, compared with 1. *)
Definition collapse (first : mask) (rest : list mask) : mask :=
  map (map (fun s => if s >=? 1 then 1 else 0))
      (fold_left (zip_with (zip_with Z.add)) rest first).

(** What a round of the loop of [test] does with the masks of its image:
    it goes on with the next image when there is no object
    ([nobjects <= 0]) or no set pixel ([n_mask_true<=0]), and draws the
    collapsed mask [mask_merged] otherwise. *)
Inductive round :=
| NoObject
| NoTruePixel
| Collapsed (mask_merged : mask).

Definition test_masks (masks : list mask) : round :=
  match masks with
  | [] => NoObject
  | first :: rest =>
      if n_mask_true masks <=? 0 then NoTruePixel
      else Collapsed (collapse first rest)
  end.
End Train.

(** ** A dataset of one image

    One image with one sidelobe (class 1) of four pixels, which the detector
    finds with score 0.9. *)
Definition demo_dataset : Analyzer.Dataset :=
  Analyzer.mkDataset [0] ["bkg"; "sidelobe"]%string
                     (fun _ => [[[1; 1; 0]; [1; 1; 0]]]) (fun _ => Some 1).

Definition demo_detect (image_id : Z) : Analyzer.det_raw :=
  Analyzer.mkRaw [[[1; 1; 0]; [1; 1; 0]]] 1 [1] [9 # 10].

(** * Properties *)

(** ** Label propagation computes reachability *)

Section PropagationFacts.
Context {A : Type} `{EqDecision A}.
Variable before : A -> A -> bool.

Lemma econn_refl (E : list (A * A)) x : econn E x x.
Proof. apply rst_refl. Qed.

Lemma econn_sym (E : list (A * A)) x y : econn E x y -> econn E y x.
Proof. apply rst_sym. Qed.

Lemma econn_trans (E : list (A * A)) x y z :
  econn E x y -> econn E y z -> econn E x z.
Proof. apply rst_trans. Qed.

Lemma econn_edge (E : list (A * A)) x y : In (x, y) E -> econn E x y.
Proof. intros Hin. apply rst_step. exact Hin. Qed.

Lemma econn_lift (E : list (A * A)) (R : relation A) :
  (forall x, R x x) ->
  (forall x y, R x y -> R y x) ->
  (forall x y z, R x y -> R y z -> R x z) ->
  (forall x y, In (x, y) E -> R x y) ->
  forall x y, econn E x y -> R x y.
Proof.
  intros Hr Hs Ht He x y Hc.
  induction Hc as [x y Hxy | x | x y _ IH | x y z _ IH1 _ IH2].
  - apply He, Hxy.
  - apply Hr.
  - apply Hs, IH.
  - eapply Ht; [exact IH1 | exact IH2].
Qed.

Lemma econn_incl (E E' : list (A * A)) :
  (forall e, In e E -> In e E') ->
  forall x y, econn E x y -> econn E' x y.
Proof.
  intros Hincl. apply econn_lift.
  - apply econn_refl.
  - apply econn_sym.
  - apply econn_trans.
  - intros x y Hin. apply econn_edge, Hincl, Hin.
Qed.

(** Adding one edge links exactly the two classes of its end points. *)
Lemma econn_cons (E : list (A * A)) a b x y :
  econn ((a, b) :: E) x y <->
  econn E x y \/ (econn E x a /\ econn E b y) \/ (econn E x b /\ econn E a y).
Proof.
  split.
  - revert x y. apply econn_lift.
    + intros x. left. apply econn_refl.
    + intros x y [Hxy | [[Hxa Hby] | [Hxb Hay]]].
      * left. apply econn_sym, Hxy.
      * right. right. split; apply econn_sym; assumption.
      * right. left. split; apply econn_sym; assumption.
    + intros x y z Hxy Hyz.
      destruct Hxy as [Hxy | [[Hxa Hby] | [Hxb Hay]]];
        destruct Hyz as [Hyz | [[Hya Hbz] | [Hyb Haz]]].
      * left. eapply econn_trans; eassumption.
      * right. left. split; [eapply econn_trans; eassumption | assumption].
      * right. right. split; [eapply econn_trans; eassumption | assumption].
      * right. left. split; [assumption | eapply econn_trans; eassumption].
      * right. left. split; assumption.
      * left. eapply econn_trans; eassumption.
      * right. right. split; [assumption | eapply econn_trans; eassumption].
      * left. eapply econn_trans; eassumption.
      * right. right. split; assumption.
    + intros x y [Heq | Hin].
      * inversion Heq; subst. right. left. split; apply econn_refl.
      * left. apply econn_edge, Hin.
  - assert (Hsub : forall u v, econn E u v -> econn ((a, b) :: E) u v).
    { apply econn_incl. intros e He. right. exact He. }
    assert (Hab : econn ((a, b) :: E) a b).
    { apply econn_edge. left. reflexivity. }
    intros [Hxy | [[Hxa Hby] | [Hxb Hay]]].
    + apply Hsub, Hxy.
    + eapply econn_trans; [apply Hsub, Hxa |].
      eapply econn_trans; [exact Hab | apply Hsub, Hby].
    + eapply econn_trans; [apply Hsub, Hxb |].
      eapply econn_trans; [apply econn_sym, Hab | apply Hsub, Hay].
Qed.

Lemma tracks_init : tracks [] (fun x : A => x).
Proof.
  split; [reflexivity |].
  intros x y. split.
  - intros ->. apply econn_refl.
  - revert x y. apply econn_lift; try congruence. intros x y [].
Qed.

Lemma tracks_join E f e : tracks E f -> tracks (e :: E) (join before f e).
Proof.
  intros [Hidem Hconn]. destruct e as [a b]. unfold join. cbn [fst snd].
  destruct (decide (f a = f b)) as [Hab | Hab].
  - split; [exact Hidem |].
    intros x y. rewrite econn_cons, <- !Hconn.
    split; [auto |]. intros [? | [[? ?] | [? ?]]]; congruence.
  - set (lo := if before (f a) (f b) then f a else f b).
    set (hi := if before (f a) (f b) then f b else f a).
    assert (Hlh : lo <> hi) by (subst lo hi; destruct before; congruence).
    assert (Hlo : f lo = lo) by (subst lo; destruct before; apply Hidem).
    assert (Hcases : (lo = f a /\ hi = f b) \/ (lo = f b /\ hi = f a))
      by (subst lo hi; destruct before; auto).
    split.
    + intros x. destruct (decide (f x = hi)) as [Hx | Hx].
      * rewrite Hlo. destruct (decide (lo = hi)); congruence.
      * rewrite Hidem. destruct (decide (f x = hi)); congruence.
    + intros x y. rewrite econn_cons, <- !Hconn.
      destruct (decide (f x = hi)) as [Hx | Hx];
        destruct (decide (f y = hi)) as [Hy | Hy];
        destruct Hcases as [[Hl Hh] | [Hl Hh]];
        (split; [intros Heq | intros [? | [[? ?] | [? ?]]]]);
        try congruence; try tauto.
      all: try (right; left; split; congruence).
      all: try (right; right; split; congruence).
      all: try (left; congruence).
  Qed.

Lemma tracks_fold E E0 f :
  tracks E0 f -> tracks (rev E ++ E0) (fold_left (join before) E f).
Proof.
  revert E0 f. induction E as [| e E IH]; intros E0 f Hf; [exact Hf |].
  cbn [fold_left rev]. rewrite <- app_assoc. cbn [app].
  apply IH, tracks_join, Hf.
Qed.

Lemma propagate_tracks E : tracks E (propagate before E).
Proof.
  destruct (tracks_fold E [] (fun x => x) tracks_init) as [Hidem Hconn].
  split; [exact Hidem |].
  intros x y. rewrite (Hconn x y). rewrite app_nil_r.
  split; apply econn_incl; intros e; rewrite <- in_rev; auto.
Qed.

Lemma propagate_idem E x :
  propagate before E (propagate before E x) = propagate before E x.
Proof. destruct (propagate_tracks E) as [Hidem _]. apply Hidem. Qed.

Lemma propagate_econn E x y :
  propagate before E x = propagate before E y <-> econn E x y.
Proof. destruct (propagate_tracks E) as [_ Hconn]. apply Hconn. Qed.

Lemma propagate_self E x : econn E x (propagate before E x).
Proof. apply propagate_econn. symmetry. apply propagate_idem. Qed.

(** With a total order, the label of a node is the least node of its
    class. *)
Hypothesis before_refl : forall x, before x x = true.
Hypothesis before_trans :
  forall x y z, before x y = true -> before y z = true -> before x z = true.
Hypothesis before_total : forall x y, before x y = true \/ before y x = true.

Lemma join_below f e :
  (forall x, before (f x) x = true) ->
  forall x, before (join before f e x) x = true.
Proof.
  intros Hf x. unfold join.
  destruct (decide (f e.1 = f e.2)); [apply Hf |].
  destruct (decide (f x = _)) as [Hx | Hx]; [| apply Hf].
  apply before_trans with (y := f x); [| apply Hf]. rewrite Hx.
  destruct (before (f e.1) (f e.2)) eqn:Hle; [exact Hle |].
  destruct (before_total (f e.1) (f e.2)); congruence.
Qed.

Lemma propagate_below E x : before (propagate before E x) x = true.
Proof.
  unfold propagate.
  assert (Hgen : forall f, (forall y, before (f y) y = true) ->
                 before (fold_left (join before) E f x) x = true).
  { induction E as [| e E IH]; intros f Hf; [apply Hf |].
    cbn [fold_left]. apply IH, join_below, Hf. }
  apply Hgen, before_refl.
Qed.

Lemma propagate_least E x y :
  econn E x y -> before (propagate before E x) y = true.
Proof.
  intros Hxy. apply propagate_econn in Hxy.
  rewrite Hxy. apply propagate_below.
Qed.
End PropagationFacts.

(** ** Rasters and their regions *)

Lemma neighbours_sym p q : neighbours p q -> neighbours q p.
Proof. unfold neighbours. intros H. intuition auto. Qed.

Lemma neighbourhood_spec p q : neighbours p q <-> In q (neighbourhood p).
Proof.
  destruct p as [r c], q as [r' c']. unfold neighbours, neighbourhood.
  cbn [fst snd]. destruct c, r; cbn [In app];
    repeat setoid_rewrite pair_equal_spec; lia.
Qed.

Lemma is_rect_row m r :
  is_rect m = true -> (r < height m)%nat -> length (nth r m []) = width m.
Proof.
  unfold is_rect. rewrite forallb_forall. intros Hrect Hr.
  apply Nat.eqb_eq, Hrect, nth_In, Hr.
Qed.

Lemma pix_outside m p :
  is_rect m = true ->
  (height m <= fst p)%nat \/ (width m <= snd p)%nat -> pix m p = 0.
Proof.
  intros Hrect Hout. unfold pix.
  destruct (Nat.lt_ge_cases (fst p) (height m)) as [Hr | Hr].
  - destruct Hout as [Hout | Hout]; [unfold height in *; lia |].
    apply nth_overflow. rewrite is_rect_row by assumption. exact Hout.
  - rewrite (nth_overflow m) by exact Hr. destruct (snd p); reflexivity.
Qed.

Lemma in_pixels m p :
  In p (pixels m) <-> (fst p < height m)%nat /\ (snd p < width m)%nat.
Proof.
  destruct p as [r c]. unfold pixels. rewrite in_prod_iff, !in_seq.
  cbn [fst snd]. lia.
Qed.

Lemma fg_in_pixels m p : is_rect m = true -> fg m p = true -> In p (pixels m).
Proof.
  intros Hrect Hfg. apply in_pixels.
  destruct (Nat.lt_ge_cases (fst p) (height m)) as [Hr | Hr];
    [destruct (Nat.lt_ge_cases (snd p) (width m)) as [Hc | Hc]; [auto |] |].
  all: unfold fg in Hfg; rewrite pix_outside in Hfg by auto; discriminate.
Qed.

Lemma NoDup_pixels m : NoDup (pixels m).
Proof.
  unfold pixels. generalize (seq 0 (width m)) (NoDup_seq 0 (width m)).
  generalize (seq 0 (height m)) (NoDup_seq 0 (height m)).
  intros rows Hrows cols Hcols.
  induction Hrows as [| r rows Hr _ IH]; cbn [list_prod]; [constructor |].
  apply NoDup_app. split; [| split].
  - apply NoDup_fmap_2_strong; [| exact Hcols]. intros c c' _ _ Heq. congruence.
  - intros [r' c'] Hin1 Hin2.
    apply list_elem_of_In, in_map_iff in Hin1 as (c0 & Heq & _).
    apply list_elem_of_In, in_prod_iff in Hin2 as [Hin2 _].
    inversion Heq; subst. apply Hr, list_elem_of_In, Hin2.
  - exact IH.
Qed.

Lemma joined_fg m p q :
  joined m p q = true -> fg m p = true /\ fg m q = true /\ pix m p = pix m q.
Proof.
  unfold joined, fg. intros H.
  apply andb_true_iff in H as [Hp Heq]. apply Z.eqb_eq in Heq.
  rewrite <- Heq. auto.
Qed.

Lemma joined_sym m p q : joined m p q = true -> joined m q p = true.
Proof.
  intros H. apply joined_fg in H as (Hp & Hq & Heq).
  unfold joined. rewrite Hq, Heq, Z.eqb_refl. reflexivity.
Qed.

Lemma adj_sym m p q : adj m p q -> adj m q p.
Proof. intros [Hn Hj]. split; [apply neighbours_sym, Hn | apply joined_sym, Hj]. Qed.

Lemma in_edges m p q :
  In (p, q) (edges m) <->
  In p (pixels m) /\ joined m p q = true /\
  (q = (fst p, S (snd p)) \/ q = (S (fst p), snd p)).
Proof.
  unfold edges. rewrite in_flat_map. split.
  - intros (p0 & Hin & He). unfold edges_at in He.
    apply in_app_or in He as [He | He].
    + destruct (joined m p0 (fst p0, S (snd p0))) eqn:Hj; [| destruct He].
      destruct He as [Heq | []]. inversion Heq; subst. auto.
    + destruct (joined m p0 (S (fst p0), snd p0)) eqn:Hj; [| destruct He].
      destruct He as [Heq | []]. inversion Heq; subst. auto.
  - intros (Hin & Hj & [-> | ->]); exists p; (split; [exact Hin |]);
      unfold edges_at; rewrite Hj; apply in_or_app; [left | right]; left;
      reflexivity.
Qed.

Lemma edge_adj m p q : In (p, q) (edges m) -> adj m p q.
Proof.
  rewrite in_edges. intros (_ & Hj & Hq). split; [| exact Hj].
  unfold neighbours. destruct Hq as [-> | ->]; cbn [fst snd]; auto.
Qed.

Lemma adj_edge m p q :
  is_rect m = true -> adj m p q -> In (p, q) (edges m) \/ In (q, p) (edges m).
Proof.
  intros Hrect [Hn Hj]. pose proof (joined_fg _ _ _ Hj) as (Hp & Hq & _).
  pose proof (joined_sym _ _ _ Hj) as Hj'.
  rewrite !in_edges. destruct p as [r c], q as [r' c'].
  unfold neighbours in Hn. cbn [fst snd] in *.
  destruct Hn as [[<- [-> | ->]] | [<- [-> | ->]]].
  - left. auto using fg_in_pixels.
  - right. auto using fg_in_pixels.
  - left. auto using fg_in_pixels.
  - right. auto using fg_in_pixels.
Qed.

Lemma region_lift m (R : relation pixel) :
  (forall x, R x x) ->
  (forall x y, R x y -> R y x) ->
  (forall x y z, R x y -> R y z -> R x z) ->
  (forall x y, adj m x y -> R x y) ->
  forall x y, region m x y -> R x y.
Proof.
  intros Hr Hs Ht He x y Hc.
  induction Hc as [x y Hxy | x | x y _ IH | x y z _ IH1 _ IH2].
  - apply He, Hxy.
  - apply Hr.
  - apply Hs, IH.
  - eapply Ht; [exact IH1 | exact IH2].
Qed.

Lemma region_econn m p q :
  is_rect m = true -> region m p q <-> econn (edges m) p q.
Proof.
  intros Hrect. split.
  - revert p q. apply region_lift.
    + apply econn_refl.
    + apply econn_sym.
    + apply econn_trans.
    + intros x y Hadj. destruct (adj_edge m x y Hrect Hadj) as [H | H].
      * apply econn_edge, H.
      * apply econn_sym, econn_edge, H.
  - revert p q. apply econn_lift.
    + intros x. apply rst_refl.
    + intros x y. apply rst_sym.
    + intros x y z. apply rst_trans.
    + intros x y Hin. apply rst_step, edge_adj, Hin.
Qed.

(** Pixels of one region hold the same value. *)
Lemma region_pix m p q : region m p q -> pix m p = pix m q.
Proof.
  revert p q. apply region_lift; try congruence.
  intros x y [_ Hj]. apply joined_fg in Hj. tauto.
Qed.

Lemma region_fg m p q : region m p q -> fg m p = fg m q.
Proof. intros H. unfold fg. rewrite (region_pix m p q H). reflexivity. Qed.

Lemma rep_idem m p : rep m (rep m p) = rep m p.
Proof. apply propagate_idem. Qed.

Lemma rep_region m p q :
  is_rect m = true -> rep m p = rep m q <-> region m p q.
Proof.
  intros Hrect. rewrite region_econn by exact Hrect. apply propagate_econn.
Qed.

Lemma region_rep m p : is_rect m = true -> region m p (rep m p).
Proof. intros Hrect. apply rep_region; [exact Hrect |]. symmetry. apply rep_idem. Qed.

Lemma in_reps m p :
  In p (reps m) <-> In p (pixels m) /\ fg m p = true /\ rep m p = p.
Proof.
  unfold reps. rewrite <- !list_elem_of_In, list_elem_of_filter. tauto.
Qed.

Lemma NoDup_reps m : NoDup (reps m).
Proof. apply NoDup_filter, NoDup_pixels. Qed.

Lemma rep_in_reps m p :
  is_rect m = true -> fg m p = true -> In (rep m p) (reps m).
Proof.
  intros Hrect Hfg.
  assert (Hfg' : fg m (rep m p) = true).
  { rewrite <- (region_fg m p) by (apply region_rep, Hrect). exact Hfg. }
  apply in_reps. split; [| split].
  - apply fg_in_pixels; assumption.
  - exact Hfg'.
  - apply rep_idem.
Qed.

(** The representative of a region is its first pixel in raster order. *)
Lemma raster_le_refl p : raster_le p p = true.
Proof.
  unfold raster_le. rewrite Nat.eqb_refl, Nat.leb_refl. apply orb_true_r.
Qed.

Lemma raster_le_spec p q :
  raster_le p q = true <->
  (fst p < fst q)%nat \/ (fst p = fst q /\ (snd p <= snd q)%nat).
Proof.
  unfold raster_le.
  rewrite orb_true_iff, andb_true_iff, Nat.ltb_lt, Nat.eqb_eq, Nat.leb_le.
  reflexivity.
Qed.

Lemma rep_least m p q :
  is_rect m = true -> region m p q -> raster_le (rep m p) q = true.
Proof.
  intros Hrect Hreg. apply region_econn in Hreg; [| exact Hrect].
  unfold rep. apply propagate_least; [| | | exact Hreg].
  - apply raster_le_refl.
  - intros x y z. rewrite !raster_le_spec. lia.
  - intros x y. rewrite !raster_le_spec. lia.
Qed.

(** The labels of the foreground pixels run from 1 to the number of
    regions, and two foreground pixels have the same label exactly when
    they are in one region. *)
Lemma index_of_lt p l : In p l -> (index_of p l < length l)%nat.
Proof.
  induction l as [| q l IH]; intros Hin; [destruct Hin |].
  cbn. destruct (decide (p = q)); [lia |].
  destruct Hin as [-> | Hin]; [congruence |]. specialize (IH Hin). lia.
Qed.

Lemma index_of_inj p q l :
  In p l -> In q l -> index_of p l = index_of q l -> p = q.
Proof.
  induction l as [| x l IH]; intros Hp Hq; [destruct Hp |].
  cbn. destruct (decide (p = x)) as [-> | Hpx], (decide (q = x)) as [-> | Hqx];
    try congruence; try discriminate.
  intros Heq. injection Heq as Heq.
  destruct Hp as [-> | Hp]; [congruence |].
  destruct Hq as [-> | Hq]; [congruence |]. auto.
Qed.

Lemma label_at_background m p : fg m p = false -> label_at m p = 0%nat.
Proof. unfold label_at. intros ->. reflexivity. Qed.

Lemma label_at_range m p :
  is_rect m = true -> fg m p = true ->
  (1 <= label_at m p <= ncomponents m)%nat.
Proof.
  intros Hrect Hfg. unfold label_at, ncomponents, extract_mask_connected_components.
  rewrite Hfg. cbn [snd].
  pose proof (index_of_lt _ _ (rep_in_reps m p Hrect Hfg)). lia.
Qed.

Lemma label_at_region m p q :
  is_rect m = true -> fg m p = true -> fg m q = true ->
  label_at m p = label_at m q <-> region m p q.
Proof.
  intros Hrect Hp Hq. unfold label_at. rewrite Hp, Hq.
  rewrite <- rep_region by exact Hrect. split.
  - intros Heq. injection Heq as Heq.
    eapply index_of_inj; [| | exact Heq]; apply rep_in_reps; assumption.
  - intros ->. reflexivity.
Qed.

(** ** Merging masks *)

Lemma is_binary_Forall m : is_binary m = true <-> Forall (Forall bit) m.
Proof.
  unfold is_binary. rewrite forallb_forall, Forall_forall.
  setoid_rewrite forallb_forall. setoid_rewrite Forall_forall.
  setoid_rewrite <- list_elem_of_In. unfold bit.
  split; intros H r Hr z Hz; specialize (H r Hr z Hz); lia.
Qed.

Lemma binary_pix m p : is_binary m = true -> bit (pix m p).
Proof.
  rewrite is_binary_Forall, Forall_forall. setoid_rewrite Forall_forall.
  intros H. unfold pix.
  destruct (Nat.lt_ge_cases (fst p) (length m)) as [Hr | Hr].
  - destruct (Nat.lt_ge_cases (snd p) (length (nth (fst p) m []))) as [Hc | Hc].
    + apply (H (nth (fst p) m [])); apply list_elem_of_In, nth_In; assumption.
    + left. apply nth_overflow, Hc.
  - left. rewrite (nth_overflow m) by exact Hr. destruct (snd p); reflexivity.
Qed.

Lemma nonneg_pix m p : is_nonneg m = true -> 0 <= pix m p.
Proof.
  unfold is_nonneg. rewrite forallb_forall. setoid_rewrite forallb_forall.
  intros H. unfold pix.
  destruct (Nat.lt_ge_cases (fst p) (length m)) as [Hr | Hr].
  - destruct (Nat.lt_ge_cases (snd p) (length (nth (fst p) m []))) as [Hc | Hc].
    + apply Z.leb_le, (H (nth (fst p) m [])); apply nth_In; assumption.
    + rewrite nth_overflow by exact Hc. lia.
  - rewrite (nth_overflow m) by exact Hr. destruct (snd p); cbn; lia.
Qed.

Lemma binary_nonneg m : is_binary m = true -> is_nonneg m = true.
Proof.
  unfold is_binary, is_nonneg. rewrite !forallb_forall.
  setoid_rewrite forallb_forall. intros H r Hr z Hz.
  specialize (H r Hr z Hz). lia.
Qed.

Lemma nth_zip_with {X Y T} (f : X -> Y -> T) l1 l2 i d d1 d2 :
  (i < length l1)%nat -> (i < length l2)%nat ->
  nth i (zip_with f l1 l2) d = f (nth i l1 d1) (nth i l2 d2).
Proof.
  revert l2 i. induction l1 as [| x l1 IH]; intros [| y l2] [| i]; cbn;
    intros H1 H2; try lia; [reflexivity |].
  apply IH; lia.
Qed.

Section Merged.
Variables a b : mask.
Hypothesis rect_a : is_rect a = true.
Hypothesis rect_b : is_rect b = true.
Hypothesis shape_ab : same_shape a b = true.

Lemma shape_ab_eq : height a = height b /\ width a = width b.
Proof.
  unfold same_shape in shape_ab.
  apply andb_true_iff in shape_ab as [Hh Hw].
  apply Nat.eqb_eq in Hh, Hw. auto.
Qed.

Lemma height_merge : height (merge_masks a b) = height a.
Proof.
  destruct shape_ab_eq as [Hh _]. unfold merge_masks, height in *.
  rewrite length_zip_with. lia.
Qed.

Lemma width_merge : width (merge_masks a b) = width a.
Proof.
  destruct shape_ab_eq as [Hh Hw]. unfold merge_masks, height, width in *.
  destruct a as [| ra a']; destruct b as [| rb b']; cbn in *; try lia.
  rewrite length_zip_with. lia.
Qed.

Lemma pixels_merge : pixels (merge_masks a b) = pixels a.
Proof. unfold pixels. rewrite height_merge, width_merge. reflexivity. Qed.

Lemma pix_merge p : pix (merge_masks a b) p = clip (pix a p + pix b p).
Proof.
  destruct shape_ab_eq as [Hh Hw].
  destruct (Nat.lt_ge_cases (fst p) (height a)) as [Hr | Hr];
    [destruct (Nat.lt_ge_cases (snd p) (width a)) as [Hc | Hc] |].
  - unfold pix, merge_masks.
    rewrite (nth_zip_with _ a b (fst p) [] [] [])
      by (unfold height in *; lia).
    apply (nth_zip_with (fun x y => clip (x + y)));
      rewrite is_rect_row; lia || assumption.
  - rewrite (pix_outside a), (pix_outside b) by (auto; right; lia).
    unfold pix, merge_masks.
    rewrite (nth_zip_with _ a b (fst p) [] [] [])
      by (unfold height in *; lia).
    apply nth_overflow. rewrite length_zip_with, !is_rect_row; lia || assumption.
  - rewrite (pix_outside a), (pix_outside b) by (auto; left; lia).
    unfold pix, merge_masks. rewrite (nth_overflow (zip_with _ _ _)).
    + destruct (snd p); reflexivity.
    + rewrite length_zip_with. unfold height in *. lia.
Qed.

Lemma is_rect_merge : is_rect (merge_masks a b) = true.
Proof.
  unfold is_rect. apply forallb_forall. intros r Hr.
  apply Nat.eqb_eq. apply In_nth with (d := []) in Hr as (i & Hi & <-).
  fold (height (merge_masks a b)) in Hi. rewrite height_merge in Hi.
  destruct shape_ab_eq as [Hh Hw].
  unfold merge_masks at 1.
  rewrite (nth_zip_with _ a b i [] [] []) by (unfold height in *; lia).
  rewrite length_zip_with, !is_rect_row, width_merge; lia || assumption.
Qed.

Hypothesis nonneg_a : is_nonneg a = true.
Hypothesis nonneg_b : is_nonneg b = true.

Lemma fg_merge p : fg (merge_masks a b) p = fg a p || fg b p.
Proof.
  unfold fg, clip. rewrite pix_merge. unfold clip.
  pose proof (nonneg_pix a p nonneg_a). pose proof (nonneg_pix b p nonneg_b).
  destruct (pix a p + pix b p >? 1) eqn:Hgt, (pix a p =? 0) eqn:Ha,
           (pix b p =? 0) eqn:Hb; cbn; reflexivity || lia.
Qed.

Lemma fg_bit m p : is_binary m = true -> fg m p = true -> pix m p = 1.
Proof.
  intros Hm. unfold fg. destruct (binary_pix m p Hm) as [-> | ->];
    [discriminate | reflexivity].
Qed.

Lemma merge_bit p : fg (merge_masks a b) p = true -> pix (merge_masks a b) p = 1.
Proof.
  unfold fg. rewrite pix_merge. unfold clip.
  pose proof (nonneg_pix a p nonneg_a). pose proof (nonneg_pix b p nonneg_b).
  destruct (pix a p + pix b p >? 1) eqn:Hgt; [reflexivity |].
  rewrite negb_true_iff, Z.eqb_neq. lia.
Qed.

Lemma joined_merge p q :
  joined (merge_masks a b) p q =
  (fg a p || fg b p) && (fg a q || fg b q).
Proof.
  unfold joined. rewrite fg_merge.
  destruct (fg a p || fg b p) eqn:Hp; cbn [andb]; [| reflexivity].
  rewrite (merge_bit p) by (rewrite fg_merge; exact Hp).
  destruct (fg a q || fg b q) eqn:Hq.
  - rewrite (merge_bit q) by (rewrite fg_merge; exact Hq). reflexivity.
  - rewrite <- fg_merge in Hq. unfold fg in Hq.
    apply negb_false_iff, Z.eqb_eq in Hq. rewrite Hq. reflexivity.
Qed.

Lemma adj_merge_l p q : adj a p q -> adj (merge_masks a b) p q.
Proof.
  intros [Hn Hj]. split; [exact Hn |].
  apply joined_fg in Hj as (Hp & Hq & _).
  rewrite joined_merge, Hp, Hq. reflexivity.
Qed.

Lemma adj_merge_r p q : adj b p q -> adj (merge_masks a b) p q.
Proof.
  intros [Hn Hj]. split; [exact Hn |].
  apply joined_fg in Hj as (Hp & Hq & _).
  rewrite joined_merge, Hp, Hq, !orb_true_r. reflexivity.
Qed.

Lemma region_merge_l p q : region a p q -> region (merge_masks a b) p q.
Proof.
  revert p q. apply region_lift.
  - intros x. apply rst_refl.
  - intros x y. apply rst_sym.
  - intros x y z. apply rst_trans.
  - intros x y Hadj. apply rst_step, adj_merge_l, Hadj.
Qed.

Lemma region_merge_r p q : region b p q -> region (merge_masks a b) p q.
Proof.
  revert p q. apply region_lift.
  - intros x. apply rst_refl.
  - intros x y. apply rst_sym.
  - intros x y z. apply rst_trans.
  - intros x y Hadj. apply rst_step, adj_merge_r, Hadj.
Qed.
End Merged.

(** ** Counting regions *)

Lemma inj_length {X Y} (f : X -> Y) (l : list X) (k : list Y) :
  NoDup l ->
  (forall x y, In x l -> In y l -> f x = f y -> x = y) ->
  (forall x, In x l -> In (f x) k) ->
  (length l <= length k)%nat.
Proof.
  intros Hnd Hinj Hin. rewrite <- (length_fmap f l).
  apply submseteq_length, NoDup_submseteq.
  - apply NoDup_fmap_2_strong; [| exact Hnd].
    intros x y Hx Hy. apply Hinj; apply list_elem_of_In; assumption.
  - intros y Hy. apply list_elem_of_fmap in Hy as (x & -> & Hx).
    apply list_elem_of_In, Hin, list_elem_of_In, Hx.
Qed.

Lemma region_cases m p q :
  region m p q -> p = q \/ (fg m p = true /\ fg m q = true).
Proof.
  revert p q. apply region_lift.
  - auto.
  - intros x y [-> | [? ?]]; auto.
  - intros x y z [-> | [? ?]] [-> | [? ?]]; auto.
  - intros x y [_ Hj]. apply joined_fg in Hj. tauto.
Qed.

Lemma disjoint_masks_spec a b p :
  is_rect a = true -> disjoint_masks a b = true ->
  fg a p = true -> fg b p = true -> False.
Proof.
  unfold disjoint_masks. rewrite forallb_forall. intros Hrect H Ha Hb.
  specialize (H p (fg_in_pixels a p Hrect Ha)). rewrite Ha, Hb in H.
  discriminate.
Qed.

Lemma apart_masks_spec a b p q :
  is_rect a = true -> apart_masks a b = true ->
  neighbours p q -> fg a p = true -> fg b q = true -> False.
Proof.
  unfold apart_masks. rewrite forallb_forall. intros Hrect H Hn Ha Hb.
  specialize (H p (fg_in_pixels a p Hrect Ha)). rewrite Ha in H.
  cbn [negb orb] in H. rewrite forallb_forall in H.
  apply neighbourhood_spec in Hn. specialize (H q Hn). rewrite Hb in H.
  discriminate.
Qed.

Section Counting.
Variables a b : mask.
Hypothesis rect_a : is_rect a = true.
Hypothesis rect_b : is_rect b = true.
Hypothesis shape_ab : same_shape a b = true.
Hypothesis nonneg_a : is_nonneg a = true.
Hypothesis nonneg_b : is_nonneg b = true.

Let rect_u := is_rect_merge a b rect_a rect_b shape_ab.

Lemma reps_merge_share m l :
  is_rect m = true ->
  (forall p q, region m p q -> region (merge_masks a b) p q) ->
  (forall p, In p l -> In p (reps (merge_masks a b)) /\ fg m p = true) ->
  NoDup l ->
  (length l <= length (reps m))%nat.
Proof.
  intros Hrect Hsub Hl Hnd. apply (inj_length (rep m)); [exact Hnd | |].
  - intros x y Hx Hy Heq.
    apply rep_region in Heq; [| exact Hrect]. apply Hsub in Heq.
    apply rep_region in Heq; [| exact rect_u].
    destruct (Hl x Hx) as [Hxu _], (Hl y Hy) as [Hyu _].
    apply in_reps in Hxu as (_ & _ & Hxr), Hyu as (_ & _ & Hyr).
    congruence.
  - intros x Hx. apply rep_in_reps; [exact Hrect | apply Hl, Hx].
Qed.

(** Merging never creates regions: every region of the merged mask
    holds a whole region of one of the two masks. *)
Lemma ncomponents_merge_le :
  (ncomponents (merge_masks a b) <= ncomponents a + ncomponents b)%nat.
Proof.
  unfold ncomponents, extract_mask_connected_components. cbn [snd].
  set (u := merge_masks a b).
  pose proof (filter_app_complement (fun p => fg a p = true) (reps u)) as Hperm.
  apply Permutation_length in Hperm. rewrite length_app in Hperm.
  rewrite <- Hperm. apply Nat.add_le_mono.
  - apply reps_merge_share; [exact rect_a | | |].
    + intros p q. apply region_merge_l; assumption.
    + intros p Hp. apply list_elem_of_In, list_elem_of_filter in Hp as [Hfg Hp].
      split; [apply list_elem_of_In, Hp | exact Hfg].
    + apply NoDup_filter, NoDup_reps.
  - apply reps_merge_share; [exact rect_b | | |].
    + intros p q. apply region_merge_r; assumption.
    + intros p Hp. apply list_elem_of_In, list_elem_of_filter in Hp as [Hfg Hp].
      apply list_elem_of_In in Hp. split; [exact Hp |].
      apply in_reps in Hp as (_ & Hu & _). subst u.
      rewrite fg_merge in Hu by assumption.
      destruct (fg a p); [contradiction Hfg; reflexivity | exact Hu].
    + apply NoDup_filter, NoDup_reps.
Qed.

Hypothesis binary_a : is_binary a = true.
Hypothesis binary_b : is_binary b = true.
Hypothesis disjoint_ab : disjoint_masks a b = true.
Hypothesis apart_ab : apart_masks a b = true.

Lemma adj_merge_inv p q :
  adj (merge_masks a b) p q -> adj a p q \/ adj b p q.
Proof.
  intros [Hn Hj]. rewrite joined_merge in Hj by assumption.
  apply andb_true_iff in Hj as [Hp Hq].
  apply orb_true_iff in Hp as [Hp | Hp]; apply orb_true_iff in Hq as [Hq | Hq].
  - left. split; [exact Hn |]. unfold joined.
    rewrite Hp, !fg_bit by assumption. reflexivity.
  - exfalso. exact (apart_masks_spec a b p q rect_a apart_ab Hn Hp Hq).
  - exfalso. apply neighbours_sym in Hn.
    exact (apart_masks_spec a b q p rect_a apart_ab Hn Hq Hp).
  - right. split; [exact Hn |]. unfold joined.
    rewrite Hp, !fg_bit by assumption. reflexivity.
Qed.

Lemma region_merge_inv p q :
  region (merge_masks a b) p q -> region a p q \/ region b p q.
Proof.
  revert p q. apply region_lift.
  - intros x. left. apply rst_refl.
  - intros x y [H | H]; [left | right]; apply rst_sym, H.
  - intros x y z [Hxy | Hxy] [Hyz | Hyz].
    + left. eapply rst_trans; eassumption.
    + destruct (region_cases _ _ _ Hxy) as [-> | [_ Hya]]; [right; exact Hyz |].
      destruct (region_cases _ _ _ Hyz) as [<- | [Hyb _]]; [left; exact Hxy |].
      exfalso. exact (disjoint_masks_spec a b y rect_a disjoint_ab Hya Hyb).
    + destruct (region_cases _ _ _ Hxy) as [-> | [_ Hyb]]; [left; exact Hyz |].
      destruct (region_cases _ _ _ Hyz) as [<- | [Hya _]]; [right; exact Hxy |].
      exfalso. exact (disjoint_masks_spec a b y rect_a disjoint_ab Hya Hyb).
    + right. eapply rst_trans; eassumption.
  - intros x y Hadj. destruct (adj_merge_inv x y Hadj) as [H | H];
      [left | right]; apply rst_step, H.
Qed.

(** Masks that neither overlap nor touch keep all their regions. *)
Lemma ncomponents_merge_apart :
  ncomponents (merge_masks a b) = (ncomponents a + ncomponents b)%nat.
Proof.
  apply Nat.le_antisymm; [apply ncomponents_merge_le |].
  unfold ncomponents, extract_mask_connected_components. cbn [snd].
  rewrite <- length_app.
  assert (Hfg : forall x, In x (reps a ++ reps b) ->
                (In x (reps a) /\ fg a x = true /\ rep a x = x) \/
                (In x (reps b) /\ fg b x = true /\ rep b x = x)).
  { intros x Hx. apply in_app_or in Hx as [Hx | Hx]; [left | right];
      (split; [exact Hx |]); apply in_reps in Hx; tauto. }
  apply (inj_length (rep (merge_masks a b))).
  - apply NoDup_app. split; [apply NoDup_reps | split; [| apply NoDup_reps]].
    intros x Hxa Hxb. apply list_elem_of_In, in_reps in Hxa as (_ & Ha & _).
    apply list_elem_of_In, in_reps in Hxb as (_ & Hb & _).
    exact (disjoint_masks_spec a b x rect_a disjoint_ab Ha Hb).
  - intros x y Hx Hy Heq. apply rep_region in Heq; [| exact rect_u].
    assert (Hno : forall z, fg a z = true -> fg b z = true -> False)
      by (intros z; apply disjoint_masks_spec; assumption).
    destruct (region_merge_inv x y Heq) as [Hreg | Hreg];
      pose proof (region_cases _ _ _ Hreg) as [Hxy | [Hfx Hfy]];
      try exact Hxy;
      destruct (Hfg x Hx) as [(_ & Hx1 & Hx2) | (_ & Hx1 & Hx2)];
      destruct (Hfg y Hy) as [(_ & Hy1 & Hy2) | (_ & Hy1 & Hy2)];
      try (exfalso; eauto; fail).
    + apply rep_region in Hreg; [congruence | exact rect_a].
    + apply rep_region in Hreg; [congruence | exact rect_b].
  - intros x Hx. apply rep_in_reps; [exact rect_u |].
    rewrite fg_merge by assumption.
    destruct (Hfg x Hx) as [(_ & -> & _) | (_ & -> & _)];
      [reflexivity | apply orb_true_r].
Qed.
End Counting.

(** ** The touching test *)

(** C4: for masks of one shape (boolean masks, or ground truth masks of
    class ids), [are_mask_connected] answers true exactly when the merged
    mask has strictly fewer regions than the two masks together; equal
    counts give "not connected"; and 0/1 masks that neither overlap nor
    touch are not connected and keep all their regions in the merged
    mask. *)
Theorem are_mask_connected_iff_fewer (a b : mask) :
  is_rect a = true -> is_rect b = true -> same_shape a b = true ->
  is_nonneg a = true -> is_nonneg b = true ->
  (are_mask_connected a b = true <->
   (ncomponents (merge_masks a b) < ncomponents a + ncomponents b)%nat) /\
  (ncomponents (merge_masks a b) = (ncomponents a + ncomponents b)%nat ->
   are_mask_connected a b = false) /\
  (is_binary a = true -> is_binary b = true ->
   disjoint_masks a b = true -> apart_masks a b = true ->
   are_mask_connected a b = false /\
   ncomponents (merge_masks a b) = (ncomponents a + ncomponents b)%nat).
Proof.
  intros Hra Hrb Hs Hna Hnb.
  pose proof (ncomponents_merge_le a b Hra Hrb Hs Hna Hnb) as Hle.
  assert (Hdef : are_mask_connected a b =
                 negb (ncomponents (merge_masks a b) =?
                       ncomponents a + ncomponents b)%nat).
  { unfold are_mask_connected, ncomponents, extract_mask_connected_components.
    cbn [snd]. destruct (_ =? _)%nat; reflexivity. }
  split; [| split].
  - rewrite Hdef, negb_true_iff, Nat.eqb_neq. lia.
  - intros Heq. rewrite Hdef, negb_false_iff. apply Nat.eqb_eq, Heq.
  - intros Hba Hbb Hd Hap.
    pose proof (ncomponents_merge_apart a b Hra Hrb Hs Hna Hnb Hba Hbb Hd Hap)
      as Heq.
    split; [| exact Heq].
    rewrite Hdef, negb_false_iff. apply Nat.eqb_eq, Heq.
Qed.

Lemma are_mask_connected_iff_fewer_witness :
  are_mask_connected [[1; 0; 0]; [1; 0; 0]] [[0; 0; 1]; [0; 0; 0]] = false /\
  ncomponents (merge_masks [[1; 0; 0]; [1; 0; 0]] [[0; 0; 1]; [0; 0; 0]]) =
  Nat.add (ncomponents [[1; 0; 0]; [1; 0; 0]]) (ncomponents [[0; 0; 1]; [0; 0; 0]]).
Proof.
  apply (are_mask_connected_iff_fewer
           [[1; 0; 0]; [1; 0; 0]] [[0; 0; 1]; [0; 0; 0]]); reflexivity.
Defined.

(** Masks that share a pixel or have neighbouring pixels are connected. *)
Example are_mask_connected_overlap :
  are_mask_connected [[1; 1; 0]] [[0; 1; 1]] = true /\
  are_mask_connected [[1; 0]; [0; 0]] [[0; 0]; [1; 0]] = true /\
  are_mask_connected [[1; 0]; [0; 0]] [[0; 0]; [0; 1]] = false.
Proof. vm_compute. auto. Qed.

(** On a ground truth mask with two classes side by side the test
    answers "connected" for a far mask: only 0/1 masks that are apart keep
    all their regions. *)
Example are_mask_connected_two_classes :
  are_mask_connected [[1; 2; 0; 0]] [[0; 0; 0; 1]] = true /\
  apart_masks [[1; 2; 0; 0]] [[0; 0; 0; 1]] = true /\
  disjoint_masks [[1; 2; 0; 0]] [[0; 0; 0; 1]] = true.
Proof. vm_compute. auto. Qed.

(** ** Merging is order independent *)

Lemma zip_with_comm {X T} (f : X -> X -> T) (l k : list X) :
  (forall x y, f x y = f y x) -> zip_with f l k = zip_with f k l.
Proof.
  intros Hf. revert k. induction l as [| x l IH]; intros [| y k]; cbn;
    [reflexivity .. |]. rewrite Hf, IH. reflexivity.
Qed.

Lemma zip_with_assoc_on {X} (P : X -> Prop) (f : X -> X -> X) :
  (forall x y z, P x -> P y -> P z -> f (f x y) z = f x (f y z)) ->
  forall l k j, Forall P l -> Forall P k -> Forall P j ->
  zip_with f (zip_with f l k) j = zip_with f l (zip_with f k j).
Proof.
  intros Hf l k j Hl. revert k j.
  induction Hl as [| x l Hx _ IH]; intros k j Hk Hj; [reflexivity |].
  destruct Hk as [| y k Hy Hk]; [reflexivity |].
  destruct Hj as [| z j Hz Hj]; [reflexivity |].
  cbn. rewrite Hf, IH; auto.
Qed.

Lemma zip_with_idem_on {X} (P : X -> Prop) (f : X -> X -> X) :
  (forall x, P x -> f x x = x) ->
  forall l, Forall P l -> zip_with f l l = l.
Proof.
  intros Hf l Hl. induction Hl as [| x l Hx _ IH]; [reflexivity |].
  cbn. rewrite Hf, IH; auto.
Qed.

Lemma zip_with_Forall {X} (P : X -> Prop) (f : X -> X -> X) :
  (forall x y, P x -> P y -> P (f x y)) ->
  forall l k, Forall P l -> Forall P k -> Forall P (zip_with f l k).
Proof.
  intros Hf l k Hl. revert k.
  induction Hl as [| x l Hx _ IH]; intros k Hk; [constructor |].
  destruct Hk as [| y k Hy Hk]; cbn; constructor; auto.
Qed.

Lemma merge_row_comm (r s : list Z) :
  zip_with (fun x y => clip (x + y)) r s = zip_with (fun x y => clip (x + y)) s r.
Proof. apply zip_with_comm. intros x y. rewrite Z.add_comm. reflexivity. Qed.

Lemma merge_masks_comm (a b : mask) : merge_masks a b = merge_masks b a.
Proof. apply zip_with_comm, merge_row_comm. Qed.

Lemma clip_bit x y : bit x -> bit y -> bit (clip (x + y)).
Proof. unfold bit. intros [-> | ->] [-> | ->]; cbv; auto. Qed.

Lemma clip_assoc x y z :
  bit x -> bit y -> bit z ->
  clip (clip (x + y) + z) = clip (x + clip (y + z)).
Proof. unfold bit. intros [-> | ->] [-> | ->] [-> | ->]; reflexivity. Qed.

Lemma merge_masks_binary (a b : mask) :
  is_binary a = true -> is_binary b = true ->
  is_binary (merge_masks a b) = true.
Proof.
  rewrite !is_binary_Forall. apply zip_with_Forall.
  apply zip_with_Forall, clip_bit.
Qed.

Lemma merge_masks_assoc (a b c : mask) :
  is_binary a = true -> is_binary b = true -> is_binary c = true ->
  merge_masks (merge_masks a b) c = merge_masks a (merge_masks b c).
Proof.
  rewrite !is_binary_Forall.
  apply (zip_with_assoc_on (Forall bit)).
  apply (zip_with_assoc_on bit), clip_assoc.
Qed.

Lemma merge_masks_idem (a : mask) :
  is_binary a = true -> merge_masks a a = a.
Proof.
  rewrite is_binary_Forall. apply (zip_with_idem_on (Forall bit)).
  apply (zip_with_idem_on bit). unfold bit. intros x [-> | ->]; reflexivity.
Qed.

Lemma fold_merge_binary (l : list mask) acc :
  is_binary acc = true -> all_binary l ->
  is_binary (fold_left merge_masks l acc) = true.
Proof.
  intros Hacc Hl. revert acc Hacc.
  induction Hl as [| m l Hm _ IH]; intros acc Hacc; [exact Hacc |].
  cbn. apply IH, merge_masks_binary; assumption.
Qed.

Lemma fold_merge_perm (l l' : list mask) :
  l ≡ₚ l' -> all_binary l ->
  forall acc, is_binary acc = true ->
  fold_left merge_masks l acc = fold_left merge_masks l' acc.
Proof.
  unfold all_binary.
  induction 1 as [| m l l' Hp IH | m m' l | l l' l'' Hp1 IH1 Hp2 IH2];
    intros Hl acc Hacc.
  - reflexivity.
  - apply Forall_cons in Hl as [Hm Hl]. cbn.
    apply IH; [exact Hl | apply merge_masks_binary; assumption].
  - apply Forall_cons in Hl as [Hm' Hl]. apply Forall_cons in Hl as [Hm Hl].
    cbn. f_equal.
    rewrite !merge_masks_assoc by assumption.
    f_equal. apply merge_masks_comm.
  - rewrite IH1 by assumption. apply IH2; [| exact Hacc].
    rewrite <- Hp1. exact Hl.
Qed.

Lemma fold_merge_absorb (l : list mask) m acc :
  In m l -> all_binary l -> is_binary acc = true ->
  fold_left merge_masks l (merge_masks acc m) = fold_left merge_masks l acc.
Proof.
  intros Hin Hl Hacc.
  assert (Hm : is_binary m = true).
  { unfold all_binary in Hl. rewrite Forall_forall in Hl.
    apply Hl, list_elem_of_In, Hin. }
  apply list_elem_of_In, elem_of_Permutation in Hin as [l0 Hp].
  assert (Hl0 : all_binary (m :: l0)) by (unfold all_binary; rewrite <- Hp; exact Hl).
  rewrite !(fold_merge_perm l (m :: l0) Hp Hl)
    by (try apply merge_masks_binary; assumption).
  cbn. rewrite merge_masks_assoc, merge_masks_idem by assumption. reflexivity.
Qed.

Lemma merge_all_from (l : list mask) x :
  In x l -> all_binary l -> merge_all l = Some (fold_left merge_masks l x).
Proof.
  intros Hin Hl. destruct l as [| m rest]; [destruct Hin |].
  pose proof Hl as Hl'. apply Forall_cons in Hl' as [Hm Hrest].
  cbn. f_equal. destruct Hin as [<- | Hin].
  - rewrite merge_masks_idem by exact Hm. reflexivity.
  - assert (Hx : is_binary x = true).
    { unfold all_binary in Hrest. rewrite Forall_forall in Hrest.
      apply Hrest, list_elem_of_In, Hin. }
    rewrite merge_masks_comm. symmetry.
    apply fold_merge_absorb; assumption.
Qed.

Lemma merge_all_perm (l l' : list mask) :
  l ≡ₚ l' -> all_binary l -> merge_all l = merge_all l'.
Proof.
  intros Hp Hl. destruct l as [| m rest].
  - apply Permutation_nil_l in Hp. subst. reflexivity.
  - assert (Hm : is_binary m = true) by (apply Forall_cons in Hl; tauto).
    rewrite (merge_all_from (m :: rest) m) by (auto; left; reflexivity).
    rewrite (merge_all_from l' m).
    + f_equal. apply fold_merge_perm; assumption.
    + apply list_elem_of_In. rewrite <- Hp. left.
    + unfold all_binary. rewrite <- Hp. exact Hl.
Qed.

(** C9: [merge_masks] is commutative and associative on 0/1 masks of one
    shape, and the merged mask of the members of a component does not
    depend on the order in which the members are folded. *)
Theorem merge_masks_order_independent (a b c : mask) (l l' : list mask) :
  is_binary a = true -> is_binary b = true -> is_binary c = true ->
  same_shape a b = true -> same_shape b c = true ->
  forallb (fun m => is_binary m && same_shape a m) l = true ->
  l ≡ₚ l' ->
  merge_masks a b = merge_masks b a /\
  merge_masks (merge_masks a b) c = merge_masks a (merge_masks b c) /\
  merge_all l = merge_all l'.
Proof.
  intros Ha Hb Hc _ _ Hl Hp. split; [| split].
  - apply merge_masks_comm.
  - apply merge_masks_assoc; assumption.
  - apply merge_all_perm; [exact Hp |].
    unfold all_binary. rewrite Forall_forall. intros m Hm.
    rewrite forallb_forall in Hl. apply list_elem_of_In, Hl in Hm.
    apply andb_true_iff in Hm. tauto.
Qed.

Lemma merge_masks_order_independent_witness :
  merge_masks [[1; 0]; [0; 0]] [[0; 1]; [0; 0]] =
  merge_masks [[0; 1]; [0; 0]] [[1; 0]; [0; 0]] /\
  merge_masks (merge_masks [[1; 0]; [0; 0]] [[0; 1]; [0; 0]]) [[0; 1]; [0; 1]] =
  merge_masks [[1; 0]; [0; 0]] (merge_masks [[0; 1]; [0; 0]] [[0; 1]; [0; 1]]) /\
  merge_all [[[1; 0]; [0; 0]]; [[0; 1]; [0; 0]]; [[0; 1]; [0; 1]]] =
  merge_all [[[0; 1]; [0; 0]]; [[1; 0]; [0; 0]]; [[0; 1]; [0; 1]]].
Proof.
  apply (merge_masks_order_independent
           [[1; 0]; [0; 0]] [[0; 1]; [0; 0]] [[0; 1]; [0; 1]]);
    try reflexivity.
  apply perm_swap.
Defined.

(** ** Splitting the ground truth *)

Lemma mapM_const {X Y} (v : option Y) (l : list X) (k : list Y) :
  mapM (fun _ => v) l = Some k -> forall y, In y k -> v = Some y.
Proof.
  rewrite mapM_Some. induction 1 as [| x y l k Hxy _ IH]; intros y' Hy'.
  - destruct Hy'.
  - destruct Hy' as [<- | Hy']; [exact Hxy | apply IH, Hy'].
Qed.

(** Every round of the loop over the sub components of a ground truth
    mask extracts the same region: the body reads the component with
    label 1, whatever the round. *)
Lemma split_gt_mask_constant (mask_gt : mask) (regions : list (mask * Z)) :
  Analyzer.split_gt_mask mask_gt = Some regions ->
  forall x y, In x regions -> In y regions -> x = y.
Proof.
  unfold Analyzer.split_gt_mask. cbn. intros H x y Hx Hy.
  pose proof (mapM_const _ _ _ H x Hx) as Hvx.
  pose proof (mapM_const _ _ _ H y Hy) as Hvy.
  congruence.
Qed.

(** C1: on the ground truth mask [[1, 0, 2]] (a sidelobe pixel and a
    source pixel, two regions) both rounds of the loop extract the region
    with label 1, with class 1; the second round does not extract the
    region with label 2, whose mask is [[0, 0, 1]]. *)
Theorem split_gt_mask_reuses_first_component :
  extract_mask_connected_components [[1; 0; 2]] = ([[1; 0; 2]]%nat, 2%nat) /\
  Analyzer.split_gt_mask [[1; 0; 2]] =
    Some [([[1; 0; 0]], 1); ([[1; 0; 0]], 1)] /\
  Analyzer.np_where_01 (fst (extract_mask_connected_components [[1; 0; 2]])) 2
    = [[0; 0; 1]].
Proof. vm_compute. auto. Qed.

(** As a result the source of this image never reaches the ground truth:
    the two copies of the sidelobe are merged into one instance. *)
Example extract_gt_masks_loses_component :
  Analyzer.extract_gt_masks tight_bbox
    ["bkg"; "sidelobe"; "source"; "galaxy_C2"; "galaxy_C3"]%string
    [[[1; 0; 2]]] "source" 2 =
  Some (Analyzer.mkGt [[[1; 0; 0]]] [1] [(0, 0, 1, 1)] ["sidelobe"%string]).
Proof. vm_compute. reflexivity. Qed.

(** ** The pass over the dataset *)

Section TestFacts.
Variable inspect : nat -> Z -> option (Z * Analyzer.perf).

Lemma accumulate_n_max_img tester ids tester' :
  ModelTester.accumulate inspect tester ids = Some tester' ->
  ModelTester.n_max_img tester' = ModelTester.n_max_img tester /\
  ModelTester.n_classes tester' = ModelTester.n_classes tester /\
  ModelTester.classification_matrix_norm tester' =
    ModelTester.classification_matrix_norm tester /\
  ModelTester.purity tester' = ModelTester.purity tester.
Proof.
  revert tester. induction ids as [| [index image_id] rest IH]; intros tester H.
  - cbn in H. injection H as <-. auto.
  - cbn in H. destruct (inspect index image_id) as [[status analyzer] |];
      cbn in H; [| discriminate].
    destruct (status <? 0); [apply IH, H |].
    apply IH in H. cbn in H. exact H.
Qed.

(** The loop analyzes the images before the one at which the counter
    reaches the cap, and all images without a cap. *)
Lemma test_loop_visited tester nimg ids :
  ModelTester.test_loop inspect tester nimg ids =
  ModelTester.accumulate inspect tester (ModelTester.visited tester nimg ids).
Proof.
  revert tester nimg. induction ids as [| [index image_id] rest IH];
    intros tester nimg.
  - unfold ModelTester.visited. destruct (_ >? 0); [rewrite firstn_nil |];
      reflexivity.
  - cbn [ModelTester.test_loop]. unfold ModelTester.visited.
    destruct (ModelTester.n_max_img tester >? 0) eqn:Hcap; cbn [andb].
    + destruct (nimg + 1 >=? ModelTester.n_max_img tester) eqn:Hstop.
      * replace (Z.to_nat _) with 0%nat by lia. reflexivity.
      * replace (Z.to_nat (ModelTester.n_max_img tester - 1 - nimg))
          with (S (Z.to_nat (ModelTester.n_max_img tester - 1 - (nimg + 1))))
          by lia.
        cbn [firstn ModelTester.accumulate].
        destruct (inspect index image_id) as [[status analyzer] |];
          cbn; [| reflexivity].
        destruct (status <? 0); rewrite IH; unfold ModelTester.visited;
          cbn [ModelTester.n_max_img ModelTester.update_performances];
          rewrite Hcap; reflexivity.
    + cbn [ModelTester.accumulate].
      destruct (inspect index image_id) as [[status analyzer] |];
        cbn; [| reflexivity].
      destruct (status <? 0); rewrite IH; unfold ModelTester.visited;
        cbn [ModelTester.n_max_img ModelTester.update_performances];
        rewrite Hcap; reflexivity.
Qed.

(** With a cap [m > 0] the loop analyzes [min (m - 1) N] of the [N]
    images. *)
Lemma visited_length tester ids :
  0 < ModelTester.n_max_img tester ->
  length (ModelTester.visited tester 0 ids) =
  Nat.min (Z.to_nat (ModelTester.n_max_img tester - 1)) (length ids).
Proof.
  intros Hm. unfold ModelTester.visited.
  replace (_ >? 0) with true by lia.
  rewrite length_firstn. f_equal. lia.
Qed.

Lemma accumulate_app tester pre post :
  ModelTester.accumulate inspect tester (pre ++ post) =
  tester' ← ModelTester.accumulate inspect tester pre;
  ModelTester.accumulate inspect tester' post.
Proof.
  revert tester. induction pre as [| [index image_id] pre IH]; intros tester.
  - reflexivity.
  - cbn [app ModelTester.accumulate].
    destruct (inspect index image_id) as [[status analyzer] |]; cbn;
      [| reflexivity].
    destruct (status <? 0); apply IH.
Qed.

End TestFacts.

(** C2: with the cap [n_max_img = 1] the loop stops in its first round,
    before the only image of the dataset is analyzed: the totals stay at
    zero, where one image ([min 1 1]) was to be analyzed.  With the cap 2,
    or without a cap, the image is analyzed. *)
Theorem test_stops_one_image_early :
  let run := fun m =>
    ModelTester.test tight_bbox box_iou demo_detect (Some demo_dataset)
                     (ModelTester.with_n_max_img (ModelTester.init 2) m) in
  (ModelTester.nobjs_true <$> run 1) = Some [0; 0] /\
  (ModelTester.classification_matrix <$> run 1) = Some [[0; 0]; [0; 0]] /\
  (ModelTester.nobjs_true <$> run 2) = Some [0; 1] /\
  (ModelTester.classification_matrix <$> run 2) = Some [[0; 0]; [0; 1]] /\
  (ModelTester.nobjs_true <$> run (-1)) = Some [0; 1] /\
  length (ModelTester.visited (ModelTester.with_n_max_img (ModelTester.init 2) 1)
                              0 [(0%nat, 0)]) = 0%nat.
Proof. vm_compute. repeat split; reflexivity. Qed.

(** ** Normalisation and purity *)

Lemma nth_insert_eq {X} (l : list X) i x d :
  (i < length l)%nat -> nth i (<[i := x]> l) d = x.
Proof. intros Hi. rewrite nth_lookup, list_lookup_insert_eq by exact Hi. reflexivity. Qed.

Lemma nth_insert_ne {X} (l : list X) i j x d :
  i <> j -> nth j (<[i := x]> l) d = nth j l d.
Proof. intros Hij. rewrite !nth_lookup, list_lookup_insert_ne by exact Hij. reflexivity. Qed.

Section UpdateLoop.
Context {X : Type} (d : X).
Variable skip : nat -> bool.
Variable value : nat -> X -> X.

Local Abbreviation update_step := (update_step d skip value).

Lemma update_loop_length l acc :
  length (fold_left update_step l acc) = length acc.
Proof.
  revert acc. induction l as [| i l IH]; intros acc; [reflexivity |].
  cbn. rewrite IH. unfold update_step. destruct (skip i); [reflexivity |].
  apply length_insert.
Qed.

Lemma update_loop_other l acc i :
  ~ In i l -> nth i (fold_left update_step l acc) d = nth i acc d.
Proof.
  revert acc. induction l as [| k l IH]; intros acc Hi; [reflexivity |].
  cbn. rewrite IH by (intros H; apply Hi; right; exact H).
  unfold update_step. destruct (skip k); [reflexivity |].
  apply nth_insert_ne. intros ->. apply Hi. left. reflexivity.
Qed.

Lemma update_loop_nth l acc i :
  NoDup l -> In i l -> (i < length acc)%nat ->
  nth i (fold_left update_step l acc) d =
  if skip i then nth i acc d else value i (nth i acc d).
Proof.
  intros Hnd. revert acc. induction Hnd as [| k l Hk Hnd IH]; intros acc Hi Hlen.
  - destruct Hi.
  - cbn. destruct (decide (i = k)) as [-> | Hik].
    + rewrite update_loop_other by (rewrite <- list_elem_of_In; exact Hk).
      unfold update_step. destruct (skip k); [reflexivity |].
      apply nth_insert_eq, Hlen.
    + destruct Hi as [-> | Hi]; [congruence |].
      rewrite IH; [| exact Hi |].
      * unfold update_step. destruct (skip k); [reflexivity |].
        rewrite nth_insert_ne by congruence. reflexivity.
      * unfold update_step. destruct (skip k); [exact Hlen |].
        rewrite length_insert. exact Hlen.
Qed.
End UpdateLoop.

Lemma normalize_row_nth n row norm row_norm j :
  (j < n)%nat -> length row_norm = n ->
  nth j (normalize_row n row norm row_norm) 0%Q =
  (inject_Z (nth j row 0%Z) / inject_Z norm)%Q.
Proof.
  intros Hj Hlen. unfold normalize_row.
  change (fold_left _ (seq 0 n) row_norm)
    with (fold_left (update_step 0%Q (fun _ => false)
                       (fun j _ => (inject_Z (nth j row 0%Z) / inject_Z norm)%Q))
                    (seq 0 n) row_norm).
  rewrite update_loop_nth; [reflexivity | apply NoDup_seq | | lia].
  apply in_seq. lia.
Qed.

Lemma normalize_nth n matrix nobjs_true matrix_norm i :
  (i < n)%nat -> length matrix_norm = n ->
  nth i (normalize n matrix nobjs_true matrix_norm) [] =
  if nth i nobjs_true 0 <=? 0 then nth i matrix_norm []
  else normalize_row n (nth i matrix []) (nth i nobjs_true 0) (nth i matrix_norm []).
Proof.
  intros Hi Hlen. unfold normalize.
  change (fold_left _ (seq 0 n) matrix_norm)
    with (fold_left (update_step [] (fun i => nth i nobjs_true 0 <=? 0)
                       (fun i old => normalize_row n (nth i matrix [])
                                                   (nth i nobjs_true 0) old))
                    (seq 0 n) matrix_norm).
  rewrite update_loop_nth; [reflexivity | apply NoDup_seq | | lia].
  apply in_seq. lia.
Qed.

Lemma purities_nth n nobjs_det nobjs_det_right purity j :
  (j < n)%nat -> length purity = n ->
  nth j (purities n nobjs_det nobjs_det_right purity) 0%Q =
  if nth j nobjs_det 0 <=? 0 then nth j purity 0%Q
  else (inject_Z (nth j nobjs_det_right 0%Z) / inject_Z (nth j nobjs_det 0%Z))%Q.
Proof.
  intros Hj Hlen. unfold purities.
  change (fold_left _ (seq 0 n) purity)
    with (fold_left (update_step 0%Q (fun j => nth j nobjs_det 0 <=? 0)
                       (fun j _ => (inject_Z (nth j nobjs_det_right 0%Z) /
                                    inject_Z (nth j nobjs_det 0%Z))%Q))
                    (seq 0 n) purity).
  rewrite update_loop_nth; [reflexivity | apply NoDup_seq | | lia].
  apply in_seq. lia.
Qed.

Lemma nth_replicate {X} (n i : nat) (x d : X) :
  (i < n)%nat -> nth i (replicate n x) d = x.
Proof.
  intros Hi. rewrite nth_lookup, lookup_replicate_2 by exact Hi. reflexivity.
Qed.

(** C7: after the pass over the dataset of a tester whose normalised
    matrix and purity are the zero arrays of [__init__],
    [classification_matrix_norm[i][j]] is
    [classification_matrix[i][j] / nobjs_true[i]] in every row with
    [nobjs_true[i] > 0] and zero in the other rows, and [purity[j]] is
    [nobjs_det_right[j] / nobjs_det[j]] for every class with
    [nobjs_det[j] > 0] and zero otherwise. *)
Theorem compute_performances_normalizes
    (inspect : nat -> Z -> option (Z * Analyzer.perf))
    (tester tester' : ModelTester.t) (image_ids : list Z) (n i j : nat) :
  ModelTester.n_classes tester = n ->
  ModelTester.classification_matrix_norm tester = replicate n (replicate n 0%Q) ->
  ModelTester.purity tester = replicate n 0%Q ->
  ModelTester.test_with inspect tester image_ids = Some tester' ->
  (i < n)%nat -> (j < n)%nat ->
  nth j (nth i (ModelTester.classification_matrix_norm tester') []) 0%Q =
    (if 0 <? nth i (ModelTester.nobjs_true tester') 0
     then (inject_Z (nth j (nth i (ModelTester.classification_matrix tester') []) 0%Z) /
           inject_Z (nth i (ModelTester.nobjs_true tester') 0%Z))%Q
     else 0%Q) /\
  nth j (ModelTester.purity tester') 0%Q =
    (if 0 <? nth j (ModelTester.nobjs_det tester') 0
     then (inject_Z (nth j (ModelTester.nobjs_det_right tester') 0%Z) /
           inject_Z (nth j (ModelTester.nobjs_det tester') 0%Z))%Q
     else 0%Q).
Proof.
  intros Hn Hnorm Hpur Htest Hi Hj. unfold ModelTester.test_with in Htest.
  destruct (ModelTester.test_loop inspect tester 0 _) as [t1 |] eqn:Hloop;
    cbn in Htest; [| discriminate].
  injection Htest as <-.
  rewrite test_loop_visited in Hloop.
  apply accumulate_n_max_img in Hloop as (_ & Hn1 & Hnorm1 & Hpur1).
  cbn [ModelTester.compute_performances ModelTester.classification_matrix_norm
       ModelTester.purity ModelTester.nobjs_true ModelTester.nobjs_det
       ModelTester.nobjs_det_right ModelTester.classification_matrix].
  rewrite Hn1, Hnorm1, Hpur1, Hn, Hnorm, Hpur. split.
  - rewrite normalize_nth by (try rewrite length_replicate; lia).
    rewrite Z.ltb_antisym. destruct (_ <=? 0); cbn [negb].
    + rewrite !nth_replicate by lia. reflexivity.
    + rewrite normalize_row_nth; [reflexivity | lia |].
      rewrite nth_replicate by lia. apply length_replicate.
  - rewrite purities_nth by (try rewrite length_replicate; lia).
    rewrite Z.ltb_antisym. destruct (_ <=? 0); cbn [negb]; [| reflexivity].
    apply nth_replicate. lia.
Qed.

Lemma compute_performances_normalizes_witness :
  let inspect := fun (index : nat) image_id =>
    Analyzer.inspect_results tight_bbox box_iou
      (Analyzer.mkAnalyzer 2 (Some demo_dataset) demo_detect (7 # 10) (6 # 10))
      image_id in
  exists tester',
    ModelTester.test_with inspect (ModelTester.init 2) [0; 0; 0] = Some tester' /\
    nth 1 (nth 1 (ModelTester.classification_matrix_norm tester') []) 0%Q =
      (inject_Z 3 / inject_Z 3)%Q /\
    nth 0 (nth 0 (ModelTester.classification_matrix_norm tester') []) 0%Q = 0%Q.
Proof.
  intros inspect.
  destruct (ModelTester.test_with inspect (ModelTester.init 2) [0; 0; 0])
    as [tester' |] eqn:Htest; [| vm_compute in Htest; discriminate].
  exists tester'. split; [reflexivity |].
  pose proof (compute_performances_normalizes inspect (ModelTester.init 2)
                tester' [0; 0; 0] 2 1 1 eq_refl eq_refl eq_refl Htest
                ltac:(lia) ltac:(lia)) as [H11 _].
  pose proof (compute_performances_normalizes inspect (ModelTester.init 2)
                tester' [0; 0; 0] 2 0 0 eq_refl eq_refl eq_refl Htest
                ltac:(lia) ltac:(lia)) as [H00 _].
  vm_compute in Htest. injection Htest as <-.
  split; [exact H11 | exact H00].
Defined.

(** ** Bounding boxes of the selected masks *)

Section Boxes.
Variable extract_bboxes : mask -> bbox.
Variable class_names : list string.

Lemma boxes_and_captions_all final d :
  Analyzer.boxes_and_captions extract_bboxes class_names final = Some d ->
  Analyzer.masks_final d = Analyzer.r_mask <$> final /\
  Analyzer.bboxes d =
    (fun m => extract_bboxes (Analyzer.as_bool m)) <$> Analyzer.masks_final d /\
  length (Analyzer.captions d) = length final.
Proof.
  unfold Analyzer.boxes_and_captions. intros H.
  destruct (mapM _ final) as [caps |] eqn:Hcaps; cbn in H; [| discriminate].
  injection H as <-. cbn. split; [reflexivity | split].
  - rewrite <- list_fmap_compose. reflexivity.
  - symmetry. eapply length_mapM, Hcaps.
Qed.

Lemma extract_gt_masks_boxes masks_gt label_gt class_id_gt g :
  Analyzer.extract_gt_masks extract_bboxes class_names masks_gt label_gt
                            class_id_gt = Some g ->
  Analyzer.bboxes_gt g =
    (fun m => extract_bboxes (Analyzer.as_bool m)) <$> Analyzer.masks_gt_merged g /\
  length (Analyzer.captions_gt g) = length (Analyzer.masks_gt_merged g).
Proof.
  unfold Analyzer.extract_gt_masks. intros H.
  destruct (Analyzer.gt_regions _ _ _) as [regions |]; cbn in H; [| discriminate].
  destruct (mapM _ (filter _ _)) as [merged |]; cbn in H; [| discriminate].
  destruct (mapM _ merged) as [caps |] eqn:Hcaps; cbn in H; [| discriminate].
  injection H as <-. cbn. split.
  - rewrite <- list_fmap_compose. reflexivity.
  - rewrite length_fmap. symmetry. eapply length_mapM, Hcaps.
Qed.

End Boxes.

(** A detected galaxy whose mask has no foreground pixel is not dropped:
    it is selected, and its degenerate bounding box and its caption are
    appended to the results. *)
Lemma empty_mask_is_not_dropped :
  Analyzer.extract_det_masks tight_bbox
    ["bkg"; "sidelobe"; "source"; "galaxy_C2"; "galaxy_C3"]%string
    (Analyzer.mkRaw [[[0; 0; 0]]] 1 [3] [9 # 10]) (7 # 10) =
  Some (Analyzer.mkDet [[[0; 0; 0]]] [3] [9 # 10] [(0, 0, 0, 0)]
                       [("galaxy_C2"%string, 9 # 10)]) /\
  ncomponents [[0; 0; 0]] = 0%nat /\
  forallb (fun p => negb (fg [[0; 0; 0]] p)) (pixels [[0; 0; 0]]) = true.
Proof. vm_compute. auto. Qed.

(** ** Matching by IoU *)

Lemma Qgtb_spec x y : Qgtb x y = true <-> (y < x)%Q.
Proof.
  unfold Qgtb. rewrite negb_true_iff, <- not_true_iff_false, Qle_bool_iff.
  split; [apply Qnot_le_lt | apply Qlt_not_le].
Qed.

Lemma Qgeb_spec x y : Qgeb x y = true <-> (y <= x)%Q.
Proof. unfold Qgeb. apply Qle_bool_iff. Qed.

Lemma py_get_nat {X} (l : list X) (k : nat) : py_get l (Z.of_nat k) = l !! k.
Proof.
  unfold py_get, py_index.
  destruct (Nat.lt_ge_cases k (length l)) as [Hk | Hk].
  - replace ((0 <=? Z.of_nat k) && (Z.of_nat k <? Z.of_nat (length l))) with true
      by (symmetry; apply andb_true_iff; lia).
    cbn. rewrite Nat2Z.id. reflexivity.
  - replace ((0 <=? Z.of_nat k) && (Z.of_nat k <? Z.of_nat (length l))) with false
      by (symmetry; apply andb_false_iff; lia).
    replace ((Z.of_nat k <? 0) && (- Z.of_nat (length l) <=? Z.of_nat k)) with false
      by (symmetry; apply andb_false_iff; lia).
    cbn. symmetry. apply lookup_ge_None. exact Hk.
Qed.

Section Scan.
Variable iou_thr : Q.

(** The scan keeps the largest IoU above the threshold that is not below
    the IoU it starts with, at the last position where it occurs. *)
Lemma scan_iou_spec ious j0 st :
  let r := Analyzer.scan_iou iou_thr ious j0 st in
  (snd st <= snd r)%Q /\
  (forall i x, ious !! i = Some x -> (iou_thr < x)%Q -> (x <= snd r)%Q) /\
  ((r = st /\
    forall i x, ious !! i = Some x -> (iou_thr < x)%Q -> (x < snd st)%Q) \/
   (exists i, fst r = Z.of_nat (j0 + i) /\ ious !! i = Some (snd r) /\
              (iou_thr < snd r)%Q /\
              forall i' x, (i < i')%nat -> ious !! i' = Some x ->
                           (iou_thr < x)%Q -> (x < snd r)%Q)).
Proof.
  revert j0 st. induction ious as [| iou rest IH]; intros j0 st r.
  - subst r. cbn. split; [apply Qle_refl | split].
    + intros i x Hi. discriminate.
    + left. split; [reflexivity |]. intros i x Hi. discriminate.
  - subst r. cbn [Analyzer.scan_iou].
    destruct (Qgtb iou iou_thr && Qgeb iou (snd st)) eqn:Hacc.
    + apply andb_true_iff in Hacc as [Hthr Hbest].
      apply Qgtb_spec in Hthr. apply Qgeb_spec in Hbest.
      specialize (IH (S j0) (Z.of_nat j0, iou)).
      cbn [snd fst] in IH. destruct IH as (Hle & Hub & Hlast).
      set (r := Analyzer.scan_iou iou_thr rest (S j0) (Z.of_nat j0, iou)) in *.
      split; [eapply Qle_trans; eassumption | split].
      * intros [| i] x Hi Hx; cbn in Hi.
        -- injection Hi as <-. exact Hle.
        -- eapply Hub; eassumption.
      * right. destruct Hlast as [[Hr Hlow] | (i & Hi1 & Hi2 & Hi3 & Hi4)].
        -- exists 0%nat. rewrite Hr. cbn [fst snd].
           rewrite Nat.add_0_r. split; [reflexivity | split; [reflexivity |]].
           split; [exact Hthr |].
           intros [| i'] x Hlt Hi' Hx; [lia |]. cbn in Hi'.
           eapply Hlow; eassumption.
        -- exists (S i). replace (j0 + S i)%nat with (S j0 + i)%nat by lia.
           split; [exact Hi1 | split; [exact Hi2 | split; [exact Hi3 |]]].
           intros [| i'] x Hlt Hi' Hx; [lia |]. cbn in Hi'.
           apply (Hi4 i' x); [lia | assumption | assumption].
    + specialize (IH (S j0) st). cbn [snd fst] in IH.
      destruct IH as (Hle & Hub & Hlast).
      set (r := Analyzer.scan_iou iou_thr rest (S j0) st) in *.
      assert (Hrej : (iou_thr < iou)%Q -> (iou < snd st)%Q).
      { intros Hthr. apply andb_false_iff in Hacc as [Hacc | Hacc].
        - apply Qgtb_spec in Hthr. congruence.
        - apply Qnot_le_lt. intros Hge. apply Qgeb_spec in Hge. congruence. }
      split; [exact Hle | split].
      * intros [| i] x Hi Hx; cbn in Hi.
        -- injection Hi as <-. apply Qlt_le_weak.
           eapply Qlt_le_trans; [apply Hrej, Hx | exact Hle].
        -- eapply Hub; eassumption.
      * destruct Hlast as [[Hr Hlow] | (i & Hi1 & Hi2 & Hi3 & Hi4)].
        -- left. split; [exact Hr |].
           intros [| i] x Hi Hx; cbn in Hi.
           ++ injection Hi as <-. apply Hrej, Hx.
           ++ eapply Hlow; eassumption.
        -- right. exists (S i). replace (j0 + S i)%nat with (S j0 + i)%nat by lia.
           split; [exact Hi1 | split; [exact Hi2 | split; [exact Hi3 |]]].
           intros [| i'] x Hlt Hi' Hx; [lia |]. cbn in Hi'.
           apply (Hi4 i' x); [lia | assumption | assumption].
Qed.

End Scan.

Section Matching.
Variable get_iou : bbox -> bbox -> Q.
Variable iou_thr : Q.
Variables (gt : Analyzer.gt_data) (det : Analyzer.det_data).


Hypothesis iou_not_negative :
  forall bbox bbox_gt,
    In bbox (Analyzer.bboxes det) -> In bbox_gt (Analyzer.bboxes_gt gt) ->
    (iou_thr < get_iou bbox bbox_gt)%Q -> (0 <= get_iou bbox bbox_gt)%Q.



End Matching.


(** On an image without detections a round for a true object returns:
    the true object is counted and nothing is associated to it. *)
Example true_object_without_detection :
  Analyzer.match_true_object box_iou (6 # 10)
    (Analyzer.mkGt [] [1] [(10, 10, 50, 50)] []) (Analyzer.mkDet [] [] [] [] [])
    ([0; 0], [[0; 0]; [0; 0]]) 0 =
  Some ([0; 1], [[0; 0]; [0; 0]]).
Proof. reflexivity. Qed.

(** An IoU equal to the threshold is no match; of two detections with
    the same IoU the one scanned last is the match. *)
Example best_match_ties :
  Analyzer.best_match (6 # 10) [6 # 10] = -1 /\
  Analyzer.best_match (6 # 10) [8 # 10; 8 # 10] = 1 /\
  Analyzer.best_match (6 # 10) [9 # 10; 8 # 10; 7 # 10] = 0.
Proof. vm_compute. auto. Qed.

(** ** The groups of the instance graph *)

Lemma in_index_pairs N i j : In (i, j) (index_pairs N) <-> (i < j < N)%nat.
Proof.
  unfold index_pairs. rewrite in_flat_map. split.
  - intros (i0 & Hi0 & Hin). apply in_map_iff in Hin as (j0 & Heq & Hj0).
    inversion Heq; subst. apply in_seq in Hi0, Hj0. lia.
  - intros Hij. exists i. split; [apply in_seq; lia |].
    apply in_map_iff. exists j. split; [reflexivity | apply in_seq; lia].
Qed.

Section LinkGraph.
Context {X : Type} (items : list X) (mergeable : X -> X -> bool).

Let step := fun (g : Graph) '(i, j) =>
  match items !! i, items !! j with
  | Some x, Some y => if mergeable x y then addEdge g i j else g
  | _, _ => g
  end.

Lemma link_fold pairs g :
  gV (fold_left step pairs g) = gV g /\
  forall e, In e (gEdges (fold_left step pairs g)) <->
            In e (gEdges g) \/
            (In e pairs /\ exists x y, items !! fst e = Some x /\
                                       items !! snd e = Some y /\
                                       mergeable x y = true).
Proof.
  revert g. induction pairs as [| [i j] pairs IH]; intros g.
  - split; [reflexivity |]. intros e. cbn. tauto.
  - cbn [fold_left]. destruct (IH (step g (i, j))) as [HV HE].
    split.
    + rewrite HV. unfold step.
      destruct (items !! i), (items !! j); try reflexivity.
      destruct (mergeable _ _); reflexivity.
    + intros e. rewrite HE. clear HE HV IH. unfold step.
      destruct (items !! i) as [x |] eqn:Hx, (items !! j) as [y |] eqn:Hy;
        try destruct (mergeable x y) eqn:Hm; cbn [gEdges addEdge In];
        rewrite ?in_app_iff; cbn [In]; split;
        try (intros [H | [H (x' & y' & H1 & H2 & H3)]];
             [auto | right; split; [right; exact H | eauto]]; fail).
      * intros [[H | [<- | []]] | [H (x' & y' & H1 & H2 & H3)]]; eauto 10.
      * intros [H | [[<- | H] Hex]]; eauto 10.
      * intros [H | [[<- | H] (x' & y' & H1 & H2 & H3)]]; eauto 10.
        cbn [fst snd] in *. congruence.
      * intros [H | [[<- | H] (x' & y' & H1 & H2 & H3)]]; eauto 10.
        cbn [fst snd] in *. congruence.
      * intros [H | [[<- | H] (x' & y' & H1 & H2 & H3)]]; eauto 10.
        cbn [fst snd] in *. congruence.
      * intros [H | [[<- | H] (x' & y' & H1 & H2 & H3)]]; eauto 10.
        cbn [fst snd] in *. congruence.
Qed.

Lemma link_graph_nodes : gV (link_graph items mergeable) = length items.
Proof. unfold link_graph. apply (link_fold _ (new_Graph (length items))). Qed.

(** The graph has an edge exactly for the mergeable pairs [i < j]. *)
Lemma link_graph_edges i j :
  In (i, j) (gEdges (link_graph items mergeable)) <->
  (i < j)%nat /\ exists x y, items !! i = Some x /\ items !! j = Some y /\
                             mergeable x y = true.
Proof.
  unfold link_graph.
  destruct (link_fold (index_pairs (length items)) (new_Graph (length items)))
    as [_ HE].
  fold step. rewrite HE. cbn [new_Graph gEdges In fst snd].
  rewrite in_index_pairs. split.
  - intros [[] | [Hij Hex]]. split; [lia | exact Hex].
  - intros [Hij (x & y & Hx & Hy & Hm)]. right. split; [| eauto].
    apply lookup_lt_Some in Hy. lia.
Qed.
End LinkGraph.

Section Components.
Variable g : Graph.

Let root := propagate Nat.leb (gEdges g).

Lemma in_connectedComponents c :
  In c (connectedComponents g) <->
  exists r, (r < gV g)%nat /\ root r = r /\
            c = filter (fun v => root v = r) (seq 0 (gV g)).
Proof.
  unfold connectedComponents. fold root. rewrite in_map_iff. split.
  - intros (r & <- & Hr).
    apply list_elem_of_In, list_elem_of_filter in Hr as [Hroot Hr].
    apply list_elem_of_In, in_seq in Hr. exists r. split; [lia | auto].
  - intros (r & Hr & Hroot & ->). exists r. split; [reflexivity |].
    apply list_elem_of_In, list_elem_of_filter. split; [exact Hroot |].
    apply list_elem_of_In, in_seq. lia.
Qed.

Lemma in_component r v :
  In v (filter (fun v => root v = r) (seq 0 (gV g))) <->
  (v < gV g)%nat /\ root v = r.
Proof.
  rewrite <- list_elem_of_In, list_elem_of_filter, list_elem_of_In, in_seq.
  split; intros [? ?]; split; auto; lia.
Qed.

(** Every group has a member, and its members are nodes. *)
Lemma component_nonempty c : In c (connectedComponents g) -> c <> [].
Proof.
  intros Hc. apply in_connectedComponents in Hc as (r & Hr & Hroot & ->).
  intros Hnil. assert (Hin : In r (filter (fun v => root v = r) (seq 0 (gV g))))
    by (apply in_component; auto).
  rewrite Hnil in Hin. destruct Hin.
Qed.

Lemma component_nodes c v :
  In c (connectedComponents g) -> In v c -> (v < gV g)%nat.
Proof.
  intros Hc Hv. apply in_connectedComponents in Hc as (r & _ & _ & ->).
  apply in_component in Hv. tauto.
Qed.

(** The members of a group are the nodes that the edges link to any of
    its members. *)
Lemma component_linked c v w :
  In c (connectedComponents g) -> In v c -> (w < gV g)%nat ->
  In w c <-> econn (gEdges g) v w.
Proof.
  intros Hc Hv Hw. apply in_connectedComponents in Hc as (r & _ & _ & ->).
  apply in_component in Hv as [_ Hv]. rewrite in_component.
  unfold root in *. rewrite <- propagate_econn with (before := Nat.leb).
  split; [intros [_ H]; congruence | intros H; split; [exact Hw | congruence]].
Qed.

(** Every node is in exactly one group. *)
Lemma component_unique c c' v :
  In c (connectedComponents g) -> In c' (connectedComponents g) ->
  In v c -> In v c' -> c = c'.
Proof.
  intros Hc Hc' Hv Hv'.
  apply in_connectedComponents in Hc as (r & _ & _ & ->).
  apply in_connectedComponents in Hc' as (r' & _ & _ & ->).
  apply in_component in Hv as [_ Hv], Hv' as [_ Hv']. subst r r'. reflexivity.
Qed.

Lemma component_cover v :
  (v < gV g)%nat -> exists c, In c (connectedComponents g) /\ In v c.
Proof.
  intros Hv. exists (filter (fun w => root w = root v) (seq 0 (gV g))).
  split; [| apply in_component; auto].
  assert (Hvr : econn (gEdges g) v (root v)) by apply propagate_self.
  apply in_connectedComponents. exists (root v).
  split; [| split; [apply propagate_idem | reflexivity]].
  clear Hvr. unfold root, propagate.
  assert (Hgen : forall E f, (forall x, (x < gV g)%nat -> (f x < gV g)%nat) ->
                 (fold_left (join Nat.leb) E f v < gV g)%nat).
  { clear - Hv. induction E as [| e E IH]; intros f Hf; [apply Hf, Hv |].
    cbn [fold_left]. apply IH. intros x Hx. unfold join.
    destruct (decide (f e.1 = f e.2)); [apply Hf, Hx |].
    destruct (decide (f x = _)); [| apply Hf, Hx].
    destruct (f e.1 <=? f e.2)%nat eqn:Hle.
    - apply Nat.leb_le in Hle. specialize (Hf x Hx). lia.
    - apply Nat.leb_gt in Hle. specialize (Hf x Hx). lia. }
  apply Hgen. auto.
Qed.
End Components.

(** ** The second pass over the detections *)

Section Overlaps.
Variable merged : list Analyzer.region.

(** The scan of a group keeps the first member whose score is above the
    score it starts with and not below the score of any member. *)
Lemma scan_group_spec group score_best index_best class_id_best :
  (forall k, In k group -> is_Some (merged !! k)) ->
  exists score_best' index_best' class_id_best',
    Analyzer.scan_group merged group (score_best, index_best, class_id_best) =
      Some (score_best', index_best', class_id_best') /\
    (score_best <= score_best')%Q /\
    (forall k y, In k group -> merged !! k = Some y ->
                 (Analyzer.r_score y <= score_best')%Q) /\
    (((score_best', index_best', class_id_best') =
      (score_best, index_best, class_id_best) /\
      forall k y, In k group -> merged !! k = Some y ->
                  (Analyzer.r_score y <= score_best)%Q) \/
     (exists pre k post x,
        group = pre ++ k :: post /\ merged !! k = Some x /\
        score_best' = Analyzer.r_score x /\ index_best' = Z.of_nat k /\
        class_id_best' = Analyzer.r_class_id x /\
        (score_best < Analyzer.r_score x)%Q /\
        (forall k' y, In k' pre -> merged !! k' = Some y ->
                      (Analyzer.r_score y < Analyzer.r_score x)%Q) /\
        (forall k' y, In k' post -> merged !! k' = Some y ->
                      (Analyzer.r_score y <= Analyzer.r_score x)%Q))).
Proof.
  revert score_best index_best class_id_best.
  induction group as [| index rest IH]; intros sb ib cb Hvalid.
  - exists sb, ib, cb. split; [reflexivity |]. split; [apply Qle_refl |].
    split; [intros k y [] |]. left. split; [reflexivity | intros k y []].
  - cbn [Analyzer.scan_group].
    destruct (Hvalid index (or_introl eq_refl)) as [x Hx]. rewrite Hx. cbn.
    assert (Hrest : forall k, In k rest -> is_Some (merged !! k))
      by (intros k Hk; apply Hvalid; right; exact Hk).
    destruct (Qgtb (Analyzer.r_score x) sb) eqn:Hgt.
    + apply Qgtb_spec in Hgt.
      destruct (IH (Analyzer.r_score x) (Z.of_nat index) (Analyzer.r_class_id x) Hrest)
        as (sb' & ib' & cb' & Hscan & Hle & Hub & Hcase).
      exists sb', ib', cb'. split; [exact Hscan |].
      split; [eapply Qle_trans; [apply Qlt_le_weak, Hgt | exact Hle] |].
      split.
      * intros k y [<- | Hk] Hy; [| eapply Hub; eassumption].
        rewrite Hx in Hy. injection Hy as <-. exact Hle.
      * right. destruct Hcase as [[Heq Hlow] |
          (pre & k & post & x' & -> & Hk & -> & -> & -> & Hlt & Hpre & Hpost)].
        -- injection Heq as -> -> ->. exists [], index, rest, x.
           repeat split; auto. intros k' y [].
        -- exists (index :: pre), k, post, x'.
           repeat split; auto.
           ++ eapply Qlt_trans; eassumption.
           ++ intros k' y [<- | Hk'] Hy; [| eapply Hpre; eassumption].
              rewrite Hx in Hy. injection Hy as <-. exact Hlt.
    + assert (Hle0 : (Analyzer.r_score x <= sb)%Q).
      { apply Qnot_lt_le. intros Hlt.
        pose proof (proj2 (Qgtb_spec _ _) Hlt). congruence. }
      destruct (IH sb ib cb Hrest)
        as (sb' & ib' & cb' & Hscan & Hle & Hub & Hcase).
      exists sb', ib', cb'. split; [exact Hscan |]. split; [exact Hle |].
      split.
      * intros k y [<- | Hk] Hy; [| eapply Hub; eassumption].
        rewrite Hx in Hy. injection Hy as <-.
        eapply Qle_trans; eassumption.
      * destruct Hcase as [[Heq Hlow] |
          (pre & k & post & x' & -> & Hk & -> & -> & -> & Hlt & Hpre & Hpost)].
        -- left. split; [exact Heq |].
           intros k y [<- | Hk] Hy; [| eapply Hlow; eassumption].
           rewrite Hx in Hy. injection Hy as <-. exact Hle0.
        -- right. exists (index :: pre), k, post, x'.
           repeat split; auto.
           intros k' y [<- | Hk'] Hy; [| eapply Hpre; eassumption].
           rewrite Hx in Hy. injection Hy as <-.
           eapply Qle_lt_trans; eassumption.
Qed.

Lemma select_best_max (group : list nat) :
  group <> [] ->
  (forall k, In k group ->
             exists y, merged !! k = Some y /\ (0 < Analyzer.r_score y)%Q) ->
  exists k x,
    In k group /\ Analyzer.select_best merged group = Some x /\
    merged !! k = Some x /\
    forall k' y, In k' group -> merged !! k' = Some y ->
                 (Analyzer.r_score y <= Analyzer.r_score x)%Q.
Proof.
  intros Hne Hpos.
  destruct (scan_group_spec group 0%Q (-1) 0)
    as (sb & ib & cb & Hscan & _ & Hub & Hcase).
  { intros k Hk. destruct (Hpos k Hk) as (y & Hy & _). eauto. }
  destruct Hcase as [[_ Hlow] |
    (pre & k & post & x & -> & Hk & -> & -> & -> & _)].
  - exfalso. destruct group as [| k rest]; [congruence |].
    destruct (Hpos k (or_introl eq_refl)) as (y & Hy & Hy0).
    apply (Qlt_not_le _ _ Hy0). eapply Hlow; [left; reflexivity | exact Hy].
  - exists k, x. split; [apply in_or_app; right; left; reflexivity |].
    unfold Analyzer.select_best, Analyzer.index_best_of. rewrite Hscan. cbn.
    rewrite py_get_nat. auto.
Qed.


Lemma filter_all {X} (P : X -> Prop) `{forall x, Decision (P x)} (l : list X) :
  (forall x, In x l -> P x) -> filter P l = l.
Proof.
  induction l as [| x l IH]; intros Hall; [reflexivity |].
  rewrite filter_cons_True by (apply Hall; left; reflexivity).
  f_equal. apply IH. intros y Hy. apply Hall. right. exact Hy.
Qed.

Lemma mapM_exists {X Y} (f : X -> option Y) (P : X -> Y -> Prop) (l : list X) :
  (forall x, In x l -> exists y, f x = Some y /\ P x y) ->
  exists k, mapM f l = Some k /\ Forall2 P l k.
Proof.
  induction l as [| x l IH]; intros Hall.
  - exists []. split; [reflexivity | constructor].
  - destruct (Hall x (or_introl eq_refl)) as (y & Hy & HP).
    destruct IH as (k & Hk & HF); [intros z Hz; apply Hall; right; exact Hz |].
    exists (y :: k). split; [| constructor; assumption].
    apply mapM_Some. constructor; [exact Hy | apply mapM_Some, Hk].
Qed.

Lemma overlap_resolution_spec :
  (forall k y, merged !! k = Some y -> (0 < Analyzer.r_score y)%Q) ->
  (forall i j,
      In (i, j) (gEdges (Analyzer.overlap_graph merged)) <->
      (i < j)%nat /\
      exists x y, merged !! i = Some x /\ merged !! j = Some y /\
                  are_mask_connected (Analyzer.r_mask x) (Analyzer.r_mask y) = true) /\
  exists final,
    Analyzer.resolve_overlaps merged = Some final /\
    Forall2 (fun group x =>
               exists k, In k group /\ merged !! k = Some x /\
                         forall k' y, In k' group -> merged !! k' = Some y ->
                                      (Analyzer.r_score y <= Analyzer.r_score x)%Q)
            (connectedComponents (Analyzer.overlap_graph merged)) final.
Proof.
  intros Hpos. split.
  - intros i j. unfold Analyzer.overlap_graph. apply link_graph_edges.
  - unfold Analyzer.resolve_overlaps.
    rewrite filter_all by (intros c; apply component_nonempty).
    apply mapM_exists. intros group Hgroup.
    destruct (select_best_max group) as (k & x & Hin & Hsel & Hk & Hmax).
    + eapply component_nonempty, Hgroup.
    + intros k Hk. apply (component_nodes _ _ _ Hgroup) in Hk.
      unfold Analyzer.overlap_graph in Hk. rewrite link_graph_nodes in Hk.
      apply lookup_lt_is_Some_2 in Hk as [y Hy]. eauto.
    + exists x. split; [exact Hsel |]. exists k. auto.
Qed.
End Overlaps.


(** ** The scores of the first pass *)

Lemma mapM_concat_Forall {X Y} (f : X -> option (list Y)) (P : Y -> Prop)
    (l : list X) (parts : list (list Y)) :
  mapM f l = Some parts ->
  (forall a part, In a l -> f a = Some part -> Forall P part) ->
  Forall P (concat parts).
Proof.
  rewrite mapM_Some. induction 1 as [| a part l parts Ha _ IH]; intros Hf.
  - constructor.
  - cbn. apply Forall_app. split.
    + apply (Hf a); [left; reflexivity | exact Ha].
    + apply IH. intros b part' Hb. apply Hf. right. exact Hb.
Qed.

Lemma mapM_lookups {X} (l : list X) (indices : list nat) (members : list X)
    (P : X -> Prop) :
  mapM (fun index => l !! index) indices = Some members ->
  Forall P l -> Forall P members /\ length members = length indices.
Proof.
  intros Hm Hl. split; [| symmetry; eapply length_mapM, Hm].
  apply mapM_Some in Hm. rewrite Forall_forall in Hl.
  induction Hm as [| index x indices members Hx _ IH]; constructor; [| exact IH].
  apply Hl, list_elem_of_lookup. eauto.
Qed.

Lemma fold_Qplus_positive (l : list Q) (acc : Q) :
  Forall (fun x => (0 < x)%Q) l -> (0 < acc)%Q ->
  (0 < fold_left Qplus l acc)%Q.
Proof.
  intros Hl. revert acc. induction Hl as [| x l Hx _ IH]; intros acc Hacc;
    [exact Hacc |].
  cbn. apply IH. rewrite <- (Qplus_0_l 0). apply Qplus_lt_le_compat;
    [exact Hacc | apply Qlt_le_weak, Hx].
Qed.

Section FirstPass.
Variable class_names : list string.

Lemma select_objects_scores r score_thr sel :
  Analyzer.select_objects class_names r score_thr = Some sel ->
  Forall (fun x => (score_thr <= Analyzer.r_score x)%Q) sel.
Proof.
  unfold Analyzer.select_objects. intros H.
  destruct (mapM _ _) as [parts |] eqn:Hparts; cbn in H; [| discriminate].
  injection H as <-. eapply mapM_concat_Forall; [exact Hparts |].
  intros i part _ Hi. cbn in Hi.
  destruct (Analyzer.masks r !! i) as [mask |]; cbn in Hi; [| discriminate].
  destruct (Analyzer.class_ids r !! i) as [class_id |]; cbn in Hi; [| discriminate].
  destruct (Analyzer.scores r !! i) as [score |]; cbn in Hi; [| discriminate].
  destruct (py_get class_names class_id) as [label |]; cbn in Hi; [| discriminate].
  destruct (Qltb score score_thr) eqn:Hlt; injection Hi as <-; constructor;
    [| constructor].
  cbn. apply Qle_bool_iff. unfold Qltb in Hlt.
  apply negb_false_iff in Hlt. exact Hlt.
Qed.

Lemma split_object_scores (P : Q -> Prop) sel index parts :
  Forall (fun x => P (Analyzer.r_score x)) sel ->
  Analyzer.split_object class_names sel index = Some parts ->
  Forall (fun x => P (Analyzer.r_score x)) parts.
Proof.
  unfold Analyzer.split_object. intros Hsel H.
  destruct (sel !! index) as [x |] eqn:Hx; cbn in H; [| discriminate].
  assert (HPx : P (Analyzer.r_score x)).
  { rewrite Forall_forall in Hsel. apply Hsel, list_elem_of_lookup. eauto. }
  destruct (py_get class_names _) as [label |]; cbn in H; [| discriminate].
  destruct (Analyzer.is_galaxy label); injection H as <-.
  - constructor; [exact HPx | constructor].
  - apply Forall_forall. intros y Hy.
    apply list_elem_of_In, in_map_iff in Hy as (i & <- & _). exact HPx.
Qed.

Lemma merge_component_score regions component y :
  Forall (fun x => (0 < Analyzer.r_score x)%Q) regions ->
  Analyzer.merge_component regions component = Some y ->
  (0 < Analyzer.r_score y)%Q.
Proof.
  unfold Analyzer.merge_component. intros Hpos H.
  destruct (mapM _ component) as [members |] eqn:Hm; cbn in H; [| discriminate].
  destruct (mapM_lookups _ _ _ _ Hm Hpos) as [Hmem Hlen].
  destruct (merge_all _) as [merged_mask |] eqn:Hall; cbn in H; [| discriminate].
  destruct (last _) as [class_id |]; cbn in H; [| discriminate].
  injection H as <-. cbn [Analyzer.r_score].
  destruct members as [| x members]; [discriminate |].
  apply Forall_cons in Hmem as [Hx Hmem].
  apply Qmult_lt_0_compat.
  - cbn. apply fold_Qplus_positive.
    + apply Forall_fmap. exact Hmem.
    + rewrite Qplus_0_l. exact Hx.
  - unfold Qdiv. rewrite Qmult_1_l. apply Qinv_lt_0_compat.
    rewrite <- Hlen. cbn [length]. unfold Qlt. cbn. lia.
Qed.

(** With a positive score threshold every instance of the first pass
    has a positive score. *)
Lemma merged_instances_scores r score_thr merged :
  (0 < score_thr)%Q ->
  Analyzer.merged_instances class_names r score_thr = Some merged ->
  Forall (fun x => (0 < Analyzer.r_score x)%Q) merged.
Proof.
  unfold Analyzer.merged_instances. intros Hthr H.
  destruct (Analyzer.select_objects _ _ _) as [sel |] eqn:Hsel; cbn in H;
    [| discriminate].
  destruct (mapM _ _) as [parts |] eqn:Hparts; cbn in H; [| discriminate].
  assert (Hsel_pos : Forall (fun x => (0 < Analyzer.r_score x)%Q) sel).
  { eapply Forall_impl; [exact (select_objects_scores _ _ _ Hsel) |].
    intros x Hx. cbn in Hx. eapply Qlt_le_trans; eassumption. }
  assert (Hregions : Forall (fun x => (0 < Analyzer.r_score x)%Q) (concat parts)).
  { eapply mapM_concat_Forall; [exact Hparts |].
    intros index part _. apply (split_object_scores (fun s => (0 < s)%Q)), Hsel_pos. }
  unfold Analyzer.merge_regions in H. apply mapM_Some in H.
  apply Forall_forall. intros y Hy.
  apply list_elem_of_In in Hy.
  assert (Hex : exists component,
             Analyzer.merge_component (concat parts) component = Some y).
  { clear - H Hy. induction H as [| c z cs zs Hc _ IH]; [destruct Hy |].
    destruct Hy as [<- | Hy]; eauto. }
  destruct Hex as [component Hc]. eapply merge_component_score; eassumption.
Qed.

(** C6: in the second pass of [extract_det_masks], run with a positive
    score threshold, the graph has an edge for every pair of instances of
    the first pass with connected masks, whatever their classes; and for
    every group of the graph exactly one instance is kept, a member of the
    group whose score no member of the group exceeds. *)
Theorem overlap_resolution_keeps_best (r : Analyzer.det_raw) (score_thr : Q)
    (merged : list Analyzer.region) :
  (0 < score_thr)%Q ->
  Analyzer.merged_instances class_names r score_thr = Some merged ->
  (forall i j,
      In (i, j) (gEdges (Analyzer.overlap_graph merged)) <->
      (i < j)%nat /\
      exists x y, merged !! i = Some x /\ merged !! j = Some y /\
                  are_mask_connected (Analyzer.r_mask x) (Analyzer.r_mask y) = true) /\
  exists final,
    Analyzer.resolve_overlaps merged = Some final /\
    Forall2 (fun group x =>
               exists k, In k group /\ merged !! k = Some x /\
                         forall k' y, In k' group -> merged !! k' = Some y ->
                                      (Analyzer.r_score y <= Analyzer.r_score x)%Q)
            (connectedComponents (Analyzer.overlap_graph merged)) final.
Proof.
  intros Hthr Hmerged. apply overlap_resolution_spec.
  pose proof (merged_instances_scores r score_thr merged Hthr Hmerged) as Hpos.
  rewrite Forall_forall in Hpos. intros k y Hy.
  apply Hpos, list_elem_of_lookup. eauto.
Qed.
End FirstPass.

(** Two overlapping instances of different classes with the scores 0.9
    and 0.6: only the instance with the score 0.9 is kept. *)
Lemma overlap_resolution_keeps_best_witness :
  let names := ["bkg"; "sidelobe"; "source"; "galaxy_C2"; "galaxy_C3"]%string in
  let r := Analyzer.mkRaw [[[1; 1; 0]]; [[0; 1; 1]]] 2 [1; 2] [6 # 10; 9 # 10] in
  let merged := [Analyzer.mkRegion [[0; 1; 1]] 2 (9 # 10);
                 Analyzer.mkRegion [[1; 1; 0]] 1 (6 # 10)] in
  In (0%nat, 1%nat) (gEdges (Analyzer.overlap_graph merged)) /\
  exists final,
    Analyzer.resolve_overlaps merged = Some final /\
    length final = length (connectedComponents (Analyzer.overlap_graph merged)).
Proof.
  intros names r merged.
  destruct (overlap_resolution_keeps_best names r (1 # 2) merged)
    as [Hedges (final & Hres & Hall)].
  - reflexivity.
  - reflexivity.
  - split.
    + apply Hedges. split; [lia |]. do 2 eexists.
      split; [reflexivity | split; reflexivity].
    + exists final. split; [exact Hres |]. symmetry.
      eapply Forall2_length, Hall.
Defined.

(** Of two overlapping instances with the same score the one scanned first
    is kept. *)
Example index_best_ties :
  Analyzer.index_best_of
    [Analyzer.mkRegion [[1; 1]] 1 (9 # 10); Analyzer.mkRegion [[1; 1]] 2 (9 # 10)]
    [0; 1]%nat = Some 0 /\
  Analyzer.index_best_of
    [Analyzer.mkRegion [[1; 1]] 1 (6 # 10); Analyzer.mkRegion [[1; 1]] 2 (9 # 10)]
    [0; 1]%nat = Some 1.
Proof. vm_compute. auto. Qed.

(** * Further properties *)

(** ** The masks of the sub components of a mask *)

Lemma nth_label_grid m r c :
  is_rect m = true ->
  nth c (nth r (label_grid m) []) 0%nat = label_at m (r, c).
Proof.
  intros Hrect. unfold label_grid.
  destruct (Nat.lt_ge_cases r (height m)) as [Hr | Hr];
    [destruct (Nat.lt_ge_cases c (width m)) as [Hc | Hc] |].
  - rewrite (nth_indep _ [] (map (fun c => label_at m (0%nat, c)) (seq 0 (width m))))
      by (rewrite length_map, length_seq; exact Hr).
    rewrite (map_nth (fun r => map (fun c => label_at m (r, c)) (seq 0 (width m)))
                     (seq 0 (height m)) 0%nat r).
    rewrite seq_nth by exact Hr. cbn [Nat.add].
    rewrite (nth_indep _ 0%nat (label_at m (r, 0%nat)))
      by (rewrite length_map, length_seq; exact Hc).
    rewrite (map_nth (fun c => label_at m (r, c)) (seq 0 (width m)) 0%nat c).
    rewrite seq_nth by exact Hc. reflexivity.
  - rewrite (nth_indep _ [] (map (fun c => label_at m (0%nat, c)) (seq 0 (width m))))
      by (rewrite length_map, length_seq; exact Hr).
    rewrite (map_nth (fun r => map (fun c => label_at m (r, c)) (seq 0 (width m)))
                     (seq 0 (height m)) 0%nat r).
    rewrite nth_overflow by (rewrite length_map, length_seq; exact Hc).
    symmetry. apply label_at_background. unfold fg.
    rewrite pix_outside by (auto; right; exact Hc). reflexivity.
  - rewrite (nth_overflow (map _ _)) by (rewrite length_map, length_seq; exact Hr).
    destruct c; cbn; symmetry; apply label_at_background; unfold fg;
      rewrite pix_outside by (auto; left; exact Hr); reflexivity.
Qed.

(** The mask of the component [k >= 1]: 1 on the pixels with label [k],
    0 elsewhere. *)
Lemma pix_component m k p :
  is_rect m = true -> k <> 0%nat ->
  pix (Analyzer.np_where_01 (label_grid m) k) p =
  if decide (label_at m p = k) then 1 else 0.
Proof.
  intros Hrect Hk. destruct p as [r c]. unfold pix, Analyzer.np_where_01.
  cbn [fst snd].
  set (f := fun l : nat => if decide (l = k) then 1 else 0).
  change [] with (map f []) at 1. rewrite (map_nth (map f) (label_grid m) [] r).
  assert (Hf0 : f 0%nat = 0) by (unfold f; destruct (decide (0%nat = k)); congruence).
  rewrite <- Hf0 at 1. rewrite (map_nth f _ 0%nat c).
  rewrite nth_label_grid by exact Hrect. reflexivity.
Qed.

Lemma fg_component m k p :
  is_rect m = true -> k <> 0%nat ->
  fg (Analyzer.np_where_01 (label_grid m) k) p = true <-> label_at m p = k.
Proof.
  intros Hrect Hk. unfold fg. rewrite pix_component by assumption.
  destruct (decide (label_at m p = k)); cbn; split; congruence.
Qed.

Lemma height_label_grid m : length (label_grid m) = height m.
Proof. unfold label_grid. rewrite length_map, length_seq. reflexivity. Qed.

Lemma height_component m k :
  height (Analyzer.np_where_01 (label_grid m) k) = height m.
Proof.
  unfold height, Analyzer.np_where_01. rewrite length_map.
  apply height_label_grid.
Qed.

Lemma rows_component m k row :
  In row (Analyzer.np_where_01 (label_grid m) k) -> length row = width m.
Proof.
  unfold Analyzer.np_where_01, label_grid. rewrite map_map, in_map_iff.
  intros (r & <- & _). rewrite !length_map, length_seq. reflexivity.
Qed.

Lemma width_component m k :
  is_rect m = true ->
  width (Analyzer.np_where_01 (label_grid m) k) = width m.
Proof.
  intros Hrect.
  destruct (Analyzer.np_where_01 (label_grid m) k) as [| row rest] eqn:Hc.
  - pose proof (height_component m k) as Hh. rewrite Hc in Hh.
    unfold height in Hh. destruct m; [reflexivity | discriminate].
  - cbn. apply (rows_component m k). rewrite Hc. left. reflexivity.
Qed.

Lemma is_rect_component m k :
  is_rect m = true -> is_rect (Analyzer.np_where_01 (label_grid m) k) = true.
Proof.
  intros Hrect. unfold is_rect. apply forallb_forall. intros row Hrow.
  apply Nat.eqb_eq. rewrite width_component by exact Hrect.
  eapply rows_component, Hrow.
Qed.


Lemma is_binary_component labels k :
  is_binary (Analyzer.np_where_01 labels k) = true.
Proof.
  unfold is_binary, Analyzer.np_where_01. apply forallb_forall. intros row Hrow.
  apply in_map_iff in Hrow as (lrow & <- & _). apply forallb_forall.
  intros z Hz. apply in_map_iff in Hz as (l & <- & _).
  destruct (decide (l = k)); reflexivity.
Qed.



Lemma ncomponents_zero m :
  is_rect m = true -> ncomponents m = 0%nat <-> forall p, fg m p = false.
Proof.
  intros Hrect. unfold ncomponents, extract_mask_connected_components. cbn [snd].
  split.
  - intros Hlen p. destruct (fg m p) eqn:Hfg; [| reflexivity].
    pose proof (rep_in_reps m p Hrect Hfg) as Hin.
    destruct (reps m); [destruct Hin | discriminate].
  - intros Hall. destruct (reps m) as [| p l] eqn:Hreps; [reflexivity |].
    assert (Hin : In p (reps m)) by (rewrite Hreps; left; reflexivity).
    apply in_reps in Hin as (_ & Hfg & _). rewrite Hall in Hfg. discriminate.
Qed.

Section Component.
Variable m : mask.
Variable k : nat.
Hypothesis rect_m : is_rect m = true.
Hypothesis k_range : (1 <= k <= ncomponents m)%nat.

Let e : mask := Analyzer.np_where_01 (label_grid m) k.





End Component.

Lemma are_mask_connected_counts a b :
  are_mask_connected a b =
  negb (ncomponents (merge_masks a b) =? ncomponents a + ncomponents b)%nat.
Proof.
  unfold are_mask_connected, ncomponents, extract_mask_connected_components.
  cbn [snd]. destruct (_ =? _)%nat; reflexivity.
Qed.

(** Two different components of a 0/1 mask share no pixel and have no
    neighbouring pixels. *)
Lemma components_apart m i j :
  is_rect m = true -> is_binary m = true ->
  i <> 0%nat -> j <> 0%nat -> i <> j ->
  disjoint_masks (Analyzer.np_where_01 (label_grid m) i)
                 (Analyzer.np_where_01 (label_grid m) j) = true /\
  apart_masks (Analyzer.np_where_01 (label_grid m) i)
              (Analyzer.np_where_01 (label_grid m) j) = true.
Proof.
  intros Hrect Hbin Hi Hj Hij. split.
  - apply forallb_forall. intros p _. apply negb_true_iff, andb_false_iff.
    destruct (fg (Analyzer.np_where_01 (label_grid m) i) p) eqn:Hpi; [| auto].
    right. apply not_true_iff_false. intros Hpj.
    apply fg_component in Hpi, Hpj; try assumption. congruence.
  - apply forallb_forall. intros p _.
    destruct (fg (Analyzer.np_where_01 (label_grid m) i) p) eqn:Hpi; [| reflexivity].
    cbn [negb orb]. apply forallb_forall. intros q Hq.
    apply negb_true_iff, not_true_iff_false. intros Hqj.
    apply neighbourhood_spec in Hq.
    apply fg_component in Hpi, Hqj; try assumption.
    assert (Hfp : fg m p = true).
    { destruct (fg m p) eqn:H; [reflexivity |].
      rewrite label_at_background in Hpi by exact H. congruence. }
    assert (Hfq : fg m q = true).
    { destruct (fg m q) eqn:H; [reflexivity |].
      rewrite label_at_background in Hqj by exact H. congruence. }
    apply Hij. rewrite <- Hpi, <- Hqj.
    apply label_at_region; try assumption.
    apply rst_step. split; [exact Hq |]. unfold joined.
    rewrite Hfp, !fg_bit by assumption. reflexivity.
Qed.

Lemma mask_ext (a b : mask) :
  is_rect a = true -> is_rect b = true ->
  height a = height b -> width a = width b ->
  (forall p, pix a p = pix b p) -> a = b.
Proof.
  intros Ha Hb Hh Hw Hpix. apply (nth_ext a b [] []); [exact Hh |].
  intros r Hr. apply (nth_ext _ _ 0 0).
  - rewrite !is_rect_row; unfold height in *; (lia || assumption).
  - intros c _. apply (Hpix (r, c)).
Qed.

Lemma pix_as_bool m p :
  pix (Analyzer.as_bool m) p = if pix m p =? 0 then 0 else 1.
Proof.
  destruct p as [r c]. unfold pix, Analyzer.as_bool. cbn [fst snd].
  set (f := fun z : Z => if z =? 0 then 0 else 1).
  change [] with (map f []) at 1. rewrite (map_nth (map f) m [] r).
  change 0 with (f 0) at 1. rewrite (map_nth f _ 0 c). reflexivity.
Qed.

Lemma shape_as_bool m :
  height (Analyzer.as_bool m) = height m /\
  width (Analyzer.as_bool m) = width m /\
  (is_rect m = true -> is_rect (Analyzer.as_bool m) = true).
Proof.
  unfold height, width, is_rect, Analyzer.as_bool.
  split; [apply length_map | split].
  - destruct m; [reflexivity | apply length_map].
  - rewrite !forallb_forall. intros H row Hrow.
    apply in_map_iff in Hrow as (row0 & <- & Hrow0).
    destruct m as [| r0 m']; [destruct Hrow0 |].
    cbn. rewrite !length_map. apply (H row0 Hrow0).
Qed.

(** The pixels of a fold of merges of 0/1 masks of one shape. *)
Lemma fold_merge_fg (h w : nat) (l : list mask) (acc : mask) :
  is_rect acc = true -> is_binary acc = true ->
  height acc = h -> width acc = w ->
  Forall (fun c => is_rect c = true /\ is_binary c = true /\
                   height c = h /\ width c = w) l ->
  is_rect (fold_left merge_masks l acc) = true /\
  is_binary (fold_left merge_masks l acc) = true /\
  height (fold_left merge_masks l acc) = h /\
  width (fold_left merge_masks l acc) = w /\
  forall p, fg (fold_left merge_masks l acc) p =
            fg acc p || existsb (fun c => fg c p) l.
Proof.
  intros Hr Hb Hh Hw Hl. revert acc Hr Hb Hh Hw.
  induction Hl as [| c l (Hcr & Hcb & Hch & Hcw) _ IH]; intros acc Hr Hb Hh Hw.
  - cbn. repeat split; try assumption. intros p. rewrite orb_false_r. reflexivity.
  - cbn [fold_left existsb].
    assert (Hs : same_shape acc c = true).
    { unfold same_shape. rewrite Hh, Hw, Hch, Hcw, !Nat.eqb_refl. reflexivity. }
    destruct (IH (merge_masks acc c)) as (H1 & H2 & H3 & H4 & H5).
    + apply is_rect_merge; assumption.
    + apply merge_masks_binary; assumption.
    + rewrite height_merge by assumption. exact Hh.
    + rewrite width_merge by assumption. exact Hw.
    + repeat split; try assumption. intros p. rewrite H5.
      rewrite fg_merge by (try apply binary_nonneg; assumption).
      symmetry. apply orb_assoc.
Qed.

Section SplitObject.
Variable class_names : list string.
Variables (sel : list Analyzer.region) (index : nat) (x : Analyzer.region).
Variable label : string.
Hypothesis sel_index : sel !! index = Some x.
Hypothesis label_x : py_get class_names (Analyzer.r_class_id x) = Some label.
Hypothesis not_galaxy : Analyzer.is_galaxy label = false.

Let part (i : nat) : Analyzer.region :=
  Analyzer.mkRegion (Analyzer.np_where_01 (label_grid (Analyzer.r_mask x)) (S i))
                    (Analyzer.r_class_id x) (Analyzer.r_score x).

Lemma split_object_parts :
  Analyzer.split_object class_names sel index =
  Some (map part (seq 0 (ncomponents (Analyzer.r_mask x)))).
Proof.
  unfold Analyzer.split_object. rewrite sel_index. cbn.
  rewrite label_x. cbn. rewrite not_galaxy. reflexivity.
Qed.

Hypothesis rect_x : is_rect (Analyzer.r_mask x) = true.


(** X2: merging the parts of a split object gives back its mask (as a
    0/1 mask): the split loses no pixel and adds none. *)
Theorem split_object_merge_round_trip :
  (1 <= ncomponents (Analyzer.r_mask x))%nat ->
  exists parts,
    Analyzer.split_object class_names sel index = Some parts /\
    merge_all (Analyzer.r_mask <$> parts) = Some (Analyzer.as_bool (Analyzer.r_mask x)).
Proof.
  intros Hn. exists (map part (seq 0 (ncomponents (Analyzer.r_mask x)))).
  split; [apply split_object_parts |].
  set (m := Analyzer.r_mask x) in *.
  set (comp := fun i : nat => Analyzer.np_where_01 (label_grid m) (S i)).
  assert (Hmasks : Analyzer.r_mask <$> map part (seq 0 (ncomponents m)) =
                   map comp (seq 0 (ncomponents m))).
  { generalize (seq 0 (ncomponents m)). intros l.
    induction l as [| i l IH]; cbn; [reflexivity |]. f_equal. exact IH. }
  rewrite Hmasks.
  assert (Hcomp : forall i, is_rect (comp i) = true /\ is_binary (comp i) = true /\
                            height (comp i) = height m /\ width (comp i) = width m).
  { intros i. unfold comp. split; [apply is_rect_component, rect_x |].
    split; [apply is_binary_component |].
    split; [apply height_component | apply width_component, rect_x]. }
  destruct (ncomponents m) as [| n] eqn:Hnm; [lia |].
  cbn [seq map merge_all]. f_equal.
  destruct (fold_merge_fg (height m) (width m) (map comp (seq 1 n)) (comp 0%nat))
    as (Hr & Hb & Hh & Hw & Hfg); try apply Hcomp.
  { apply Forall_forall. intros c Hc.
    apply list_elem_of_In, in_map_iff in Hc as (i & <- & _). apply Hcomp. }
  destruct (shape_as_bool m) as (Hah & Haw & Har).
  apply mask_ext; try assumption; try congruence; [apply Har, rect_x |].
  intros p. rewrite pix_as_bool.
  assert (Hfold : fg (fold_left merge_masks (map comp (seq 1 n)) (comp 0%nat)) p =
                  fg m p).
  { rewrite Hfg. apply eq_true_iff_eq. rewrite orb_true_iff, existsb_exists.
    unfold comp. rewrite fg_component by (exact rect_x || lia). split.
    - intros [Hp | (c & Hc & Hp)].
      + destruct (fg m p) eqn:H; [reflexivity |].
        rewrite label_at_background in Hp by exact H. lia.
      + apply in_map_iff in Hc as (i & <- & _).
        apply fg_component in Hp; [| exact rect_x | lia].
        destruct (fg m p) eqn:H; [reflexivity |].
        rewrite label_at_background in Hp by exact H. lia.
    - intros Hp. pose proof (label_at_range m p rect_x Hp) as Hrange.
      rewrite Hnm in Hrange.
      destruct (decide (label_at m p = 1%nat)) as [H1 | H1]; [left; exact H1 |].
      right. exists (comp (label_at m p - 1)%nat). split.
      + apply in_map_iff. exists (label_at m p - 1)%nat.
        split; [reflexivity | apply in_seq; lia].
      + unfold comp. apply fg_component; [exact rect_x | lia | lia]. }
  unfold fg in Hfold at 2.
  destruct (pix m p =? 0) eqn:Hz; cbn in Hfold.
  - unfold fg in Hfold. apply negb_false_iff, Z.eqb_eq in Hfold. exact Hfold.
  - apply fg_bit; assumption.
Qed.

(** X3: the parts of one object with a 0/1 mask are not connected to
    each other: [are_mask_connected] answers false for every two of
    them. *)
Theorem split_object_parts_not_connected (i j : nat) (y z : Analyzer.region)
    (parts : list Analyzer.region) :
  is_binary (Analyzer.r_mask x) = true ->
  Analyzer.split_object class_names sel index = Some parts ->
  parts !! i = Some y -> parts !! j = Some z -> i <> j ->
  are_mask_connected (Analyzer.r_mask y) (Analyzer.r_mask z) = false.
Proof.
  intros Hbin Hsplit Hy Hz Hij. rewrite split_object_parts in Hsplit.
  injection Hsplit as <-.
  assert (Hlookup : forall i y, map part (seq 0 (ncomponents (Analyzer.r_mask x))) !! i
                                = Some y ->
                    (i < ncomponents (Analyzer.r_mask x))%nat /\ y = part i).
  { intros i0 y0 H. pose proof (lookup_lt_Some _ _ _ H) as Hlt.
    rewrite length_map, length_seq in Hlt. split; [exact Hlt |].
    pose proof (nth_lookup_Some _ _ (part 0%nat) _ H) as Hn. rewrite <- Hn.
    rewrite (map_nth part _ 0%nat i0), seq_nth by exact Hlt. reflexivity. }
  apply Hlookup in Hy as [Hi ->], Hz as [Hj ->].
  cbn [part Analyzer.r_mask].
  set (m := Analyzer.r_mask x) in *.
  destruct (components_apart m (S i) (S j)) as [Hd Ha]; try assumption; try lia.
  rewrite are_mask_connected_counts, negb_false_iff. apply Nat.eqb_eq.
  apply ncomponents_merge_apart; try assumption;
    try apply is_rect_component; try apply is_binary_component;
    try (apply binary_nonneg, is_binary_component); try assumption.
  unfold same_shape.
  rewrite !height_component, !width_component, !Nat.eqb_refl by assumption.
  reflexivity.
Qed.
End SplitObject.


Lemma split_object_merge_round_trip_witness :
  exists parts,
    Analyzer.split_object ["bkg"; "sidelobe"; "source"]%string
      [Analyzer.mkRegion [[2; 0; 1]; [2; 0; 0]] 1 (9 # 10)] 0 = Some parts /\
    merge_all (Analyzer.r_mask <$> parts) = Some [[1; 0; 1]; [1; 0; 0]].
Proof.
  apply (split_object_merge_round_trip
           ["bkg"; "sidelobe"; "source"]%string
           [Analyzer.mkRegion [[2; 0; 1]; [2; 0; 0]] 1 (9 # 10)] 0
           (Analyzer.mkRegion [[2; 0; 1]; [2; 0; 0]] 1 (9 # 10))
           "sidelobe"%string); try reflexivity.
  vm_compute. lia.
Defined.

Lemma split_object_parts_not_connected_witness :
  are_mask_connected [[1; 0; 0]; [1; 0; 0]] [[0; 0; 1]; [0; 0; 0]] = false.
Proof.
  apply (split_object_parts_not_connected
           ["bkg"; "sidelobe"; "source"]%string
           [Analyzer.mkRegion [[1; 0; 1]; [1; 0; 0]] 1 (9 # 10)] 0
           (Analyzer.mkRegion [[1; 0; 1]; [1; 0; 0]] 1 (9 # 10))
           "sidelobe"%string eq_refl eq_refl eq_refl eq_refl 0 1
           (Analyzer.mkRegion [[1; 0; 0]; [1; 0; 0]] 1 (9 # 10))
           (Analyzer.mkRegion [[0; 0; 1]; [0; 0; 0]] 1 (9 # 10))
           [Analyzer.mkRegion [[1; 0; 0]; [1; 0; 0]] 1 (9 # 10);
            Analyzer.mkRegion [[0; 0; 1]; [0; 0; 0]] 1 (9 # 10)]);
    try reflexivity.
  lia.
Defined.

(** ** The merge of two masks and the test for connected masks *)

Lemma is_binary_of_pix m :
  (forall p, bit (pix m p)) -> is_binary m = true.
Proof.
  intros H. unfold is_binary. apply forallb_forall. intros row Hrow.
  apply forallb_forall. intros z Hz.
  apply In_nth with (d := []) in Hrow as (r & _ & <-).
  apply In_nth with (d := 0) in Hz as (c & _ & <-).
  destruct (H (r, c)) as [H0 | H1]; unfold pix in *; cbn [fst snd] in *.
  - rewrite H0. reflexivity.
  - rewrite H1. reflexivity.
Qed.

Section MergeOr.
Variables a b : mask.
Hypothesis rect_a : is_rect a = true.
Hypothesis rect_b : is_rect b = true.
Hypothesis shape_ab : same_shape a b = true.

(** X4: the merge of two 0/1 masks of one shape is the union of their
    foregrounds: a 0/1 mask of the same shape that holds 1 exactly at
    the pixels that are set in one of the masks. *)
Theorem merge_masks_union :
  is_binary a = true -> is_binary b = true ->
  is_rect (merge_masks a b) = true /\
  same_shape (merge_masks a b) a = true /\
  is_binary (merge_masks a b) = true /\
  forall p, pix (merge_masks a b) p = if fg a p || fg b p then 1 else 0.
Proof.
  intros Hba Hbb.
  pose proof (binary_nonneg a Hba) as Hna. pose proof (binary_nonneg b Hbb) as Hnb.
  assert (Hpix : forall p, pix (merge_masks a b) p =
                           if fg a p || fg b p then 1 else 0).
  { intros p. rewrite pix_merge by assumption. unfold fg, clip.
    pose proof (nonneg_pix a p Hna). pose proof (nonneg_pix b p Hnb).
    destruct (pix a p + pix b p >? 1) eqn:Hgt, (pix a p =? 0) eqn:Ha,
             (pix b p =? 0) eqn:Hb; cbn; lia. }
  split; [apply is_rect_merge; assumption |].
  split.
  { unfold same_shape. rewrite height_merge, width_merge, !Nat.eqb_refl by assumption.
    reflexivity. }
  split; [| exact Hpix].
  apply is_binary_of_pix. intros p. rewrite Hpix.
  destruct (fg a p || fg b p); [right | left]; reflexivity.
Qed.

(** X5: the test for connected masks does not depend on the order of
    its two masks. *)
Theorem are_mask_connected_sym :
  are_mask_connected a b = are_mask_connected b a.
Proof.
  clear rect_a rect_b shape_ab.
  rewrite !are_mask_connected_counts, (merge_masks_comm a b).
  rewrite (Nat.add_comm (ncomponents a)). reflexivity.
Qed.

(** X6: a 0/1 mask whose foreground lies inside the foreground of the
    other 0/1 mask is connected to it, unless it has no foreground pixel
    at all: an empty mask is connected to no mask, and a mask with a
    foreground pixel is connected to itself. *)
Theorem are_mask_connected_inside :
  is_binary a = true -> is_binary b = true ->
  (forall p, fg b p = true -> fg a p = true) ->
  are_mask_connected a b = false <-> forall p, fg b p = false.
Proof.
  intros Hba Hbb Hsub.
  assert (Hmerge : merge_masks a b = a).
  { apply mask_ext; try assumption.
    - apply is_rect_merge; assumption.
    - apply height_merge; assumption.
    - apply width_merge; assumption.
    - intros p. rewrite pix_merge by assumption. unfold clip.
      destruct (fg b p) eqn:Hp.
      + rewrite (fg_bit b p Hbb Hp), (fg_bit a p Hba (Hsub p Hp)). reflexivity.
      + unfold fg in Hp. apply negb_false_iff, Z.eqb_eq in Hp. rewrite Hp.
        destruct (binary_pix a p Hba) as [-> | ->]; reflexivity. }
  rewrite are_mask_connected_counts, Hmerge, negb_false_iff, Nat.eqb_eq.
  rewrite <- ncomponents_zero by exact rect_b. lia.
Qed.
End MergeOr.

Lemma merge_masks_union_witness :
  is_rect (merge_masks [[1; 0; 0]; [0; 0; 1]] [[1; 0; 1]; [0; 0; 0]]) = true /\
  same_shape (merge_masks [[1; 0; 0]; [0; 0; 1]] [[1; 0; 1]; [0; 0; 0]])
             [[1; 0; 0]; [0; 0; 1]] = true /\
  is_binary (merge_masks [[1; 0; 0]; [0; 0; 1]] [[1; 0; 1]; [0; 0; 0]]) = true /\
  forall p, pix (merge_masks [[1; 0; 0]; [0; 0; 1]] [[1; 0; 1]; [0; 0; 0]]) p =
            if fg [[1; 0; 0]; [0; 0; 1]] p || fg [[1; 0; 1]; [0; 0; 0]] p
            then 1 else 0.
Proof.
  apply (merge_masks_union [[1; 0; 0]; [0; 0; 1]] [[1; 0; 1]; [0; 0; 0]]);
    reflexivity.
Defined.

Lemma are_mask_connected_inside_witness :
  are_mask_connected [[1; 1; 0]; [0; 0; 1]] [[0; 0; 0]; [0; 0; 0]] = false <->
  forall p, fg [[0; 0; 0]; [0; 0; 0]] p = false.
Proof.
  apply (are_mask_connected_inside [[1; 1; 0]; [0; 0; 1]] [[0; 0; 0]; [0; 0; 0]]);
    try reflexivity.
  intros [r c]. unfold fg, pix. cbn [fst snd].
  destruct r as [| [| [| r]]]; destruct c as [| [| [| [| c]]]]; cbn; discriminate.
Defined.

(** ** A group without a positive score *)

Lemma py_get_last {X} (l : list X) : py_get l (-1) = last l.
Proof.
  unfold py_get, py_index. rewrite last_lookup.
  destruct l as [| x l]; [reflexivity |].
  cbn [length]. replace (- Z.of_nat (S (length l)) <=? -1) with true
    by (symmetry; apply Z.leb_le; lia).
  cbn. f_equal. lia.
Qed.

Section NoPositiveScore.
Variable merged : list Analyzer.region.

Lemma scan_group_no_positive (group : list nat) :
  (forall k, In k group ->
             exists y, merged !! k = Some y /\ (Analyzer.r_score y <= 0)%Q) ->
  Analyzer.scan_group merged group (0%Q, -1, 0) = Some (0%Q, -1, 0).
Proof.
  induction group as [| k group IH]; intros H; [reflexivity |].
  cbn [Analyzer.scan_group].
  destruct (H k (or_introl eq_refl)) as (y & -> & Hy). cbn.
  unfold Qgtb. apply Qle_bool_iff in Hy. rewrite Hy. cbn.
  apply IH. intros k' Hk'. apply H. right. exact Hk'.
Qed.

(** X8: for a group of overlapping instances none of which has a
    positive score the scan keeps the index -1, and the instance that is
    kept is the last instance of the list, of the group or not. *)
Theorem select_best_no_positive_score (group : list nat) :
  (forall k, In k group ->
             exists y, merged !! k = Some y /\ (Analyzer.r_score y <= 0)%Q) ->
  Analyzer.index_best_of merged group = Some (-1) /\
  Analyzer.select_best merged group = last merged.
Proof.
  intros H. unfold Analyzer.select_best, Analyzer.index_best_of.
  rewrite scan_group_no_positive by exact H. cbn.
  split; [reflexivity | apply py_get_last].
Qed.
End NoPositiveScore.

Lemma select_best_no_positive_score_witness :
  Analyzer.index_best_of
    [Analyzer.mkRegion [[1; 1; 0; 0]] 1 0; Analyzer.mkRegion [[0; 1; 1; 0]] 2 0;
     Analyzer.mkRegion [[0; 0; 0; 1]] 2 (1 # 2)] [0; 1]%nat = Some (-1) /\
  Analyzer.select_best
    [Analyzer.mkRegion [[1; 1; 0; 0]] 1 0; Analyzer.mkRegion [[0; 1; 1; 0]] 2 0;
     Analyzer.mkRegion [[0; 0; 0; 1]] 2 (1 # 2)] [0; 1]%nat =
  Some (Analyzer.mkRegion [[0; 0; 0; 1]] 2 (1 # 2)).
Proof.
  apply (select_best_no_positive_score
           [Analyzer.mkRegion [[1; 1; 0; 0]] 1 0; Analyzer.mkRegion [[0; 1; 1; 0]] 2 0;
            Analyzer.mkRegion [[0; 0; 0; 1]] 2 (1 # 2)] [0; 1]%nat).
  intros k [<- | [<- | []]]; eexists; (split; [reflexivity |]); cbn; apply Qle_refl.
Defined.

(** ** The counters of [Analyzer.compute_performances] *)

Lemma py_index_lt len i k : py_index len i = Some k -> (k < len)%nat.
Proof.
  unfold py_index. intros H.
  destruct ((0 <=? i) && (i <? Z.of_nat len)) eqn:H1.
  - injection H as <-. apply andb_true_iff in H1. lia.
  - destruct ((i <? 0) && (- Z.of_nat len <=? i)) eqn:H2; [| discriminate].
    injection H as <-. apply andb_true_iff in H2. lia.
Qed.

Lemma py_index_range len i :
  is_Some (py_index len i) <-> - Z.of_nat len <= i < Z.of_nat len.
Proof.
  unfold py_index.
  destruct ((0 <=? i) && (i <? Z.of_nat len)) eqn:H1.
  - apply andb_true_iff in H1. split; [lia | eauto].
  - destruct ((i <? 0) && (- Z.of_nat len <=? i)) eqn:H2.
    + apply andb_true_iff in H2. split; [lia | eauto].
    + apply andb_false_iff in H1, H2. split.
      * intros [k Hk]. discriminate.
      * lia.
Qed.

Lemma incr_spec v i v' :
  incr v i = Some v' ->
  exists k, py_index (length v) i = Some k /\ (k < length v)%nat /\
            v' = <[k := nth k v 0 + 1]> v.
Proof.
  unfold incr. intros H.
  destruct (py_index _ _) as [k |] eqn:Hk; cbn in H; [| discriminate].
  destruct (v !! k) as [x |] eqn:Hx; cbn in H; [| discriminate].
  injection H as <-. exists k. split; [reflexivity |].
  split; [eapply py_index_lt, Hk |].
  rewrite (nth_lookup_Some _ _ 0 _ Hx). reflexivity.
Qed.

Lemma incr_is_Some v i :
  is_Some (incr v i) <-> - Z.of_nat (length v) <= i < Z.of_nat (length v).
Proof.
  rewrite <- py_index_range. unfold incr. split.
  - intros [v' H]. destruct (py_index _ _); [eauto | discriminate].
  - intros [k Hk]. rewrite Hk. cbn.
    destruct (lookup_lt_is_Some_2 v k (py_index_lt _ _ _ Hk)) as [x ->]. cbn. eauto.
Qed.

Lemma incr2_spec M i j M' :
  incr2 M i j = Some M' ->
  exists k row', py_index (length M) i = Some k /\ (k < length M)%nat /\
                 incr (nth k M []) j = Some row' /\ M' = <[k := row']> M.
Proof.
  unfold incr2. intros H.
  destruct (py_index _ _) as [k |] eqn:Hk; cbn in H; [| discriminate].
  destruct (M !! k) as [row |] eqn:Hrow; cbn in H; [| discriminate].
  destruct (incr row j) as [row' |] eqn:Hrow'; cbn in H; [| discriminate].
  injection H as <-. exists k, row'. split; [reflexivity |].
  split; [eapply py_index_lt, Hk |].
  rewrite (nth_lookup_Some _ _ [] _ Hrow). auto.
Qed.

Lemma sum_insert (v : list Z) (k : nat) (x : Z) :
  (k < length v)%nat ->
  foldr Z.add 0 (<[k := x]> v) = foldr Z.add 0 v - nth k v 0 + x.
Proof.
  revert k. induction v as [| y v IH]; intros [| k] Hk; cbn in *; try lia.
  rewrite IH by lia. lia.
Qed.

Lemma nth_le_sum (v : list Z) (k : nat) :
  (forall j, 0 <= nth j v 0) -> nth k v 0 <= foldr Z.add 0 v.
Proof.
  revert k. induction v as [| y v IH]; intros k H.
  - destruct k; cbn; lia.
  - assert (Hv : forall j, 0 <= nth j v 0) by (intros j; apply (H (S j))).
    pose proof (H 0%nat) as Hy. cbn in Hy.
    destruct k as [| k]; cbn.
    + pose proof (IH 0%nat Hv). pose proof (Hv 0%nat). lia.
    + pose proof (IH k Hv). lia.
Qed.

Lemma sum_replicate_zero (n : nat) : foldr Z.add 0 (replicate n 0) = 0.
Proof. induction n as [| n IH]; cbn; [reflexivity | exact IH]. Qed.

Lemma loop_invariant {S X} (body : S -> X -> option S) (P : nat -> S -> Prop)
    (l : list X) :
  (forall k x st st', l !! k = Some x -> P k st -> body st x = Some st' ->
                      P (Datatypes.S k) st') ->
  forall st st', P 0%nat st -> Analyzer.loop body l st = Some st' ->
                 P (length l) st'.
Proof.
  revert P. induction l as [| x l IH]; intros P Hstep st st' H0 H.
  - injection H as <-. exact H0.
  - cbn in H. destruct (body st x) as [st1 |] eqn:Hx; cbn in H; [| discriminate].
    apply (IH (fun k => P (Datatypes.S k))) with (st := st1); [| | exact H].
    + intros k y s s' Hk. apply (Hstep (Datatypes.S k)). exact Hk.
    + apply (Hstep 0%nat x st st1); [reflexivity | exact H0 | exact Hx].
Qed.

Lemma loop_is_Some {S X} (body : S -> X -> option S) (P : S -> Prop)
    (l : list X) :
  (forall x st, In x l -> P st -> exists st', body st x = Some st' /\ P st') ->
  forall st, P st -> exists st', Analyzer.loop body l st = Some st' /\ P st'.
Proof.
  induction l as [| x l IH]; intros Hstep st H0.
  - exists st. split; [reflexivity | exact H0].
  - destruct (Hstep x st (or_introl eq_refl) H0) as (st1 & Hx & H1).
    cbn. rewrite Hx. cbn. apply IH; [| exact H1].
    intros y s Hy. apply Hstep. right. exact Hy.
Qed.

Lemma loop_app_Some {S X} (body : S -> X -> option S) (l1 l2 : list X) st st' :
  Analyzer.loop body (l1 ++ l2) st = Some st' ->
  exists st1, Analyzer.loop body l1 st = Some st1 /\
              Analyzer.loop body l2 st1 = Some st'.
Proof.
  revert st. induction l1 as [| x l1 IH]; intros st H; [eauto |].
  cbn in *. destruct (body st x) as [s |]; cbn in *; [| discriminate].
  apply IH, H.
Qed.

Section PerfCounters.
Variable get_iou : bbox -> bbox -> Q.
Variable iou_thr : Q.
Variables (gt : Analyzer.gt_data) (det : Analyzer.det_data).
Variable n : nat.

(** What the loop over the true objects keeps: the shapes of the two
    arrays, the number of the objects counted, non-negative cells, and no
    more associations in a row of the matrix than true objects of the
    class. *)
Let true_inv (k : nat) (st : list Z * list (list Z)) : Prop :=
  length (fst st) = n /\ length (snd st) = n /\
  (forall i, (i < n)%nat -> length (nth i (snd st) []) = n) /\
  foldr Z.add 0 (fst st) = Z.of_nat k /\
  (forall i j, 0 <= nth j (nth i (snd st) []) 0) /\
  (forall i, foldr Z.add 0 (nth i (snd st) []) <= nth i (fst st) 0).

Lemma true_inv_init :
  true_inv 0 (replicate n 0, replicate n (replicate n 0)).
Proof.
  unfold true_inv. cbn [fst snd]. rewrite !length_replicate.
  split; [reflexivity |]. split; [reflexivity |].
  split; [intros i Hi; rewrite nth_replicate by exact Hi; apply length_replicate |].
  split; [apply sum_replicate_zero |].
  assert (Hrow : forall i, nth i (replicate n (replicate n 0)) [] = replicate n 0 \/
                           nth i (replicate n (replicate n 0)) [] = []).
  { intros i. destruct (Nat.lt_ge_cases i n) as [Hi | Hi].
    - left. apply nth_replicate, Hi.
    - right. apply nth_overflow. rewrite length_replicate. exact Hi. }
  assert (Hcell : forall j, nth j (replicate n 0) 0 = 0).
  { intros j. destruct (Nat.lt_ge_cases j n) as [Hj | Hj].
    - apply nth_replicate, Hj.
    - apply nth_overflow. rewrite length_replicate. exact Hj. }
  split.
  - intros i j. destruct (Hrow i) as [-> | ->]; [rewrite Hcell; lia |].
    destruct j; cbn; lia.
  - intros i. rewrite Hcell.
    destruct (Hrow i) as [-> | ->]; [rewrite sum_replicate_zero; lia | cbn; lia].
Qed.

Lemma true_inv_step k i st st' :
  true_inv k st ->
  Analyzer.match_true_object get_iou iou_thr gt det st i = Some st' ->
  true_inv (S k) st'.
Proof.
  destruct st as [nobjs_true confusion_matrix].
  unfold true_inv. cbn [fst snd]. intros (Hl1 & Hl2 & Hrows & Hsum & Hpos & Hle) H.
  unfold Analyzer.match_true_object in H. cbn [fst snd] in H.
  destruct (Analyzer.bboxes_gt gt !! i) as [bbox_gt |]; cbn in H; [| discriminate].
  destruct (Analyzer.class_ids_gt_merged gt !! i) as [class_id_gt |]; cbn in H;
    [| discriminate].
  destruct (incr nobjs_true class_id_gt) as [nobjs_true' |] eqn:Hincr; cbn in H;
    [| discriminate].
  destruct (mapM _ _) as [ids |]; cbn in H; [| discriminate].
  apply incr_spec in Hincr as (c & Hc & Hclt & ->).
  assert (Hnt : forall i0, nth i0 (<[c := nth c nobjs_true 0 + 1]> nobjs_true) 0 =
                           if decide (i0 = c) then nth c nobjs_true 0 + 1
                           else nth i0 nobjs_true 0).
  { intros i0. destruct (decide (i0 = c)) as [-> | Hne].
    - apply nth_insert_eq, Hclt.
    - apply nth_insert_ne. congruence. }
  assert (Hsum' : foldr Z.add 0 (<[c := nth c nobjs_true 0 + 1]> nobjs_true) =
                  Z.of_nat (S k)).
  { rewrite sum_insert by exact Hclt. lia. }
  destruct (_ =? -1).
  - injection H as <-. cbn [fst snd]. rewrite length_insert.
    repeat split; try assumption.
    intros i0. rewrite Hnt. specialize (Hle i0).
    destruct (decide (i0 = c)) as [-> | _]; lia.
  - destruct (py_get _ _) as [class_id_det |]; cbn in H; [| discriminate].
    destruct (incr2 confusion_matrix class_id_gt class_id_det)
      as [confusion_matrix' |] eqn:Hincr2; cbn in H; [| discriminate].
    injection H as <-. cbn [fst snd].
    apply incr2_spec in Hincr2 as (c' & row' & Hc' & Hc'lt & Hrow' & ->).
    rewrite Hl2, <- Hl1, Hc in Hc'. injection Hc' as <-.
    apply incr_spec in Hrow' as (d & Hd & Hdlt & ->).
    set (row := nth c confusion_matrix []) in *.
    assert (Hcm : forall i0, nth i0 (<[c := <[d := nth d row 0 + 1]> row]>
                                       confusion_matrix) [] =
                             if decide (i0 = c) then <[d := nth d row 0 + 1]> row
                             else nth i0 confusion_matrix []).
    { intros i0. destruct (decide (i0 = c)) as [-> | Hne].
      - apply nth_insert_eq, Hc'lt.
      - apply nth_insert_ne. congruence. }
    rewrite !length_insert.
    split; [exact Hl1 |]. split; [exact Hl2 |].
    split.
    { intros i0 Hi0. rewrite Hcm. destruct (decide (i0 = c)) as [-> | _].
      - rewrite length_insert. apply Hrows, Hi0.
      - apply Hrows, Hi0. }
    split; [exact Hsum' |]. split.
    + intros i0 j. rewrite Hcm. destruct (decide (i0 = c)) as [-> | _]; [| apply Hpos].
      destruct (decide (j = d)) as [-> | Hne].
      * rewrite nth_insert_eq by exact Hdlt. pose proof (Hpos c d). fold row in H. lia.
      * rewrite nth_insert_ne by congruence. apply Hpos.
    + intros i0. rewrite Hcm, Hnt. specialize (Hle i0).
      destruct (decide (i0 = c)) as [-> | _]; [| exact Hle].
      rewrite sum_insert by exact Hdlt. fold row in Hle. lia.
Qed.

(** What the loop over the detected objects keeps: the shapes, the
    number of the objects counted, and for every class no more rightly
    classified objects than detected objects. *)
Let det_inv (k : nat) (st : list Z * list Z) : Prop :=
  length (fst st) = n /\ length (snd st) = n /\
  foldr Z.add 0 (fst st) = Z.of_nat k /\
  (forall j, 0 <= nth j (snd st) 0 <= nth j (fst st) 0).

Lemma det_inv_init : det_inv 0 (replicate n 0, replicate n 0).
Proof.
  unfold det_inv. cbn [fst snd]. rewrite !length_replicate.
  split; [reflexivity |]. split; [reflexivity |].
  split; [apply sum_replicate_zero |].
  intros j. destruct (Nat.lt_ge_cases j n) as [Hj | Hj].
  - rewrite nth_replicate by exact Hj. lia.
  - rewrite nth_overflow by (rewrite length_replicate; exact Hj). lia.
Qed.

Lemma det_inv_step k j st st' :
  det_inv k st ->
  Analyzer.match_det_object get_iou iou_thr gt det st j = Some st' ->
  det_inv (S k) st'.
Proof.
  destruct st as [nobjs_det nobjs_det_right].
  unfold det_inv. cbn [fst snd]. intros (Hl1 & Hl2 & Hsum & Hle) H.
  unfold Analyzer.match_det_object in H. cbn [fst snd] in H.
  destruct (Analyzer.bboxes det !! j) as [bbox |]; cbn in H; [| discriminate].
  destruct (Analyzer.class_ids_final det !! j) as [class_id |]; cbn in H;
    [| discriminate].
  destruct (incr nobjs_det class_id) as [nobjs_det' |] eqn:Hincr; cbn in H;
    [| discriminate].
  destruct (mapM _ _) as [ids |]; cbn in H; [| discriminate].
  apply incr_spec in Hincr as (c & Hc & Hclt & ->).
  assert (Hnd : forall j0, nth j0 (<[c := nth c nobjs_det 0 + 1]> nobjs_det) 0 =
                           if decide (j0 = c) then nth c nobjs_det 0 + 1
                           else nth j0 nobjs_det 0).
  { intros j0. destruct (decide (j0 = c)) as [-> | Hne].
    - apply nth_insert_eq, Hclt.
    - apply nth_insert_ne. congruence. }
  assert (Hsum' : foldr Z.add 0 (<[c := nth c nobjs_det 0 + 1]> nobjs_det) =
                  Z.of_nat (S k)).
  { rewrite sum_insert by exact Hclt. lia. }
  assert (Hsame : forall st'',
             st'' = (<[c := nth c nobjs_det 0 + 1]> nobjs_det, nobjs_det_right) ->
             length (fst st'') = n /\ length (snd st'') = n /\
             foldr Z.add 0 (fst st'') = Z.of_nat (S k) /\
             (forall j0, 0 <= nth j0 (snd st'') 0 <= nth j0 (fst st'') 0)).
  { intros st'' ->. cbn [fst snd]. rewrite length_insert.
    repeat split; try assumption; try apply Hle.
    rewrite Hnd. specialize (Hle j0). destruct (decide (j0 = c)) as [-> | _]; lia. }
  destruct (_ =? -1); [injection H as <-; apply Hsame; reflexivity |].
  destruct (py_get _ _) as [class_id_det |]; cbn in H; [| discriminate].
  destruct (decide (class_id = class_id_det)) as [_ | _];
    [| injection H as <-; apply Hsame; reflexivity].
  destruct (incr nobjs_det_right class_id) as [nobjs_det_right' |] eqn:Hincr';
    cbn in H; [| discriminate].
  injection H as <-. cbn [fst snd].
  apply incr_spec in Hincr' as (c' & Hc' & Hc'lt & ->).
  rewrite Hl2, <- Hl1, Hc in Hc'. injection Hc' as <-.
  rewrite !length_insert. repeat split; try assumption.
  - destruct (decide (j0 = c)) as [-> | Hne].
    + rewrite nth_insert_eq by exact Hc'lt. specialize (Hle c). lia.
    + rewrite nth_insert_ne by congruence. apply Hle.
  - rewrite Hnd. destruct (decide (j0 = c)) as [-> | Hne].
    + rewrite nth_insert_eq by exact Hc'lt. specialize (Hle c). lia.
    + rewrite nth_insert_ne by congruence. apply Hle.
Qed.

Lemma compute_performances_inv p :
  Analyzer.compute_performances get_iou n iou_thr gt det = Some p ->
  true_inv (length (Analyzer.bboxes_gt gt))
           (Analyzer.nobjs_true p, Analyzer.confusion_matrix p) /\
  det_inv (length (Analyzer.bboxes det))
          (Analyzer.nobjs_det p, Analyzer.nobjs_det_right p) /\
  Analyzer.confusion_matrix_norm p =
    normalize n (Analyzer.confusion_matrix p) (Analyzer.nobjs_true p)
              (replicate n (replicate n 0%Q)) /\
  Analyzer.purity p =
    purities n (Analyzer.nobjs_det p) (Analyzer.nobjs_det_right p)
             (replicate n 0%Q).
Proof.
  unfold Analyzer.compute_performances. intros H.
  destruct (Analyzer.loop (Analyzer.match_true_object _ _ _ _) _ _)
    as [[nobjs_true confusion_matrix] |] eqn:Htrue; cbn in H; [| discriminate].
  destruct (Analyzer.loop (Analyzer.match_det_object _ _ _ _) _ _)
    as [[nobjs_det nobjs_det_right] |] eqn:Hdet; cbn in H; [| discriminate].
  injection H as <-. cbn.
  split; [| split; [| split; reflexivity]].
  - apply (loop_invariant _ true_inv) in Htrue.
    + rewrite length_seq in Htrue. exact Htrue.
    + intros k x st st' _. apply true_inv_step.
    + apply true_inv_init.
  - apply (loop_invariant _ det_inv) in Hdet.
    + rewrite length_seq in Hdet. exact Hdet.
    + intros k x st st' _. apply det_inv_step.
    + apply det_inv_init.
Qed.
Lemma sum_nonneg (v : list Z) :
  (forall j, 0 <= nth j v 0) -> 0 <= foldr Z.add 0 v.
Proof.
  intros H. pose proof (nth_le_sum v 0 H). pose proof (H 0%nat). lia.
Qed.

Lemma ratio_bounds (x y : Z) :
  0 <= x <= y -> 0 < y -> (0 <= inject_Z x / inject_Z y <= 1)%Q.
Proof.
  intros Hx Hy.
  assert (Hpos : (0 < inject_Z y)%Q).
  { change 0%Q with (inject_Z 0). rewrite <- Zlt_Qlt. exact Hy. }
  split.
  - apply Qle_shift_div_l; [exact Hpos |]. rewrite Qmult_0_l.
    change 0%Q with (inject_Z 0). rewrite <- Zle_Qle. lia.
  - apply Qle_shift_div_r; [exact Hpos |]. rewrite Qmult_1_l.
    rewrite <- Zle_Qle. lia.
Qed.

(** X9: the counters of one image add up: [nobjs_true] counts every true
    object once and [nobjs_det] every detected object once; for every
    class there are no more rightly classified detections than detections
    and no more associations in its row of the confusion matrix than true
    objects. *)
Theorem compute_performances_counts (p : Analyzer.perf) :
  Analyzer.compute_performances get_iou n iou_thr gt det = Some p ->
  foldr Z.add 0 (Analyzer.nobjs_true p) =
    Z.of_nat (length (Analyzer.bboxes_gt gt)) /\
  foldr Z.add 0 (Analyzer.nobjs_det p) =
    Z.of_nat (length (Analyzer.bboxes det)) /\
  forall c,
    0 <= nth c (Analyzer.nobjs_det_right p) 0 <= nth c (Analyzer.nobjs_det p) 0 /\
    0 <= foldr Z.add 0 (nth c (Analyzer.confusion_matrix p) []) <=
      nth c (Analyzer.nobjs_true p) 0.
Proof.
  intros H. apply compute_performances_inv in H as (Htrue & Hdet & _ & _).
  destruct Htrue as (_ & _ & _ & Hsum & Hpos & Hle).
  destruct Hdet as (_ & _ & Hsum' & Hle'). cbn [fst snd] in *.
  split; [exact Hsum |]. split; [exact Hsum' |].
  intros c. split; [apply Hle' |].
  split; [apply sum_nonneg, Hpos | apply Hle].
Qed.

(** X10: every entry of the normalized confusion matrix of one image and
    every purity lies between 0 and 1. *)
Theorem compute_performances_rates (p : Analyzer.perf) (i j : nat) :
  Analyzer.compute_performances get_iou n iou_thr gt det = Some p ->
  (i < n)%nat -> (j < n)%nat ->
  (0 <= nth j (nth i (Analyzer.confusion_matrix_norm p) []) 0 <= 1)%Q /\
  (0 <= nth j (Analyzer.purity p) 0 <= 1)%Q.
Proof.
  intros H Hi Hj. apply compute_performances_inv in H as (Htrue & Hdet & -> & ->).
  destruct Htrue as (_ & _ & _ & _ & Hpos & Hle).
  destruct Hdet as (_ & _ & _ & Hle'). cbn [fst snd] in *.
  assert (Hzero : (0 <= 0 <= 1)%Q) by (split; discriminate).
  split.
  - rewrite normalize_nth by (try rewrite length_replicate; lia).
    destruct (_ <=? 0) eqn:Hnorm.
    + rewrite !nth_replicate by lia. exact Hzero.
    + rewrite normalize_row_nth;
        [| lia | rewrite nth_replicate by lia; apply length_replicate].
      apply Z.leb_gt in Hnorm. apply ratio_bounds; [| exact Hnorm].
      split; [apply Hpos |].
      etransitivity; [apply nth_le_sum, Hpos | apply Hle].
  - rewrite purities_nth by (try rewrite length_replicate; lia).
    destruct (_ <=? 0) eqn:Hnorm.
    + rewrite nth_replicate by lia. exact Hzero.
    + apply Z.leb_gt in Hnorm. apply ratio_bounds; [apply Hle' | exact Hnorm].
Qed.
End PerfCounters.

Lemma compute_performances_counts_witness :
  let gt := Analyzer.mkGt [] [1; 1] [(10, 10, 50, 50); (60, 60, 80, 80)] [] in
  let det := Analyzer.mkDet [] [1; 2] [] [(12, 12, 48, 48); (0, 0, 5, 5)] [] in
  exists p,
    Analyzer.compute_performances box_iou 3 (6 # 10) gt det = Some p /\
    foldr Z.add 0 (Analyzer.nobjs_true p) = 2 /\
    foldr Z.add 0 (Analyzer.nobjs_det p) = 2 /\
    forall c,
      0 <= nth c (Analyzer.nobjs_det_right p) 0 <= nth c (Analyzer.nobjs_det p) 0 /\
      0 <= foldr Z.add 0 (nth c (Analyzer.confusion_matrix p) []) <=
        nth c (Analyzer.nobjs_true p) 0.
Proof.
  intros gt det.
  destruct (Analyzer.compute_performances box_iou 3 (6 # 10) gt det) as [p |] eqn:H;
    [| vm_compute in H; discriminate].
  exists p. split; [reflexivity |].
  apply (compute_performances_counts box_iou (6 # 10) gt det 3 p H).
Defined.

Lemma compute_performances_rates_witness :
  let gt := Analyzer.mkGt [] [1; 1] [(10, 10, 50, 50); (60, 60, 80, 80)] [] in
  let det := Analyzer.mkDet [] [1; 2] [] [(12, 12, 48, 48); (0, 0, 5, 5)] [] in
  exists p,
    Analyzer.compute_performances box_iou 3 (6 # 10) gt det = Some p /\
    (0 <= nth 1 (nth 1 (Analyzer.confusion_matrix_norm p) []) 0 <= 1)%Q /\
    (0 <= nth 1 (Analyzer.purity p) 0 <= 1)%Q.
Proof.
  intros gt det.
  destruct (Analyzer.compute_performances box_iou 3 (6 # 10) gt det) as [p |] eqn:H;
    [| vm_compute in H; discriminate].
  exists p. split; [reflexivity |].
  apply (compute_performances_rates box_iou (6 # 10) gt det 3 p 1 1 H); lia.
Defined.

(** ** When [Analyzer.compute_performances] raises *)

Lemma best_match_range iou_thr ious :
  Analyzer.best_match iou_thr ious = -1 \/
  exists j, Analyzer.best_match iou_thr ious = Z.of_nat j /\ (j < length ious)%nat.
Proof.
  unfold Analyzer.best_match.
  destruct (scan_iou_spec iou_thr ious 0 (-1, 0%Q)) as (_ & _ & [[-> _] | H]).
  - left. reflexivity.
  - right. destruct H as (i & Hi & Hlookup & _). exists i.
    split; [exact Hi | eapply lookup_lt_Some, Hlookup].
Qed.

Lemma mapM_lookup_seq {X} (l : list X) (m : nat) :
  (m <= length l)%nat -> is_Some (mapM (fun j : nat => l !! j) (seq 0 m)).
Proof.
  intros Hm. apply mapM_is_Some, Forall_forall. intros j Hj.
  apply list_elem_of_In, in_seq in Hj. cbn. apply lookup_lt_is_Some_2. lia.
Qed.

Lemma loop_round {S} (body : S -> nat -> option S) (N i : nat) st st' :
  Analyzer.loop body (seq 0 N) st = Some st' -> (i < N)%nat ->
  exists st1 st2, Analyzer.loop body (seq 0 i) st = Some st1 /\
                  body st1 i = Some st2.
Proof.
  intros H Hi. replace N with (i + Datatypes.S (N - Datatypes.S i))%nat in H by lia.
  rewrite seq_app in H. apply loop_app_Some in H as (st1 & H1 & H2).
  exists st1. cbn in H2.
  destruct (body st1 i) as [st2 |]; [eauto | discriminate].
Qed.

Section PerfDefined.
Variable get_iou : bbox -> bbox -> Q.
Variable iou_thr : Q.
Variables (gt : Analyzer.gt_data) (det : Analyzer.det_data).
Variable n : nat.

Let in_range (c : Z) : Prop := - Z.of_nat n <= c < Z.of_nat n.

Hypothesis gt_aligned :
  length (Analyzer.class_ids_gt_merged gt) = length (Analyzer.bboxes_gt gt).
Hypothesis det_aligned :
  length (Analyzer.class_ids_final det) = length (Analyzer.bboxes det).

Let shaped_true (st : list Z * list (list Z)) : Prop :=
  length (fst st) = n /\ length (snd st) = n /\
  forall i, (i < n)%nat -> length (nth i (snd st) []) = n.

Let shaped_det (st : list Z * list Z) : Prop :=
  length (fst st) = n /\ length (snd st) = n.

Lemma shaped_true_loop l st st' :
  shaped_true st ->
  Analyzer.loop (Analyzer.match_true_object get_iou iou_thr gt det) l st = Some st' ->
  shaped_true st'.
Proof.
  revert st. induction l as [| i l IH]; intros st Hst H.
  - injection H as <-. exact Hst.
  - cbn [Analyzer.loop] in H.
    destruct (Analyzer.match_true_object _ _ _ _ st i) as [st1 |] eqn:Hstep;
      cbn in H; [| discriminate].
    apply (IH st1); [| exact H]. clear IH H.
    destruct st as [nobjs_true confusion_matrix].
    destruct Hst as (Hl1 & Hl2 & Hrows). cbn [fst snd] in *.
    unfold Analyzer.match_true_object in Hstep. cbn [fst snd] in Hstep.
    destruct (Analyzer.bboxes_gt gt !! i); cbn in Hstep; [| discriminate].
    destruct (Analyzer.class_ids_gt_merged gt !! i) as [class_id_gt |];
      cbn in Hstep; [| discriminate].
    destruct (incr nobjs_true class_id_gt) as [nobjs_true' |] eqn:Hincr;
      cbn in Hstep; [| discriminate].
    destruct (mapM _ _); cbn in Hstep; [| discriminate].
    apply incr_spec in Hincr as (c & _ & _ & ->).
    destruct (_ =? -1).
    + injection Hstep as <-. split; [| split]; cbn [fst snd];
        [rewrite length_insert; exact Hl1 | exact Hl2 | exact Hrows].
    + destruct (py_get _ _) as [class_id_det |]; cbn in Hstep; [| discriminate].
      destruct (incr2 _ _ _) as [confusion_matrix' |] eqn:Hincr2; cbn in Hstep;
        [| discriminate].
      injection Hstep as <-.
      apply incr2_spec in Hincr2 as (c' & row' & _ & Hc' & Hrow' & ->).
      apply incr_spec in Hrow' as (d & _ & _ & ->).
      split; [| split]; cbn [fst snd]; rewrite ?length_insert; try assumption.
      intros i0 Hi0. destruct (decide (i0 = c')) as [-> | Hne].
      * rewrite nth_insert_eq by exact Hc'. rewrite length_insert. apply Hrows, Hi0.
      * rewrite nth_insert_ne by congruence. apply Hrows, Hi0.
Qed.

Lemma shaped_det_loop l st st' :
  shaped_det st ->
  Analyzer.loop (Analyzer.match_det_object get_iou iou_thr gt det) l st = Some st' ->
  shaped_det st'.
Proof.
  revert st. induction l as [| j l IH]; intros st Hst H.
  - injection H as <-. exact Hst.
  - cbn [Analyzer.loop] in H.
    destruct (Analyzer.match_det_object _ _ _ _ st j) as [st1 |] eqn:Hstep;
      cbn in H; [| discriminate].
    apply (IH st1); [| exact H]. clear IH H.
    destruct st as [nobjs_det nobjs_det_right].
    destruct Hst as (Hl1 & Hl2). cbn [fst snd] in *.
    unfold Analyzer.match_det_object in Hstep. cbn [fst snd] in Hstep.
    destruct (Analyzer.bboxes det !! j); cbn in Hstep; [| discriminate].
    destruct (Analyzer.class_ids_final det !! j) as [class_id |];
      cbn in Hstep; [| discriminate].
    destruct (incr nobjs_det class_id) as [nobjs_det' |] eqn:Hincr;
      cbn in Hstep; [| discriminate].
    destruct (mapM _ _); cbn in Hstep; [| discriminate].
    apply incr_spec in Hincr as (c & _ & _ & ->).
    assert (Hsame : shaped_det (<[c := nth c nobjs_det 0 + 1]> nobjs_det,
                                nobjs_det_right)).
    { split; cbn [fst snd]; [rewrite length_insert; exact Hl1 | exact Hl2]. }
    destruct (_ =? -1); [injection Hstep as <-; exact Hsame |].
    destruct (py_get _ _) as [class_id_det |]; cbn in Hstep; [| discriminate].
    destruct (decide (class_id = class_id_det));
      [| injection Hstep as <-; exact Hsame].
    destruct (incr nobjs_det_right class_id) as [nobjs_det_right' |] eqn:Hincr';
      cbn in Hstep; [| discriminate].
    injection Hstep as <-. apply incr_spec in Hincr' as (c' & _ & _ & ->).
    split; cbn [fst snd]; rewrite length_insert; assumption.
Qed.

Lemma shaped_true_init :
  shaped_true (replicate n 0, replicate n (replicate n 0)).
Proof.
  split; [| split]; cbn [fst snd]; rewrite ?length_replicate; try reflexivity.
  intros i Hi. rewrite nth_replicate by exact Hi. apply length_replicate.
Qed.

Lemma shaped_det_init : shaped_det (replicate n 0, replicate n 0).
Proof. split; cbn [fst snd]; apply length_replicate. Qed.

Lemma incr_defined v c :
  length v = n -> in_range c -> is_Some (incr v c).
Proof. intros Hv Hc. apply incr_is_Some. rewrite Hv. exact Hc. Qed.

Lemma incr2_defined M c d :
  length M = n -> (forall i, (i < n)%nat -> length (nth i M []) = n) ->
  in_range c -> in_range d -> is_Some (incr2 M c d).
Proof.
  intros HM Hrows Hc Hd. unfold incr2.
  destruct (proj2 (py_index_range (length M) c)) as [k Hk];
    [rewrite HM; exact Hc |].
  rewrite Hk. cbn. pose proof (py_index_lt _ _ _ Hk) as Hlt.
  destruct (lookup_lt_is_Some_2 M k Hlt) as [row Hrow]. rewrite Hrow. cbn.
  destruct (incr_defined row d) as [row' Hrow']; [| exact Hd |].
  - rewrite <- (nth_lookup_Some _ _ [] _ Hrow). apply Hrows. lia.
  - rewrite Hrow'. cbn. eauto.
Qed.

(** X11: with one class id for every box, [compute_performances] returns
    exactly when every class id of the true and of the detected objects is
    an index of the arrays, that is at least [-n_classes] and less than
    [n_classes]; any other class id raises the IndexError. *)
Theorem compute_performances_defined_iff :
  is_Some (Analyzer.compute_performances get_iou n iou_thr gt det) <->
  Forall (fun c => - Z.of_nat n <= c < Z.of_nat n) (Analyzer.class_ids_gt_merged gt) /\
  Forall (fun c => - Z.of_nat n <= c < Z.of_nat n) (Analyzer.class_ids_final det).
Proof.
  unfold Analyzer.compute_performances. split.
  - intros [p H].
    destruct (Analyzer.loop (Analyzer.match_true_object _ _ _ _) _ _)
      as [[nobjs_true confusion_matrix] |] eqn:Htrue; cbn in H; [| discriminate].
    destruct (Analyzer.loop (Analyzer.match_det_object _ _ _ _) _ _)
      as [[nobjs_det nobjs_det_right] |] eqn:Hdet; cbn in H; [| discriminate].
    clear H. split; apply Forall_lookup; intros i c Hc.
    + pose proof (lookup_lt_Some _ _ _ Hc) as Hi. rewrite gt_aligned in Hi.
      destruct (loop_round _ _ i _ _ Htrue Hi) as (st1 & st2 & Hpre & Hstep).
      apply shaped_true_loop in Hpre as (Hl1 & _); [| apply shaped_true_init].
      unfold Analyzer.match_true_object in Hstep. rewrite Hc in Hstep.
      destruct (Analyzer.bboxes_gt gt !! i); cbn in Hstep; [| discriminate].
      destruct (incr (fst st1) c) as [v |] eqn:Hincr; cbn in Hstep; [| discriminate].
      rewrite <- Hl1. apply incr_is_Some. eauto.
    + pose proof (lookup_lt_Some _ _ _ Hc) as Hi. rewrite det_aligned in Hi.
      destruct (loop_round _ _ i _ _ Hdet Hi) as (st1 & st2 & Hpre & Hstep).
      apply shaped_det_loop in Hpre as (Hl1 & _); [| apply shaped_det_init].
      unfold Analyzer.match_det_object in Hstep. rewrite Hc in Hstep.
      destruct (Analyzer.bboxes det !! i); cbn in Hstep; [| discriminate].
      destruct (incr (fst st1) c) as [v |] eqn:Hincr; cbn in Hstep; [| discriminate].
      rewrite <- Hl1. apply incr_is_Some. eauto.
  - intros [Hgt Hdet]. rewrite Forall_lookup in Hgt, Hdet.
    destruct (loop_is_Some (Analyzer.match_true_object get_iou iou_thr gt det)
                shaped_true (seq 0 (length (Analyzer.bboxes_gt gt))))
      with (st := (replicate n 0, replicate n (replicate n 0)))
      as ([nobjs_true confusion_matrix] & -> & _); [| apply shaped_true_init |].
    { intros i st Hi Hst. apply in_seq in Hi.
      assert (Hsome : is_Some (Analyzer.match_true_object get_iou iou_thr gt det st i)).
      { destruct Hst as (Hl1 & Hl2 & Hrows).
        unfold Analyzer.match_true_object.
        destruct (lookup_lt_is_Some_2 (Analyzer.bboxes_gt gt) i) as [b ->]; [lia |].
        destruct (lookup_lt_is_Some_2 (Analyzer.class_ids_gt_merged gt) i)
          as [c Hc]; [lia |].
        rewrite Hc. cbn.
        destruct (incr_defined (fst st) c Hl1 (Hgt i c Hc)) as [v ->]. cbn.
        destruct (mapM_lookup_seq (Analyzer.class_ids_final det)
                    (length (Analyzer.bboxes det))) as [ids ->]; [lia |].
        cbn.
        destruct (best_match_range iou_thr
                    ((fun bbox => get_iou bbox b) <$> Analyzer.bboxes det))
          as [-> | (j & -> & Hj)]; [cbn; eauto |].
        rewrite length_fmap in Hj.
        replace (Z.of_nat j =? -1) with false by (symmetry; apply Z.eqb_neq; lia).
        rewrite py_get_nat.
        destruct (lookup_lt_is_Some_2 (Analyzer.class_ids_final det) j)
          as [d Hd]; [lia |].
        rewrite Hd. cbn.
        destruct (incr2_defined (snd st) c d Hl2 Hrows (Hgt i c Hc) (Hdet j d Hd))
          as [M ->].
        cbn. eauto. }
      destruct Hsome as [st' Hst']. exists st'. split; [exact Hst' |].
      apply (shaped_true_loop [i] st st' Hst). cbn. rewrite Hst'. reflexivity. }
    cbn.
    destruct (loop_is_Some (Analyzer.match_det_object get_iou iou_thr gt det)
                shaped_det (seq 0 (length (Analyzer.bboxes det))))
      with (st := (replicate n 0, replicate n 0))
      as ([nobjs_det nobjs_det_right] & -> & _); [| apply shaped_det_init |].
    { intros j st Hj Hst. apply in_seq in Hj.
      assert (Hsome : is_Some (Analyzer.match_det_object get_iou iou_thr gt det st j)).
      { destruct Hst as (Hl1 & Hl2).
        unfold Analyzer.match_det_object.
        destruct (lookup_lt_is_Some_2 (Analyzer.bboxes det) j) as [b ->]; [lia |].
        destruct (lookup_lt_is_Some_2 (Analyzer.class_ids_final det) j)
          as [c Hc]; [lia |].
        rewrite Hc. cbn.
        destruct (incr_defined (fst st) c Hl1 (Hdet j c Hc)) as [v ->]. cbn.
        destruct (mapM_lookup_seq (Analyzer.class_ids_gt_merged gt)
                    (length (Analyzer.bboxes_gt gt))) as [ids ->]; [lia |].
        cbn.
        destruct (best_match_range iou_thr
                    ((fun bbox_gt => get_iou b bbox_gt) <$> Analyzer.bboxes_gt gt))
          as [-> | (i & -> & Hi)]; [cbn; eauto |].
        rewrite length_fmap in Hi.
        replace (Z.of_nat i =? -1) with false by (symmetry; apply Z.eqb_neq; lia).
        rewrite py_get_nat.
        destruct (lookup_lt_is_Some_2 (Analyzer.class_ids_gt_merged gt) i)
          as [d ->]; [lia |].
        cbn. destruct (decide (c = d)); [| eauto].
        destruct (incr_defined (snd st) c Hl2 (Hdet j c Hc)) as [w ->].
        cbn. eauto. }
      destruct Hsome as [st' Hst']. exists st'. split; [exact Hst' |].
      apply (shaped_det_loop [j] st st' Hst). cbn. rewrite Hst'. reflexivity. }
    cbn. eauto.
Qed.
End PerfDefined.

Lemma compute_performances_defined_iff_witness :
  let gt := Analyzer.mkGt [] [1; -1] [(10, 10, 50, 50); (60, 60, 80, 80)] [] in
  let det := Analyzer.mkDet [] [1; 2] [] [(12, 12, 48, 48); (0, 0, 5, 5)] [] in
  is_Some (Analyzer.compute_performances box_iou 3 (6 # 10) gt det) <->
  Forall (fun c => - Z.of_nat 3 <= c < Z.of_nat 3) [1; -1] /\
  Forall (fun c => - Z.of_nat 3 <= c < Z.of_nat 3) [1; 2].
Proof.
  intros gt det.
  apply (compute_performances_defined_iff box_iou (6 # 10) gt det 3); reflexivity.
Defined.

(** ** An image without detections *)

Lemma nth_replicate_same {X} (n j : nat) (x : X) : nth j (replicate n x) x = x.
Proof.
  destruct (Nat.lt_ge_cases j n) as [Hj | Hj].
  - apply nth_replicate, Hj.
  - apply nth_overflow. rewrite length_replicate. exact Hj.
Qed.

Lemma purities_skip n nobjs_det nobjs_det_right purity :
  (forall j, nth j nobjs_det 0 <= 0) ->
  purities n nobjs_det nobjs_det_right purity = purity.
Proof.
  intros H. unfold purities. generalize (seq 0 n). intros l. revert purity.
  induction l as [| j l IH]; intros purity; [reflexivity |].
  cbn [fold_left]. destruct (_ <=? 0) eqn:Hj; [apply IH |].
  apply Z.leb_gt in Hj. specialize (H j). lia.
Qed.

Section NoDetection.
Variable get_iou : bbox -> bbox -> Q.
Variable iou_thr : Q.
Variables (gt : Analyzer.gt_data) (det : Analyzer.det_data).
Variable n : nat.
Hypothesis no_detection : Analyzer.bboxes det = [].

Lemma true_loop_no_detection l st st' :
  Analyzer.loop (Analyzer.match_true_object get_iou iou_thr gt det) l st = Some st' ->
  snd st' = snd st.
Proof.
  revert st. induction l as [| i l IH]; intros st H.
  - injection H as <-. reflexivity.
  - cbn [Analyzer.loop] in H.
    destruct (Analyzer.match_true_object _ _ _ _ st i) as [st1 |] eqn:Hstep;
      cbn in H; [| discriminate].
    rewrite (IH st1 H). clear IH H.
    unfold Analyzer.match_true_object in Hstep. rewrite no_detection in Hstep.
    destruct (Analyzer.bboxes_gt gt !! i); cbn in Hstep; [| discriminate].
    destruct (Analyzer.class_ids_gt_merged gt !! i); cbn in Hstep; [| discriminate].
    destruct (incr (fst st) _); cbn in Hstep; [| discriminate].
    injection Hstep as <-. reflexivity.
Qed.

(** X12: for an image without detected boxes the confusion matrix, its
    normalized form, the number of detected and of rightly detected
    objects and the purity are all zero: only [nobjs_true] counts. *)
Theorem compute_performances_no_detection (p : Analyzer.perf) :
  Analyzer.compute_performances get_iou n iou_thr gt det = Some p ->
  Analyzer.confusion_matrix p = replicate n (replicate n 0) /\
  Analyzer.nobjs_det p = replicate n 0 /\
  Analyzer.nobjs_det_right p = replicate n 0 /\
  Analyzer.purity p = replicate n 0%Q /\
  forall i j, (i < n)%nat -> (j < n)%nat ->
              (nth j (nth i (Analyzer.confusion_matrix_norm p) []) 0 == 0)%Q.
Proof.
  unfold Analyzer.compute_performances. intros H.
  destruct (Analyzer.loop (Analyzer.match_true_object _ _ _ _) _ _)
    as [[nobjs_true confusion_matrix] |] eqn:Htrue; cbn in H; [| discriminate].
  apply true_loop_no_detection in Htrue. cbn [snd] in Htrue. subst confusion_matrix.
  rewrite no_detection in H. cbn in H. injection H as <-. cbn.
  split; [reflexivity |]. split; [reflexivity |]. split; [reflexivity |].
  split.
  - apply purities_skip. intros j. rewrite nth_replicate_same. lia.
  - intros i j Hi Hj.
    rewrite normalize_nth by (try rewrite length_replicate; lia).
    destruct (_ <=? 0).
    + rewrite !nth_replicate by lia. reflexivity.
    + rewrite normalize_row_nth;
        [| lia | rewrite nth_replicate by lia; apply length_replicate].
      rewrite !nth_replicate by lia. unfold Qdiv. apply Qmult_0_l.
Qed.
End NoDetection.

Lemma compute_performances_no_detection_witness :
  let gt := Analyzer.mkGt [] [1; 2] [(10, 10, 50, 50); (60, 60, 80, 80)] [] in
  let det := Analyzer.mkDet [] [] [] [] [] in
  exists p,
    Analyzer.compute_performances box_iou 3 (6 # 10) gt det = Some p /\
    Analyzer.nobjs_true p = [0; 1; 1] /\
    Analyzer.confusion_matrix p = replicate 3 (replicate 3 0) /\
    Analyzer.purity p = replicate 3 0%Q.
Proof.
  intros gt det.
  destruct (Analyzer.compute_performances box_iou 3 (6 # 10) gt det) as [p |] eqn:H;
    [| vm_compute in H; discriminate].
  exists p. split; [reflexivity |].
  destruct (compute_performances_no_detection box_iou (6 # 10) gt det 3 eq_refl p H)
    as (Hcm & _ & _ & Hpur & _).
  split; [| split; [exact Hcm | exact Hpur]].
  vm_compute in H. injection H as <-. reflexivity.
Defined.

(** ** The pass of the tester over the dataset *)

Lemma firstn_imap {X Y} (f : nat -> X -> Y) (k : nat) (l : list X) :
  firstn k (imap f l) = imap f (firstn k l).
Proof.
  revert f k. induction l as [| x l IH]; intros f [| k]; cbn; try reflexivity.
  f_equal. apply IH.
Qed.

Section TestCap.
Variable inspect : nat -> Z -> option (Z * Analyzer.perf).

(** X13: with a cap [n_max_img > 0] the result of the pass depends on
    the first [n_max_img - 1] images of the dataset only: the images
    from that position on are never analyzed. *)
Theorem test_reads_first_images_only (tester : ModelTester.t)
    (image_ids image_ids' : list Z) :
  0 < ModelTester.n_max_img tester ->
  firstn (Z.to_nat (ModelTester.n_max_img tester - 1)) image_ids =
  firstn (Z.to_nat (ModelTester.n_max_img tester - 1)) image_ids' ->
  ModelTester.test_with inspect tester image_ids =
  ModelTester.test_with inspect tester image_ids'.
Proof.
  intros Hcap Hsame. unfold ModelTester.test_with.
  rewrite !test_loop_visited. unfold ModelTester.visited.
  replace (ModelTester.n_max_img tester >? 0) with true by lia.
  rewrite Z.sub_0_r, !firstn_imap, Hsame. reflexivity.
Qed.
End TestCap.

Lemma test_reads_first_images_only_witness :
  let inspect := fun (index : nat) image_id =>
    Analyzer.inspect_results tight_bbox box_iou
      (Analyzer.mkAnalyzer 2 (Some demo_dataset) demo_detect (7 # 10) (6 # 10))
      image_id in
  ModelTester.test_with inspect (ModelTester.with_n_max_img (ModelTester.init 2) 3)
                        [0; 0; 0; 0] =
  ModelTester.test_with inspect (ModelTester.with_n_max_img (ModelTester.init 2) 3)
                        [0; 0].
Proof.
  intros inspect.
  apply (test_reads_first_images_only inspect
           (ModelTester.with_n_max_img (ModelTester.init 2) 3) [0; 0; 0; 0] [0; 0]);
    [cbn; lia | reflexivity].
Defined.

Lemma nth_add_vec (u v : list Z) (j : nat) :
  length u = length v ->
  nth j (ModelTester.add_vec u v) 0 = nth j u 0 + nth j v 0.
Proof.
  revert v j. induction u as [| x u IH]; intros [| y v] [| j] H; cbn in *;
    try lia.
  apply IH. lia.
Qed.

Lemma length_add_vec (u v : list Z) :
  length u = length v -> length (ModelTester.add_vec u v) = length u.
Proof.
  intros H. unfold ModelTester.add_vec. rewrite length_zip_with. lia.
Qed.

Lemma sum_add_vec (u v : list Z) :
  length u = length v ->
  foldr Z.add 0 (ModelTester.add_vec u v) = foldr Z.add 0 u + foldr Z.add 0 v.
Proof.
  revert v. induction u as [| x u IH]; intros [| y v] H; cbn in *; try lia.
  rewrite IH by lia. lia.
Qed.

Lemma nth_add_mat (M N : list (list Z)) (i : nat) :
  length M = length N ->
  nth i (ModelTester.add_mat M N) [] =
  ModelTester.add_vec (nth i M []) (nth i N []).
Proof.
  revert N i. induction M as [| x M IH]; intros [| y N] [| i] H; cbn in *;
    try lia; try reflexivity.
  apply IH. lia.
Qed.

Section TestTotals.
Variable n : nat.

(** What the totals of the tester keep. *)
Let good (cm : list (list Z)) (nt nd ndr : list Z) : Prop :=
  length nt = n /\ length cm = n /\
  (forall i, (i < n)%nat -> length (nth i cm []) = n) /\
  (forall i j, 0 <= nth j (nth i cm []) 0) /\
  (forall i, foldr Z.add 0 (nth i cm []) <= nth i nt 0) /\
  length nd = n /\ length ndr = n /\
  (forall j, 0 <= nth j ndr 0 <= nth j nd 0).

Lemma good_add cm nt nd ndr cm' nt' nd' ndr' :
  good cm nt nd ndr -> good cm' nt' nd' ndr' ->
  good (ModelTester.add_mat cm cm') (ModelTester.add_vec nt nt')
       (ModelTester.add_vec nd nd') (ModelTester.add_vec ndr ndr').
Proof.
  intros (H1 & H2 & H3 & H4 & H5 & H6 & H7 & H8)
         (H1' & H2' & H3' & H4' & H5' & H6' & H7' & H8').
  assert (Hrow : forall i, length (nth i cm []) = length (nth i cm' [])).
  { intros i. destruct (Nat.lt_ge_cases i n) as [Hi | Hi].
    - rewrite H3, H3' by exact Hi. reflexivity.
    - rewrite !nth_overflow by lia. reflexivity. }
  unfold good. rewrite !length_add_vec by lia.
  split; [exact H1 |]. split.
  { unfold ModelTester.add_mat. rewrite length_zip_with. lia. }
  split.
  { intros i Hi. rewrite nth_add_mat by lia.
    rewrite length_add_vec by apply Hrow. apply H3, Hi. }
  split.
  { intros i j. rewrite nth_add_mat by lia. rewrite nth_add_vec by apply Hrow.
    specialize (H4 i j). specialize (H4' i j). lia. }
  split.
  { intros i. rewrite nth_add_mat by lia. rewrite sum_add_vec by apply Hrow.
    rewrite nth_add_vec by lia. specialize (H5 i). specialize (H5' i). lia. }
  split; [exact H6 |]. split; [exact H7 |].
  intros j. rewrite !nth_add_vec by lia. specialize (H8 j). specialize (H8' j). lia.
Qed.

Lemma good_zero :
  good (replicate n (replicate n 0)) (replicate n 0) (replicate n 0) (replicate n 0).
Proof.
  unfold good. rewrite !length_replicate.
  split; [reflexivity |]. split; [reflexivity |].
  split; [intros i Hi; rewrite nth_replicate by exact Hi; apply length_replicate |].
  assert (Hrow : forall i, nth i (replicate n (replicate n 0)) [] = replicate n 0 \/
                           nth i (replicate n (replicate n 0)) [] = []).
  { intros i. destruct (Nat.lt_ge_cases i n) as [Hi | Hi].
    - left. apply nth_replicate, Hi.
    - right. apply nth_overflow. rewrite length_replicate. exact Hi. }
  split.
  { intros i j. destruct (Hrow i) as [-> | ->];
      [rewrite nth_replicate_same; lia | destruct j; cbn; lia]. }
  split.
  { intros i. rewrite nth_replicate_same.
    destruct (Hrow i) as [-> | ->]; [rewrite sum_replicate_zero; lia | cbn; lia]. }
  split; [reflexivity |]. split; [reflexivity |].
  intros j. rewrite nth_replicate_same. lia.
Qed.

Variable inspect : nat -> Z -> option (Z * Analyzer.perf).
Hypothesis inspect_good :
  forall index image_id status p,
    inspect index image_id = Some (status, p) -> 0 <= status ->
    good (Analyzer.confusion_matrix p) (Analyzer.nobjs_true p)
         (Analyzer.nobjs_det p) (Analyzer.nobjs_det_right p).

Lemma accumulate_good tester ids tester' :
  good (ModelTester.classification_matrix tester) (ModelTester.nobjs_true tester)
       (ModelTester.nobjs_det tester) (ModelTester.nobjs_det_right tester) ->
  ModelTester.accumulate inspect tester ids = Some tester' ->
  good (ModelTester.classification_matrix tester') (ModelTester.nobjs_true tester')
       (ModelTester.nobjs_det tester') (ModelTester.nobjs_det_right tester').
Proof.
  revert tester. induction ids as [| [index image_id] ids IH]; intros tester Hg H.
  - injection H as <-. exact Hg.
  - cbn [ModelTester.accumulate] in H.
    destruct (inspect index image_id) as [[status p] |] eqn:Hi; cbn in H;
      [| discriminate].
    destruct (status <? 0) eqn:Hs; [apply (IH tester Hg H) |].
    refine (IH _ _ H). cbn.
    apply good_add; [exact Hg |]. eapply inspect_good; [exact Hi | lia].
Qed.

Lemma rates_of_good tester i j :
  ModelTester.n_classes tester = n ->
  ModelTester.classification_matrix_norm tester = replicate n (replicate n 0%Q) ->
  ModelTester.purity tester = replicate n 0%Q ->
  good (ModelTester.classification_matrix tester) (ModelTester.nobjs_true tester)
       (ModelTester.nobjs_det tester) (ModelTester.nobjs_det_right tester) ->
  (i < n)%nat -> (j < n)%nat ->
  let tester' := ModelTester.compute_performances tester in
  (0 <= nth j (nth i (ModelTester.classification_matrix_norm tester') []) 0 <= 1)%Q /\
  (0 <= nth j (ModelTester.purity tester') 0 <= 1)%Q.
Proof.
  intros Hn Hnorm Hpur (_ & _ & _ & Hpos & Hle & _ & _ & Hle') Hi Hj. cbn.
  rewrite Hn, Hnorm, Hpur.
  assert (Hzero : (0 <= 0 <= 1)%Q) by (split; discriminate).
  split.
  - rewrite normalize_nth by (try rewrite length_replicate; lia).
    destruct (_ <=? 0) eqn:Hz.
    + rewrite !nth_replicate by lia. exact Hzero.
    + rewrite normalize_row_nth;
        [| lia | rewrite nth_replicate by lia; apply length_replicate].
      apply Z.leb_gt in Hz. apply ratio_bounds; [| exact Hz].
      split; [apply Hpos |].
      etransitivity; [apply nth_le_sum, Hpos | apply Hle].
  - rewrite purities_nth by (try rewrite length_replicate; lia).
    destruct (_ <=? 0) eqn:Hz.
    + rewrite nth_replicate by lia. exact Hzero.
    + apply Z.leb_gt in Hz. apply ratio_bounds; [apply Hle' | exact Hz].
Qed.
End TestTotals.

Section TestRates.
Variable extract_bboxes : mask -> bbox.
Variable get_iou : bbox -> bbox -> Q.
Variable detect : Z -> Analyzer.det_raw.
Variable dataset : option Analyzer.Dataset.

(** X14: the rates that a new tester reports after [test] are rates:
    every entry of the normalized classification matrix and every purity
    lies between 0 and 1, whatever the dataset, the detector and the cap
    on the number of images. *)
Theorem test_rates_bounded (n : nat) (m : Z) (tester' : ModelTester.t) (i j : nat) :
  ModelTester.test extract_bboxes get_iou detect dataset
                   (ModelTester.with_n_max_img (ModelTester.init n) m) = Some tester' ->
  (i < n)%nat -> (j < n)%nat ->
  (0 <= nth j (nth i (ModelTester.classification_matrix_norm tester') []) 0 <= 1)%Q /\
  (0 <= nth j (ModelTester.purity tester') 0 <= 1)%Q.
Proof.
  intros Htest Hi Hj. unfold ModelTester.test in Htest.
  destruct dataset as [ds |]; [| discriminate].
  cbn [mbind option_bind] in Htest.
  set (inspect := fun (index : nat) (image_id : Z) => _) in Htest.
  unfold ModelTester.test_with in Htest.
  destruct (ModelTester.test_loop inspect _ _ _) as [t1 |] eqn:Hloop;
    [| discriminate].
  cbn [mbind option_bind] in Htest. injection Htest as <-.
  rewrite test_loop_visited in Hloop.
  pose proof (accumulate_n_max_img _ _ _ _ Hloop) as (_ & Hn1 & Hnorm1 & Hpur1).
  apply (rates_of_good n t1 i j Hn1 Hnorm1 Hpur1); [| exact Hi | exact Hj].
  refine (accumulate_good n inspect _
            (ModelTester.with_n_max_img (ModelTester.init n) m) _ t1
            (good_zero n) Hloop).
  intros index image_id status p Hinspect _. subst inspect.
  unfold Analyzer.inspect_results in Hinspect.
  cbn [Analyzer.dataset Analyzer.n_classes Analyzer.detect Analyzer.score_thr
       Analyzer.iou_thr ModelTester.n_classes ModelTester.with_n_max_img
       ModelTester.init] in Hinspect.
  destruct (Analyzer.image_class_id ds image_id) as [class_id_gt |];
    cbn [mbind option_bind] in Hinspect; [| discriminate].
  destruct (py_get _ _) as [label_gt |]; cbn [mbind option_bind] in Hinspect;
    [| discriminate].
  destruct (negb _); [discriminate |].
  destruct (Analyzer.extract_gt_masks _ _ _ _ _) as [gt |];
    cbn [mbind option_bind] in Hinspect; [| discriminate].
  destruct (if (0 <? _)%nat then _ else _) as [det |];
    cbn [mbind option_bind] in Hinspect; [| discriminate].
  destruct (Analyzer.compute_performances _ _ _ _ _) as [p' |] eqn:Hp;
    cbn [mbind option_bind] in Hinspect; [| discriminate].
  destruct (Analyzer.draw_results _ _ _); cbn [mbind option_bind] in Hinspect;
    [| discriminate].
  injection Hinspect as _ <-.
  apply compute_performances_inv in Hp as (Htrue & Hdet & _ & _).
  cbn [fst snd] in Htrue, Hdet.
  destruct Htrue as (H1 & H2 & H3 & _ & H4 & H5). destruct Hdet as (H6 & H7 & _ & H8).
  repeat split; try assumption; apply H8.
Qed.
End TestRates.

Lemma test_rates_bounded_witness :
  exists tester',
    ModelTester.test tight_bbox box_iou demo_detect (Some demo_dataset)
                     (ModelTester.with_n_max_img (ModelTester.init 2) (-1)) =
      Some tester' /\
    (0 <= nth 1 (nth 1 (ModelTester.classification_matrix_norm tester') []) 0 <= 1)%Q /\
    (0 <= nth 1 (ModelTester.purity tester') 0 <= 1)%Q.
Proof.
  destruct (ModelTester.test tight_bbox box_iou demo_detect (Some demo_dataset)
              (ModelTester.with_n_max_img (ModelTester.init 2) (-1)))
    as [tester' |] eqn:Htest; [| vm_compute in Htest; discriminate].
  exists tester'. split; [reflexivity |].
  apply (test_rates_bounded tight_bbox box_iou demo_detect (Some demo_dataset)
           2 (-1) tester' 1 1 Htest); lia.
Defined.

(** ** Connected masks overlap or touch *)

Lemma forallb_false {X} (f : X -> bool) (l : list X) :
  forallb f l = false -> exists x, In x l /\ f x = false.
Proof.
  induction l as [| x l IH]; cbn; [discriminate |].
  destruct (f x) eqn:Hx; cbn.
  - intros H. destruct (IH H) as (y & Hy & Hfy). eauto.
  - intros _. eauto.
Qed.

Section Touch.
Variables a b : mask.
Hypothesis rect_a : is_rect a = true.
Hypothesis rect_b : is_rect b = true.
Hypothesis shape_ab : same_shape a b = true.
Hypothesis binary_a : is_binary a = true.
Hypothesis binary_b : is_binary b = true.

Let nonneg_a := binary_nonneg a binary_a.
Let nonneg_b := binary_nonneg b binary_b.
Let rect_u := is_rect_merge a b rect_a rect_b shape_ab.

Lemma reps_share m l :
  is_rect m = true ->
  (forall p q, region m p q -> region (merge_masks a b) p q) ->
  (forall p, In p l -> fg m p = true) ->
  (forall x y, In x l -> In y l ->
               rep (merge_masks a b) x = rep (merge_masks a b) y -> x = y) ->
  NoDup l ->
  (length l <= length (reps m))%nat.
Proof.
  intros Hrect Hsub Hfg Hinj Hnd. apply (inj_length (rep m)); [exact Hnd | |].
  - intros x y Hx Hy Heq. apply (Hinj x y Hx Hy).
    apply rep_region; [exact rect_u |]. apply Hsub.
    apply rep_region in Heq; [exact Heq | exact Hrect].
  - intros x Hx. apply rep_in_reps; [exact Hrect | apply Hfg, Hx].
Qed.

Lemma touch_fewer p q :
  fg a p = true -> fg b q = true -> p = q \/ neighbours p q ->
  (ncomponents (merge_masks a b) < ncomponents a + ncomponents b)%nat.
Proof.
  intros Hp Hq Htouch.
  set (u := merge_masks a b).
  assert (Hfu : forall x, fg u x = fg a x || fg b x)
    by (intros x; apply fg_merge; assumption).
  assert (Hpq : rep u p = rep u q).
  { apply rep_region; [exact rect_u |].
    destruct Htouch as [-> | Hn]; [apply rst_refl |].
    apply rst_step. split; [exact Hn |]. unfold u.
    rewrite joined_merge by assumption. rewrite Hp, Hq, orb_true_r. reflexivity. }
  assert (Hrep : forall x, In x (reps u) -> rep u x = x /\ fg u x = true).
  { intros x Hx. apply in_reps in Hx. tauto. }
  assert (Hsub_a : forall x y, region a x y -> region u x y)
    by (intros x y; apply region_merge_l; assumption).
  assert (Hsub_b : forall x y, region b x y -> region u x y)
    by (intros x y; apply region_merge_r; assumption).
  set (La := filter (fun x => fg a x = true) (reps u)).
  set (Lb := filter (fun x => ~ fg a x = true) (reps u)).
  assert (HLa : forall x, In x La -> In x (reps u) /\ fg a x = true).
  { intros x Hx. apply list_elem_of_In, list_elem_of_filter in Hx as [H1 H2].
    split; [apply list_elem_of_In, H2 | exact H1]. }
  assert (HLb : forall x, In x Lb ->
                          In x (reps u) /\ fg a x = false /\ fg b x = true).
  { intros x Hx. apply list_elem_of_In, list_elem_of_filter in Hx as [H1 H2].
    apply list_elem_of_In in H2. split; [exact H2 |].
    destruct (Hrep x H2) as [_ Hu]. rewrite Hfu in Hu.
    destruct (fg a x); [contradiction H1; reflexivity |]. auto. }
  assert (Hperm : (length La + length Lb = length (reps u))%nat).
  { rewrite <- length_app. apply Permutation_length, filter_app_complement. }
  assert (Hinj : forall l, (forall x, In x l -> In x (reps u)) ->
                           forall x y, In x l -> In y l -> rep u x = rep u y -> x = y).
  { intros l Hl x y Hx Hy Heq.
    destruct (Hrep x (Hl x Hx)) as [Hx' _], (Hrep y (Hl y Hy)) as [Hy' _].
    congruence. }
  assert (Hle_a : (length La <= length (reps a))%nat).
  { apply reps_share; [exact rect_a | exact Hsub_a | apply HLa | |
                       apply NoDup_filter, NoDup_reps].
    apply Hinj. apply HLa. }
  assert (Hle_b : (length Lb <= length (reps b))%nat).
  { apply reps_share; [exact rect_b | exact Hsub_b | apply HLb | |
                       apply NoDup_filter, NoDup_reps].
    apply Hinj. apply HLb. }
  unfold ncomponents, extract_mask_connected_components. cbn [snd]. fold u.
  destruct (fg a (rep u p)) eqn:Hr0.
  - assert (Hnot : forall x, In x Lb -> rep u q <> x).
    { intros x Hx Heq. destruct (HLb x Hx) as (_ & Hax & _).
      rewrite <- Heq, <- Hpq, Hr0 in Hax. discriminate. }
    assert (Hlt : (length (q :: Lb) <= length (reps b))%nat).
    { apply reps_share; [exact rect_b | exact Hsub_b | | |].
      - intros x [<- | Hx]; [exact Hq | apply HLb, Hx].
      - intros x y Hx Hy Heq. fold u in Heq.
        destruct Hx as [<- | Hx], Hy as [<- | Hy]; try reflexivity.
        + contradiction (Hnot y Hy). destruct (Hrep y (proj1 (HLb y Hy))). congruence.
        + contradiction (Hnot x Hx). destruct (Hrep x (proj1 (HLb x Hx))). congruence.
        + apply (Hinj Lb (fun z Hz => proj1 (HLb z Hz)) x y Hx Hy Heq).
      - apply NoDup_cons. split; [| apply NoDup_filter, NoDup_reps].
        intros Hin. apply list_elem_of_In in Hin. apply (Hnot q Hin).
        apply Hrep, HLb, Hin. }
    cbn [length] in Hlt. lia.
  - assert (Hnot : forall x, In x La -> rep u p <> x).
    { intros x Hx Heq. destruct (HLa x Hx) as (_ & Hax).
      rewrite <- Heq, Hr0 in Hax. discriminate. }
    assert (Hlt : (length (p :: La) <= length (reps a))%nat).
    { apply reps_share; [exact rect_a | exact Hsub_a | | |].
      - intros x [<- | Hx]; [exact Hp | apply HLa, Hx].
      - intros x y Hx Hy Heq. fold u in Heq.
        destruct Hx as [<- | Hx], Hy as [<- | Hy]; try reflexivity.
        + contradiction (Hnot y Hy). destruct (Hrep y (proj1 (HLa y Hy))). congruence.
        + contradiction (Hnot x Hx). destruct (Hrep x (proj1 (HLa x Hx))). congruence.
        + apply (Hinj La (fun z Hz => proj1 (HLa z Hz)) x y Hx Hy Heq).
      - apply NoDup_cons. split; [| apply NoDup_filter, NoDup_reps].
        intros Hin. apply list_elem_of_In in Hin. apply (Hnot p Hin).
        apply Hrep, HLa, Hin. }
    cbn [length] in Hlt. lia.
Qed.

(** X15: two 0/1 masks of one shape are connected exactly when they
    overlap or touch: a foreground pixel of the one is a foreground pixel
    of the other or its neighbour to the left, to the right, above or
    below; a diagonal contact does not connect them. *)
Theorem are_mask_connected_iff_touch :
  are_mask_connected a b = true <->
  exists p q, fg a p = true /\ fg b q = true /\ (p = q \/ neighbours p q).
Proof.
  rewrite are_mask_connected_counts, negb_true_iff, Nat.eqb_neq. split.
  - intros Hne.
    destruct (disjoint_masks a b) eqn:Hd.
    + destruct (apart_masks a b) eqn:Hap.
      * contradiction Hne. apply ncomponents_merge_apart; assumption.
      * unfold apart_masks in Hap.
        apply forallb_false in Hap as (p & _ & Hp).
        apply orb_false_iff in Hp as [Hp Hnb]. apply negb_false_iff in Hp.
        apply forallb_false in Hnb as (q & Hq & Hfq). apply negb_false_iff in Hfq.
        exists p, q. split; [exact Hp |]. split; [exact Hfq |].
        right. apply neighbourhood_spec, Hq.
    + unfold disjoint_masks in Hd. apply forallb_false in Hd as (p & _ & Hp).
      apply negb_false_iff, andb_true_iff in Hp as [Hpa Hpb].
      exists p, p. auto.
  - intros (p & q & Hp & Hq & Htouch).
    pose proof (touch_fewer p q Hp Hq Htouch). lia.
Qed.
End Touch.

Lemma are_mask_connected_iff_touch_witness :
  are_mask_connected [[1; 0; 0]; [0; 1; 0]] [[0; 0; 0]; [0; 0; 1]] = true <->
  exists p q, fg [[1; 0; 0]; [0; 1; 0]] p = true /\
              fg [[0; 0; 0]; [0; 0; 1]] q = true /\ (p = q \/ neighbours p q).
Proof.
  apply (are_mask_connected_iff_touch [[1; 0; 0]; [0; 1; 0]] [[0; 0; 0]; [0; 0; 1]]);
    reflexivity.
Defined.

(** ** The instances of the first pass *)

Section MergeRegions.
Variable regions : list Analyzer.region.

Let mergeable := fun x y : Analyzer.region =>
  are_mask_connected (Analyzer.r_mask x) (Analyzer.r_mask y) &&
  bool_decide (Analyzer.r_class_id x = Analyzer.r_class_id y).
Let g := link_graph regions mergeable.

Lemma linked_same_class v w x y :
  econn (gEdges g) v w -> regions !! v = Some x -> regions !! w = Some y ->
  Analyzer.r_class_id x = Analyzer.r_class_id y.
Proof.
  intros Hconn Hx Hy.
  assert (H : Analyzer.r_class_id <$> regions !! v =
              Analyzer.r_class_id <$> regions !! w).
  { clear Hx Hy. revert v w Hconn. apply econn_lift; try congruence.
    intros v w Hedge. apply link_graph_edges in Hedge
      as (_ & x' & y' & -> & -> & Hm).
    apply andb_true_iff in Hm as [_ Hm]. apply bool_decide_eq_true in Hm.
    cbn. congruence. }
  rewrite Hx, Hy in H. cbn in H. congruence.
Qed.

(** X16: the first pass never mixes classes: it returns one instance for
    every group of the graph, every region is in one group, and all the
    regions of a group have the class that the instance gets; the mask of
    the instance is the merge of the masks of the group. *)
Theorem merge_regions_one_class :
  exists merged,
    Analyzer.merge_regions regions = Some merged /\
    (forall k, (k < length regions)%nat ->
               exists group, In group (connectedComponents g) /\ In k group) /\
    Forall2 (fun group y =>
               (forall k x, In k group -> regions !! k = Some x ->
                            Analyzer.r_class_id x = Analyzer.r_class_id y) /\
               exists members,
                 Forall2 (fun k x => regions !! k = Some x) group members /\
                 merge_all (Analyzer.r_mask <$> members) = Some (Analyzer.r_mask y))
            (connectedComponents g) merged.
Proof.
  unfold Analyzer.merge_regions. fold mergeable. fold g.
  rewrite filter_all by (intros c; apply component_nonempty).
  destruct (mapM_exists (Analyzer.merge_component regions)
              (fun group y =>
                 (forall k x, In k group -> regions !! k = Some x ->
                              Analyzer.r_class_id x = Analyzer.r_class_id y) /\
                 exists members,
                   Forall2 (fun k x => regions !! k = Some x) group members /\
                   merge_all (Analyzer.r_mask <$> members) = Some (Analyzer.r_mask y))
              (connectedComponents g)) as (merged & Hmerged & Hall).
  - intros group Hgroup.
    destruct (mapM_exists (fun index => regions !! index)
                (fun k x => regions !! k = Some x) group) as (members & Hm & Hmem).
    { intros k Hk. apply (component_nodes _ _ _ Hgroup) in Hk.
      unfold g in Hk. rewrite link_graph_nodes in Hk.
      apply lookup_lt_is_Some_2 in Hk as [x Hx]. eauto. }
    unfold Analyzer.merge_component. rewrite Hm. cbn [mbind option_bind].
    pose proof (component_nonempty _ _ Hgroup) as Hne.
    destruct (last members) as [x_last |] eqn:Hlast.
    2: { apply last_None in Hlast. subst members.
         apply Forall2_nil_inv_r in Hmem. contradiction. }
    apply last_Some in Hlast as [ms ->].
    apply Forall2_app_inv_r in Hmem as (g1 & g2 & Hg1 & Hg2 & ->).
    apply Forall2_cons_inv_r in Hg2 as (k_last & g3 & Hk_last & Hg3 & ->).
    apply Forall2_nil_inv_r in Hg3 as ->.
    destruct (merge_all (Analyzer.r_mask <$> ms ++ [x_last])) as [merged_mask |]
      eqn:Hall.
    2: { destruct ms; discriminate. }
    cbn [mbind option_bind].
    change (Analyzer.r_class_id <$> ms ++ [x_last])
      with (Analyzer.r_class_id <$> (ms ++ [x_last])).
    rewrite (fmap_app Analyzer.r_class_id ms [x_last]).
    change (Analyzer.r_class_id <$> [x_last]) with [Analyzer.r_class_id x_last].
    rewrite last_snoc. cbn [mbind option_bind].
    eexists. split; [reflexivity |]. cbn [Analyzer.r_class_id Analyzer.r_mask].
    split.
    + intros k x Hk Hx. apply (linked_same_class k k_last x x_last); try assumption.
      apply (component_linked g _ k k_last Hgroup Hk).
      * unfold g. rewrite link_graph_nodes. eapply lookup_lt_Some, Hk_last.
      * apply in_or_app. right. left. reflexivity.
    + exists (ms ++ [x_last]). split; [| exact Hall].
      apply Forall2_app; [exact Hg1 |]. constructor; [exact Hk_last | constructor].
  - exists merged. split; [exact Hmerged |]. split; [| exact Hall].
    intros k Hk. apply component_cover. unfold g. rewrite link_graph_nodes. exact Hk.
Qed.
End MergeRegions.

(** ** The collapsed mask of scripts/train.py *)

Lemma filter_nil_iff {X} (f : X -> bool) (l : list X) :
  List.filter f l = [] <-> forall x, In x l -> f x = false.
Proof.
  induction l as [| x l IH]; cbn; [tauto |].
  destruct (f x) eqn:Hx.
  - split; [discriminate |]. intros H. specialize (H x (or_introl eq_refl)).
    congruence.
  - rewrite IH. split; [intros H y [<- | Hy]; auto | auto].
Qed.

Lemma cell_in_concat (m : mask) (p : pixel) :
  (fst p < length m)%nat -> (snd p < length (nth (fst p) m []))%nat ->
  In (pix m p) (concat m).
Proof.
  intros Hr Hc. apply in_concat. exists (nth (fst p) m []).
  split; [apply nth_In, Hr | apply nth_In, Hc].
Qed.

Lemma count_nonzero_zero (m : mask) :
  Train.count_nonzero m <= 0 -> forall p, fg m p = false.
Proof.
  unfold Train.count_nonzero. intros H p.
  assert (Hnil : List.filter (fun z => negb (z =? 0)) (concat m) = []).
  { destruct (List.filter _ _); [reflexivity | cbn in H; lia]. }
  rewrite filter_nil_iff in Hnil. unfold fg.
  destruct (Nat.lt_ge_cases (fst p) (length m)) as [Hr | Hr];
    [destruct (Nat.lt_ge_cases (snd p) (length (nth (fst p) m []))) as [Hc | Hc] |].
  - apply Hnil, cell_in_concat; assumption.
  - unfold pix. rewrite (nth_overflow (nth _ m [])) by exact Hc. reflexivity.
  - unfold pix. rewrite (nth_overflow m) by exact Hr. destruct (snd p); reflexivity.
Qed.

Lemma count_nonzero_pos (m : mask) :
  0 < Train.count_nonzero m -> exists p, fg m p = true.
Proof.
  unfold Train.count_nonzero. intros H.
  destruct (List.filter _ _) as [| z l] eqn:Hf; [cbn in H; lia |].
  assert (Hz : In z (List.filter (fun z => negb (z =? 0)) (concat m)))
    by (rewrite Hf; left; reflexivity).
  apply filter_In in Hz as [Hz Hnz].
  apply in_concat in Hz as (row & Hrow & Hz).
  apply In_nth with (d := []) in Hrow as (r & _ & <-).
  apply In_nth with (d := 0) in Hz as (c & _ & <-).
  exists (r, c). exact Hnz.
Qed.

Lemma n_mask_true_fold (masks : list mask) (acc : Z) :
  let total :=
    fold_left (fun n_mask_true mask_data =>
                 let counts := Train.count_nonzero mask_data in
                 if counts <=? 0 then n_mask_true else n_mask_true + counts)
              masks acc in
  acc <= total /\
  (total <= acc <-> forall m, In m masks -> Train.count_nonzero m <= 0).
Proof.
  revert acc. induction masks as [| m masks IH]; intros acc; cbn; cbv zeta in *.
  - split; [lia |]. split; [intros _ m [] | lia].
  - destruct (Train.count_nonzero m <=? 0) eqn:Hc.
    + apply Z.leb_le in Hc. destruct (IH acc) as [H1 H2]. split; [exact H1 |].
      rewrite H2. split; [intros H x [<- | Hx]; auto | auto].
    + apply Z.leb_gt in Hc. destruct (IH (acc + Train.count_nonzero m)) as [H1 _].
      split; [lia |]. split; [lia |].
      intros H. specialize (H m (or_introl eq_refl)). lia.
Qed.

Lemma n_mask_true_pos (masks : list mask) (acc : Z) :
  acc < fold_left (fun n_mask_true mask_data =>
                     let counts := Train.count_nonzero mask_data in
                     if counts <=? 0 then n_mask_true else n_mask_true + counts)
                  masks acc ->
  exists m, In m masks /\ 0 < Train.count_nonzero m.
Proof.
  revert acc. induction masks as [| m masks IH]; intros acc; cbn; [lia |].
  destruct (Train.count_nonzero m <=? 0) eqn:Hc.
  - intros H. destruct (IH acc H) as (m' & Hm' & Hc'). eauto.
  - intros _. apply Z.leb_gt in Hc. eauto.
Qed.

Lemma collapse_cell (x y : Z) :
  0 <= x -> 0 <= y ->
  (if x + y >=? 1 then 1 else 0) =
  clip ((if x >=? 1 then 1 else 0) + (if y >=? 1 then 1 else 0)).
Proof.
  intros Hx Hy. rewrite !Z.geb_leb.
  destruct (Z.leb_spec 1 (x + y)), (Z.leb_spec 1 x), (Z.leb_spec 1 y);
    try reflexivity; lia.
Qed.

Lemma collapse_rows (a b : list Z) :
  Forall (fun z => 0 <= z) a -> Forall (fun z => 0 <= z) b ->
  map (fun s => if s >=? 1 then 1 else 0) (zip_with Z.add a b) =
  zip_with (fun x y => clip (x + y))
           (map (fun s => if s >=? 1 then 1 else 0) a)
           (map (fun s => if s >=? 1 then 1 else 0) b) /\
  Forall (fun z => 0 <= z) (zip_with Z.add a b).
Proof.
  intros Ha. revert b. induction Ha as [| x a Hx _ IH]; intros b Hb.
  - split; [reflexivity | constructor].
  - destruct Hb as [| y b Hy Hb]; [split; [reflexivity | constructor] |].
    destruct (IH b Hb) as [H1 H2]. cbn. split.
    + rewrite H1, collapse_cell by assumption. reflexivity.
    + constructor; [lia | exact H2].
Qed.

Lemma collapse_masks (a b : mask) :
  Forall (Forall (fun z => 0 <= z)) a -> Forall (Forall (fun z => 0 <= z)) b ->
  map (map (fun s => if s >=? 1 then 1 else 0)) (zip_with (zip_with Z.add) a b) =
  merge_masks (map (map (fun s => if s >=? 1 then 1 else 0)) a)
              (map (map (fun s => if s >=? 1 then 1 else 0)) b) /\
  Forall (Forall (fun z => 0 <= z)) (zip_with (zip_with Z.add) a b).
Proof.
  intros Ha. revert b. induction Ha as [| x a Hx _ IH]; intros b Hb.
  - split; [reflexivity | constructor].
  - destruct Hb as [| y b Hy Hb]; [split; [reflexivity | constructor] |].
    destruct (IH b Hb) as [H1 H2]. destruct (collapse_rows x y Hx Hy) as [H3 H4].
    unfold merge_masks in *. cbn. split.
    + rewrite H1, H3. reflexivity.
    + constructor; assumption.
Qed.

Lemma binary_cells (m : mask) :
  is_binary m = true ->
  Forall (Forall (fun z => 0 <= z)) m /\
  map (map (fun s => if s >=? 1 then 1 else 0)) m = m.
Proof.
  rewrite is_binary_Forall. intros H. induction H as [| row m Hrow _ [IH1 IH2]].
  - split; [constructor | reflexivity].
  - assert (Hr : Forall (fun z => 0 <= z) row /\
                 map (fun s => if s >=? 1 then 1 else 0) row = row).
    { clear - Hrow. induction Hrow as [| z row Hz _ [IH1 IH2]].
      - split; [constructor | reflexivity].
      - split; [constructor; [destruct Hz as [-> | ->]; lia | exact IH1] |].
        cbn. rewrite IH2. destruct Hz as [-> | ->]; reflexivity. }
    destruct Hr as [Hr1 Hr2]. split; [constructor; assumption |].
    cbn. rewrite Hr2, IH2. reflexivity.
Qed.

Lemma collapse_merge (rest : list mask) (first : mask) :
  Forall (Forall (fun z => 0 <= z)) first ->
  Forall (fun m => is_binary m = true) rest ->
  Train.collapse first rest =
  fold_left merge_masks rest (map (map (fun s => if s >=? 1 then 1 else 0)) first).
Proof.
  unfold Train.collapse. intros Hfirst Hrest. revert first Hfirst.
  induction Hrest as [| m rest Hm _ IH]; intros first Hfirst; [reflexivity |].
  cbn [fold_left]. destruct (binary_cells m Hm) as [Hm1 Hm2].
  destruct (collapse_masks first m Hfirst Hm1) as [H1 H2].
  rewrite (IH _ H2), H1, Hm2. reflexivity.
Qed.

(** X18: in [test] of scripts/train.py, for boolean masks of one shape:
    an image is left out for want of set pixels only when no layer has a
    set pixel; otherwise the collapsed mask is the merge of the layers in
    the sense of [merge_masks], it is set exactly at the pixels that are
    set in a layer, and it has a set pixel. *)
Theorem test_masks_collapsed (masks : list mask) (h w : nat) :
  Forall (fun m => is_rect m = true /\ is_binary m = true /\
                   height m = h /\ width m = w) masks ->
  match Train.test_masks masks with
  | Train.NoObject => masks = []
  | Train.NoTruePixel => forall m p, In m masks -> fg m p = false
  | Train.Collapsed mask_merged =>
      merge_all masks = Some mask_merged /\
      (forall p, fg mask_merged p = existsb (fun m => fg m p) masks) /\
      exists p, fg mask_merged p = true
  end.
Proof.
  intros Hall. unfold Train.test_masks.
  destruct masks as [| first rest]; [reflexivity |].
  destruct (n_mask_true_fold (first :: rest) 0) as [_ Hzero].
  fold (Train.n_mask_true (first :: rest)) in Hzero.
  destruct (Train.n_mask_true (first :: rest) <=? 0) eqn:Hn.
  - apply Z.leb_le in Hn. intros m p Hm.
    apply count_nonzero_zero. apply (proj1 Hzero Hn m Hm).
  - apply Z.leb_gt in Hn.
    apply Forall_cons in Hall as [(Hr & Hb & Hh & Hw) Hrest].
    destruct (binary_cells first Hb) as [Hnn Hid].
    assert (Hcollapse : Train.collapse first rest = fold_left merge_masks rest first).
    { rewrite collapse_merge; [rewrite Hid; reflexivity | exact Hnn |].
      eapply Forall_impl; [exact Hrest |]. intros m Hm. apply Hm. }
    rewrite Hcollapse.
    destruct (fold_merge_fg h w rest first Hr Hb Hh Hw Hrest)
      as (_ & _ & _ & _ & Hfg).
    split; [reflexivity |].
    assert (Hfg' : forall p, fg (fold_left merge_masks rest first) p =
                             existsb (fun m => fg m p) (first :: rest))
      by (intros p; rewrite Hfg; reflexivity).
    split; [exact Hfg' |].
    destruct (n_mask_true_pos (first :: rest) 0 Hn) as (m & Hm & Hc).
    apply count_nonzero_pos in Hc as [p Hp].
    exists p. rewrite Hfg'. apply existsb_exists. eauto.
Qed.

Lemma test_masks_collapsed_witness :
  match Train.test_masks [[[1; 0; 0]; [0; 0; 0]]; [[1; 1; 0]; [0; 0; 0]]] with
  | Train.NoObject => [[[1; 0; 0]; [0; 0; 0]]; [[1; 1; 0]; [0; 0; 0]]] = []
  | Train.NoTruePixel =>
      forall m p, In m [[[1; 0; 0]; [0; 0; 0]]; [[1; 1; 0]; [0; 0; 0]]] ->
                  fg m p = false
  | Train.Collapsed mask_merged =>
      merge_all [[[1; 0; 0]; [0; 0; 0]]; [[1; 1; 0]; [0; 0; 0]]] =
        Some mask_merged /\
      (forall p, fg mask_merged p =
                 existsb (fun m => fg m p)
                         [[[1; 0; 0]; [0; 0; 0]]; [[1; 1; 0]; [0; 0; 0]]]) /\
      exists p, fg mask_merged p = true
  end.
Proof.
  apply (test_masks_collapsed [[[1; 0; 0]; [0; 0; 0]]; [[1; 1; 0]; [0; 0; 0]]] 2 3).
  repeat constructor.
Defined.

(** ** The order of the images *)

Lemma zip_with_swap {X} (f : X -> X -> X) :
  (forall x y z, f (f x y) z = f (f x z) y) ->
  forall l k j, zip_with f (zip_with f l k) j = zip_with f (zip_with f l j) k.
Proof.
  intros Hf l. induction l as [| x l IH]; intros [| y k] [| z j]; cbn;
    try reflexivity.
  rewrite Hf, IH. reflexivity.
Qed.

Lemma add_vec_swap (u v w : list Z) :
  ModelTester.add_vec (ModelTester.add_vec u v) w =
  ModelTester.add_vec (ModelTester.add_vec u w) v.
Proof. apply zip_with_swap. intros x y z. lia. Qed.

Lemma add_mat_swap (M N P : list (list Z)) :
  ModelTester.add_mat (ModelTester.add_mat M N) P =
  ModelTester.add_mat (ModelTester.add_mat M P) N.
Proof. apply zip_with_swap. apply add_vec_swap. Qed.

Lemma update_performances_swap tester p p' :
  ModelTester.update_performances (ModelTester.update_performances tester p) p' =
  ModelTester.update_performances (ModelTester.update_performances tester p') p.
Proof.
  unfold ModelTester.update_performances. cbn.
  rewrite (add_mat_swap _ (Analyzer.confusion_matrix p)).
  rewrite (add_vec_swap _ (Analyzer.nobjs_true p)).
  rewrite (add_vec_swap _ (Analyzer.nobjs_det p)).
  rewrite (add_vec_swap _ (Analyzer.nobjs_det_right p)).
  reflexivity.
Qed.

Lemma snd_imap {X} (g : nat -> nat) (l : list X) :
  map snd (imap (fun index x => (g index, x)) l) = l.
Proof.
  revert g. induction l as [| x l IH]; intros g; [reflexivity |].
  cbn. f_equal. apply (IH (fun index => g (S index))).
Qed.

Section ImageOrder.
Variable inspect : nat -> Z -> option (Z * Analyzer.perf).

Lemma accumulate_perm (l l' : list (nat * Z)) :
  l ≡ₚ l' ->
  forall tester,
    ModelTester.accumulate inspect tester l =
    ModelTester.accumulate inspect tester l'.
Proof.
  induction 1 as [| [i a] l l' Hp IH | [i a] [j b] l | l l' l'' Hp1 IH1 Hp2 IH2];
    intros tester.
  - reflexivity.
  - cbn. destruct (inspect i a) as [[s p] |]; cbn; [| reflexivity].
    destruct (s <? 0); apply IH.
  - cbn. destruct (inspect i a) as [[s p] |], (inspect j b) as [[s' p'] |]; cbn;
      try reflexivity.
    + destruct (s <? 0), (s' <? 0); try reflexivity.
      rewrite update_performances_swap. reflexivity.
    + destruct (s <? 0); reflexivity.
    + destruct (s' <? 0); reflexivity.
  - rewrite IH1. apply IH2.
Qed.

Hypothesis inspect_image :
  forall index index' image_id, inspect index image_id = inspect index' image_id.

Lemma accumulate_index_free (l l' : list (nat * Z)) tester :
  map snd l = map snd l' ->
  ModelTester.accumulate inspect tester l =
  ModelTester.accumulate inspect tester l'.
Proof.
  revert l' tester. induction l as [| [i a] l IH]; intros [| [j b] l'] tester H;
    try discriminate; [reflexivity |].
  cbn in H. injection H as -> H. cbn.
  rewrite (inspect_image i j b).
  destruct (inspect j b) as [[s p] |]; cbn; [| reflexivity].
  destruct (s <? 0); apply IH, H.
Qed.

Lemma test_with_perm tester (image_ids image_ids' : list Z) :
  ModelTester.n_max_img tester <= 0 -> image_ids ≡ₚ image_ids' ->
  ModelTester.test_with inspect tester image_ids =
  ModelTester.test_with inspect tester image_ids'.
Proof.
  intros Hcap Hperm. unfold ModelTester.test_with.
  rewrite !test_loop_visited. unfold ModelTester.visited.
  replace (ModelTester.n_max_img tester >? 0) with false by lia.
  assert (Hfree : forall ids : list Z,
             ModelTester.accumulate inspect tester
               (imap (fun index image_id => (index, image_id)) ids) =
             ModelTester.accumulate inspect tester
               (map (fun image_id => (0%nat, image_id)) ids)).
  { intros ids. apply accumulate_index_free.
    rewrite map_map. cbn. rewrite map_id.
    apply (snd_imap (fun index => index)). }
  rewrite !Hfree.
  rewrite (accumulate_perm _ _ (Permutation_map _ Hperm)). reflexivity.
Qed.
End ImageOrder.

(** X19: without a cap on the number of images the result of [test]
    does not depend on the order of the images of the dataset. *)
Theorem test_order_independent (extract_bboxes : mask -> bbox)
    (get_iou : bbox -> bbox -> Q) (detect : Z -> Analyzer.det_raw)
    (class_names : list string) (load_gt_mask_nonbinary : Z -> list mask)
    (image_class_id : Z -> option Z) (image_ids image_ids' : list Z)
    (tester : ModelTester.t) :
  ModelTester.n_max_img tester <= 0 -> image_ids ≡ₚ image_ids' ->
  ModelTester.test extract_bboxes get_iou detect
    (Some (Analyzer.mkDataset image_ids class_names load_gt_mask_nonbinary
                              image_class_id)) tester =
  ModelTester.test extract_bboxes get_iou detect
    (Some (Analyzer.mkDataset image_ids' class_names load_gt_mask_nonbinary
                              image_class_id)) tester.
Proof.
  intros Hcap Hperm. unfold ModelTester.test. cbn [mbind option_bind].
  cbn [Analyzer.image_ids].
  etransitivity; [apply test_with_perm; [reflexivity | exact Hcap | exact Hperm] |].
  reflexivity.
Qed.

Lemma test_order_independent_witness :
  ModelTester.test tight_bbox box_iou demo_detect
    (Some (Analyzer.mkDataset [0; 1; 2] ["bkg"; "sidelobe"]%string
             (fun _ => [[[1; 1; 0]; [1; 1; 0]]]) (fun _ => Some 1)))
    (ModelTester.init 2) =
  ModelTester.test tight_bbox box_iou demo_detect
    (Some (Analyzer.mkDataset [2; 0; 1] ["bkg"; "sidelobe"]%string
             (fun _ => [[[1; 1; 0]; [1; 1; 0]]]) (fun _ => Some 1)))
    (ModelTester.init 2).
Proof.
  apply (test_order_independent tight_bbox box_iou demo_detect
           ["bkg"; "sidelobe"]%string (fun _ => [[[1; 1; 0]; [1; 1; 0]]])
           (fun _ => Some 1) [0; 1; 2] [2; 0; 1] (ModelTester.init 2)).
  - cbn. lia.
  - change [2; 0; 1] with ([2] ++ [0; 1]). change [0; 1; 2] with ([0; 1] ++ [2]).
    apply Permutation_app_comm.
Defined.

(** ** An image whose analysis fails *)







(** ** Instances with an empty mask *)

Lemma empty_mask_not_connected (a b : mask) :
  is_rect a = true -> is_rect b = true -> same_shape a b = true ->
  is_binary a = true -> (forall p, fg b p = false) ->
  are_mask_connected a b = false /\ are_mask_connected b a = false.
Proof.
  intros Hra Hrb Hs Hba Hempty.
  assert (Hmerge : merge_masks a b = a).
  { apply mask_ext; try assumption.
    - apply is_rect_merge; assumption.
    - apply height_merge; assumption.
    - apply width_merge; assumption.
    - intros p. rewrite pix_merge by assumption.
      specialize (Hempty p). unfold fg in Hempty.
      apply negb_false_iff, Z.eqb_eq in Hempty. rewrite Hempty.
      destruct (binary_pix a p Hba) as [-> | ->]; reflexivity. }
  assert (Hzero : ncomponents b = 0%nat) by (apply ncomponents_zero; assumption).
  rewrite !are_mask_connected_counts, (merge_masks_comm b a), Hmerge, Hzero.
  rewrite Nat.add_0_r, Nat.add_0_l, Nat.eqb_refl. auto.
Qed.

Lemma econn_isolated {A} (E : list (A * A)) (k w : A) :
  (forall e, In e E -> fst e <> k /\ snd e <> k) ->
  econn E k w -> w = k.
Proof.
  intros Hiso Hconn.
  assert (H : k = k <-> w = k).
  { revert Hconn. apply (econn_lift E (fun u v => u = k <-> v = k)).
    - intros x. tauto.
    - intros x y. tauto.
    - intros x y z. tauto.
    - intros x y Hxy. destruct (Hiso _ Hxy) as [Hx Hy]. cbn in Hx, Hy. tauto. }
  tauto.
Qed.

Section EmptyInstance.
Variable extract_bboxes : mask -> bbox.
Variable class_names : list string.
Variables h w : nat.

(** A 0/1 mask of the shape of the image. *)
Let image_mask (m : mask) : Prop :=
  is_rect m = true /\ is_binary m = true /\ height m = h /\ width m = w.

Lemma select_objects_masks r score_thr sel :
  Forall image_mask (Analyzer.masks r) ->
  Analyzer.select_objects class_names r score_thr = Some sel ->
  Forall (fun x => image_mask (Analyzer.r_mask x)) sel.
Proof.
  unfold Analyzer.select_objects. intros Hmasks H.
  destruct (mapM _ _) as [parts |] eqn:Hparts; cbn in H; [| discriminate].
  injection H as <-. eapply mapM_concat_Forall; [exact Hparts |].
  intros i part _ Hi. cbn in Hi.
  destruct (Analyzer.masks r !! i) as [m |] eqn:Hm; cbn in Hi; [| discriminate].
  destruct (Analyzer.class_ids r !! i) as [class_id |]; cbn in Hi; [| discriminate].
  destruct (Analyzer.scores r !! i) as [score |]; cbn in Hi; [| discriminate].
  destruct (py_get class_names class_id) as [label |]; cbn in Hi; [| discriminate].
  destruct (Qltb score score_thr); injection Hi as <-; constructor; [| constructor].
  cbn. rewrite Forall_forall in Hmasks. apply Hmasks, list_elem_of_lookup. eauto.
Qed.

Lemma split_object_masks sel index parts :
  Forall (fun x => image_mask (Analyzer.r_mask x)) sel ->
  Analyzer.split_object class_names sel index = Some parts ->
  Forall (fun x => image_mask (Analyzer.r_mask x)) parts.
Proof.
  unfold Analyzer.split_object. intros Hsel H.
  destruct (sel !! index) as [x |] eqn:Hx; cbn in H; [| discriminate].
  assert (Hgood : image_mask (Analyzer.r_mask x)).
  { rewrite Forall_forall in Hsel. apply Hsel, list_elem_of_lookup. eauto. }
  destruct (py_get class_names _) as [label |]; cbn in H; [| discriminate].
  destruct (Analyzer.is_galaxy label); injection H as <-.
  - constructor; [exact Hgood | constructor].
  - destruct Hgood as (Hr & _ & Hh & Hw).
    apply Forall_forall. intros y Hy.
    apply list_elem_of_In, in_map_iff in Hy as (i & <- & _). cbn.
    split; [apply is_rect_component, Hr |].
    split; [apply is_binary_component |].
    split; [rewrite height_component; exact Hh |
            rewrite width_component by exact Hr; exact Hw].
Qed.

Lemma merge_component_mask regions component y :
  Forall (fun x => image_mask (Analyzer.r_mask x)) regions ->
  Analyzer.merge_component regions component = Some y ->
  image_mask (Analyzer.r_mask y).
Proof.
  unfold Analyzer.merge_component. intros Hgood H.
  destruct (mapM _ component) as [members |] eqn:Hm; cbn in H; [| discriminate].
  destruct (mapM_lookups _ _ _ _ Hm Hgood) as [Hmem _].
  destruct (merge_all _) as [merged_mask |] eqn:Hall; cbn in H; [| discriminate].
  destruct (last _) as [class_id |]; cbn in H; [| discriminate].
  injection H as <-. cbn [Analyzer.r_mask].
  destruct members as [| x members]; [discriminate |].
  cbn in Hall. injection Hall as <-.
  apply Forall_cons in Hmem as [(Hr & Hb & Hh & Hw) Hmem].
  destruct (fold_merge_fg h w (Analyzer.r_mask <$> members) (Analyzer.r_mask x)
              Hr Hb Hh Hw) as (H1 & H2 & H3 & H4 & _).
  - apply Forall_fmap. exact Hmem.
  - split; [exact H1 | split; [exact H2 | split; assumption]].
Qed.

Lemma merged_instances_masks r score_thr merged :
  Forall image_mask (Analyzer.masks r) ->
  Analyzer.merged_instances class_names r score_thr = Some merged ->
  Forall (fun x => image_mask (Analyzer.r_mask x)) merged.
Proof.
  unfold Analyzer.merged_instances. intros Hmasks H.
  destruct (Analyzer.select_objects _ _ _) as [sel |] eqn:Hsel; cbn in H;
    [| discriminate].
  destruct (mapM _ _) as [parts |] eqn:Hparts; cbn in H; [| discriminate].
  pose proof (select_objects_masks _ _ _ Hmasks Hsel) as Hsel_good.
  assert (Hregions : Forall (fun x => image_mask (Analyzer.r_mask x)) (concat parts)).
  { eapply mapM_concat_Forall; [exact Hparts |].
    intros index part _. apply split_object_masks, Hsel_good. }
  unfold Analyzer.merge_regions in H. apply mapM_Some in H.
  apply Forall_forall. intros y Hy. apply list_elem_of_In in Hy.
  assert (Hex : exists component,
             Analyzer.merge_component (concat parts) component = Some y).
  { clear - H Hy. induction H as [| c z cs zs Hc _ IH]; [destruct Hy |].
    destruct Hy as [<- | Hy]; eauto. }
  destruct Hex as [component Hc]. eapply merge_component_mask; eassumption.
Qed.

(** An instance that is connected to no other instance is the instance
    kept for its group. *)
Lemma isolated_instance_kept merged k x final :
  (forall j y, merged !! j = Some y -> (0 < Analyzer.r_score y)%Q) ->
  merged !! k = Some x ->
  (forall j y, merged !! j = Some y -> j <> k ->
               are_mask_connected (Analyzer.r_mask x) (Analyzer.r_mask y) = false /\
               are_mask_connected (Analyzer.r_mask y) (Analyzer.r_mask x) = false) ->
  Analyzer.resolve_overlaps merged = Some final ->
  exists i, final !! i = Some x.
Proof.
  intros Hpos Hk Hiso Hfinal.
  set (g := Analyzer.overlap_graph merged).
  assert (HV : gV g = length merged) by apply link_graph_nodes.
  assert (Hlt : (k < gV g)%nat) by (rewrite HV; eapply lookup_lt_Some, Hk).
  destruct (component_cover g k Hlt) as (c & Hc & Hkc).
  destruct (select_best_max merged c) as (k' & x' & Hin & Hsel & Hk' & _).
  { eapply component_nonempty, Hc. }
  { intros j Hj. apply (component_nodes _ _ _ Hc) in Hj. rewrite HV in Hj.
    apply lookup_lt_is_Some_2 in Hj as [y Hy]. eauto. }
  assert (Heq : k' = k).
  { apply (econn_isolated (gEdges g)).
    - intros [i j] He. cbn [fst snd].
      apply link_graph_edges in He as (Hij & xi & xj & Hxi & Hxj & Hconn).
      split; intros ->.
      + rewrite Hk in Hxi. injection Hxi as <-.
        destruct (Hiso j xj Hxj) as [H1 _]; [lia | congruence].
      + rewrite Hk in Hxj. injection Hxj as <-.
        destruct (Hiso i xi Hxi) as [_ H2]; [lia | congruence].
    - apply (component_linked g c k k' Hc Hkc); [| exact Hin].
      rewrite HV. eapply lookup_lt_Some, Hk'. }
  subst k'. rewrite Hk in Hk'. injection Hk' as <-.
  unfold Analyzer.resolve_overlaps in Hfinal. fold g in Hfinal.
  rewrite filter_all in Hfinal by (intros c0; apply component_nonempty).
  apply mapM_Some in Hfinal.
  apply list_elem_of_In, list_elem_of_lookup in Hc as [i Hi].
  destruct (Forall2_lookup_l _ _ _ _ _ Hfinal Hi) as (y & Hy & Hsel').
  exists i. rewrite Hy. congruence.
Qed.

Lemma boxes_and_captions_lookup final d i x :
  Analyzer.boxes_and_captions extract_bboxes class_names final = Some d ->
  final !! i = Some x ->
  Analyzer.masks_final d !! i = Some (Analyzer.r_mask x) /\
  Analyzer.class_ids_final d !! i = Some (Analyzer.r_class_id x) /\
  Analyzer.scores_final d !! i = Some (Analyzer.r_score x) /\
  Analyzer.bboxes d !! i =
    Some (extract_bboxes (Analyzer.as_bool (Analyzer.r_mask x))) /\
  exists label,
    py_get class_names (Analyzer.r_class_id x) = Some label /\
    Analyzer.captions d !! i = Some (label, Analyzer.r_score x).
Proof.
  unfold Analyzer.boxes_and_captions. intros H Hi.
  destruct (mapM _ final) as [caps |] eqn:Hcaps; cbn in H; [| discriminate].
  injection H as <-. cbn. rewrite !list_lookup_fmap, Hi. cbn.
  repeat (split; [reflexivity |]).
  apply mapM_Some in Hcaps.
  destruct (Forall2_lookup_l _ _ _ _ _ Hcaps Hi) as (cap & Hcap & Hx).
  destruct (py_get class_names _) as [label |]; cbn in Hx; [| discriminate].
  injection Hx as <-. exists label. auto.
Qed.

(** C3, as the code has it: an instance with an empty mask is not
    dropped.  For 0/1 masks of the shape of the image and a positive
    score threshold, an instance of the first pass whose mask has no
    foreground pixel is connected to no other instance, so the second pass
    keeps it, and it is in the final lists with the box that
    [utils.extract_bboxes] gives for its mask and with its caption.  The
    instances that the second pass leaves out are members of a group of
    overlapping instances that are not its best: every group has its
    mask of largest score in [masks_final].  Apart from that, in
    [extract_gt_masks] every region, empty or not, is in a group of the
    graph, every group gives one merged mask, the merge of the masks of
    its regions, and every merged mask gets its box and its caption. *)
Theorem extract_masks_boxes_every_mask :
  (forall (r : Analyzer.det_raw) (score_thr : Q) (merged : list Analyzer.region)
          (d : Analyzer.det_data) (k : nat) (x : Analyzer.region),
     (0 < score_thr)%Q ->
     Forall image_mask (Analyzer.masks r) ->
     Analyzer.merged_instances class_names r score_thr = Some merged ->
     Analyzer.extract_det_masks extract_bboxes class_names r score_thr = Some d ->
     merged !! k = Some x ->
     (forall p, fg (Analyzer.r_mask x) p = false) ->
     exists i,
       Analyzer.masks_final d !! i = Some (Analyzer.r_mask x) /\
       Analyzer.class_ids_final d !! i = Some (Analyzer.r_class_id x) /\
       Analyzer.scores_final d !! i = Some (Analyzer.r_score x) /\
       Analyzer.bboxes d !! i =
         Some (extract_bboxes (Analyzer.as_bool (Analyzer.r_mask x))) /\
       exists label,
         py_get class_names (Analyzer.r_class_id x) = Some label /\
         Analyzer.captions d !! i = Some (label, Analyzer.r_score x)) /\
  (forall (r : Analyzer.det_raw) (score_thr : Q) (merged : list Analyzer.region)
          (d : Analyzer.det_data),
     (0 < score_thr)%Q ->
     Analyzer.merged_instances class_names r score_thr = Some merged ->
     Analyzer.extract_det_masks extract_bboxes class_names r score_thr = Some d ->
     Forall2 (fun group m =>
                exists k y,
                  In k group /\ merged !! k = Some y /\ m = Analyzer.r_mask y /\
                  forall k' z, In k' group -> merged !! k' = Some z ->
                               (Analyzer.r_score z <= Analyzer.r_score y)%Q)
             (connectedComponents (Analyzer.overlap_graph merged))
             (Analyzer.masks_final d)) /\
  (forall (masks_gt : list mask) (label_gt : string) (class_id_gt : Z)
          (regions : list (mask * Z)) (g : Analyzer.gt_data),
     Analyzer.gt_regions masks_gt label_gt class_id_gt = Some regions ->
     Analyzer.extract_gt_masks extract_bboxes class_names masks_gt label_gt
                               class_id_gt = Some g ->
     let groups :=
       connectedComponents
         (link_graph regions
            (fun x y => are_mask_connected (fst x) (fst y) &&
                        bool_decide (snd x = snd y))) in
     (forall k, (k < length regions)%nat ->
                exists group, In group groups /\ In k group) /\
     Forall2 (fun group m =>
                exists members,
                  Forall2 (fun k x => regions !! k = Some x) group members /\
                  merge_all (fst <$> members) = Some m)
             groups (Analyzer.masks_gt_merged g) /\
     Analyzer.bboxes_gt g =
       (fun m => extract_bboxes (Analyzer.as_bool m)) <$> Analyzer.masks_gt_merged g /\
     length (Analyzer.captions_gt g) = length (Analyzer.masks_gt_merged g)).
Proof.
  split; [| split].
  - intros r score_thr merged d k x Hthr Hmasks Hmerged Hd Hk Hempty.
    unfold Analyzer.extract_det_masks in Hd. rewrite Hmerged in Hd.
    cbn [mbind option_bind] in Hd.
    destruct (Analyzer.resolve_overlaps merged) as [final |] eqn:Hfinal;
      cbn [mbind option_bind] in Hd; [| discriminate].
    pose proof (merged_instances_masks _ _ _ Hmasks Hmerged) as Hgood.
    pose proof (merged_instances_scores _ _ _ _ Hthr Hmerged) as Hpos.
    rewrite Forall_forall in Hgood, Hpos.
    destruct (isolated_instance_kept merged k x final) as [i Hi];
      try assumption.
    + intros j y Hy. apply Hpos, list_elem_of_lookup. eauto.
    + intros j y Hy _.
      destruct (Hgood x) as (Hrx & _ & Hhx & Hwx);
        [apply list_elem_of_lookup; eauto |].
      destruct (Hgood y) as (Hry & Hby & Hhy & Hwy);
        [apply list_elem_of_lookup; eauto |].
      destruct (empty_mask_not_connected (Analyzer.r_mask y) (Analyzer.r_mask x))
        as [H1 H2]; try assumption; [| auto].
      unfold same_shape. rewrite Hhx, Hwx, Hhy, Hwy, !Nat.eqb_refl. reflexivity.
    + exists i. eapply boxes_and_captions_lookup; eassumption.
  - intros r score_thr merged d Hthr Hmerged Hd.
    unfold Analyzer.extract_det_masks in Hd. rewrite Hmerged in Hd.
    cbn [mbind option_bind] in Hd.
    destruct (Analyzer.resolve_overlaps merged) as [final |] eqn:Hfinal;
      cbn [mbind option_bind] in Hd; [| discriminate].
    apply boxes_and_captions_all in Hd as (-> & _ & _).
    pose proof (merged_instances_scores _ _ _ _ Hthr Hmerged) as Hpos.
    rewrite Forall_forall in Hpos.
    destruct (overlap_resolution_spec merged) as (_ & final' & Hres & Hall).
    { intros j y Hy. apply Hpos, list_elem_of_lookup. eauto. }
    rewrite Hfinal in Hres. injection Hres as <-.
    apply Forall2_fmap_r. eapply Forall2_impl; [exact Hall |].
    intros group y (j & Hj & Hy & Hmax). exists j, y. auto.
  - intros masks_gt label_gt class_id_gt regions g Hregions Hg groups.
    pose proof (extract_gt_masks_boxes _ _ _ _ _ _ Hg) as [Hboxes Hcaps].
    split; [| split; [| split; assumption]].
    + intros k Hk. apply component_cover. unfold groups.
      rewrite link_graph_nodes. exact Hk.
    + unfold Analyzer.extract_gt_masks in Hg. rewrite Hregions in Hg.
      cbn [mbind option_bind] in Hg. fold groups in Hg.
      rewrite filter_all in Hg by (intros c; apply component_nonempty).
      destruct (mapM _ groups) as [merged |] eqn:Hmerged;
        cbn [mbind option_bind] in Hg; [| discriminate].
      destruct (mapM _ merged) as [captions |]; cbn [mbind option_bind] in Hg;
        [| discriminate].
      injection Hg as <-. cbn [Analyzer.masks_gt_merged].
      apply Forall2_fmap_r. apply mapM_Some in Hmerged.
      eapply Forall2_impl; [exact Hmerged |].
      intros group y Hy. unfold Analyzer.merge_gt_component in Hy.
      destruct (mapM _ group) as [members |] eqn:Hm; cbn [mbind option_bind] in Hy;
        [| discriminate].
      destruct (merge_all _) as [merged_mask |] eqn:Hall;
        cbn [mbind option_bind] in Hy; [| discriminate].
      destruct (last _) as [class_id |]; cbn [mbind option_bind] in Hy;
        [| discriminate].
      injection Hy as <-. exists members. split; [| exact Hall].
      apply mapM_Some, Hm.
Qed.
End EmptyInstance.

Lemma extract_masks_boxes_every_mask_witness :
  let names := ["bkg"; "sidelobe"; "source"; "galaxy_C2"; "galaxy_C3"]%string in
  let r := Analyzer.mkRaw [[[0; 0; 0]]; [[1; 1; 0]]] 2 [3; 1] [9 # 10; 8 # 10] in
  (exists d i,
     Analyzer.extract_det_masks tight_bbox names r (7 # 10) = Some d /\
     Analyzer.masks_final d !! i = Some [[0; 0; 0]] /\
     Analyzer.class_ids_final d !! i = Some 3 /\
     Analyzer.bboxes d !! i = Some (0, 0, 0, 0)) /\
  (exists g,
     Analyzer.extract_gt_masks tight_bbox names [[[0; 0; 0]]; [[3; 3; 0]]]
                               "galaxy_C2"%string 3 = Some g /\
     Analyzer.bboxes_gt g =
       (fun m => tight_bbox (Analyzer.as_bool m)) <$> Analyzer.masks_gt_merged g /\
     length (Analyzer.captions_gt g) = length (Analyzer.masks_gt_merged g)).
Proof.
  intros names r.
  destruct (extract_masks_boxes_every_mask tight_bbox names 1 3)
    as (Hdet & _ & Hgt).
  split.
  - destruct (Analyzer.merged_instances names r (7 # 10)) as [merged |] eqn:Hm;
      [| vm_compute in Hm; discriminate].
    destruct (Analyzer.extract_det_masks tight_bbox names r (7 # 10)) as [d |] eqn:Hd;
      [| vm_compute in Hd; discriminate].
    assert (Hx : exists x, merged !! 0%nat = Some x /\
                           Analyzer.r_mask x = [[0; 0; 0]] /\
                           Analyzer.r_class_id x = 3).
    { pose proof Hm as Hm'. vm_compute in Hm'. injection Hm' as <-.
      eexists. split; [reflexivity | split; reflexivity]. }
    destruct Hx as (x & Hx & Hmask & Hclass).
    destruct (Hdet r (7 # 10) merged d 0%nat x) as (i & H1 & H2 & _ & H4 & _);
      try assumption.
    + reflexivity.
    + repeat constructor.
    + rewrite Hmask. intros [r0 c]. unfold fg, pix. cbn [fst snd].
      destruct r0 as [| [| r0]]; destruct c as [| [| [| [| c]]]]; reflexivity.
    + exists d, i. rewrite Hmask in H1, H4. rewrite Hclass in H2.
      split; [reflexivity | split; [exact H1 | split; [exact H2 | exact H4]]].
  - destruct (Analyzer.gt_regions [[[0; 0; 0]]; [[3; 3; 0]]] "galaxy_C2"%string 3)
      as [regions |] eqn:Hregions; [| vm_compute in Hregions; discriminate].
    destruct (Analyzer.extract_gt_masks tight_bbox names [[[0; 0; 0]]; [[3; 3; 0]]]
                                        "galaxy_C2"%string 3)
      as [g |] eqn:Hg; [| vm_compute in Hg; discriminate].
    destruct (Hgt _ _ _ regions g Hregions Hg) as (_ & _ & Hboxes & Hcaps).
    exists g. split; [reflexivity | split; assumption].
Defined.
